(** * Minesweeper board rules (components.py): a shallow embedding

    The module [components.py] holds the rules engine of the game: the
    classes [CellState], [Cell] and [Board].  Python integers are
    unbounded, so every [int] is a [Z].  The list [Board.cells] owns
    mutable [CellState] objects; a Python reference to one of them
    ([cell = self.cells[i].state]) is modelled by the position of the
    cell in the list, and a write through the reference is an [alter] at
    that position, so that a later read through the same reference sees
    every write made in between (this matters in [reveal], which fetches
    the clicked cell before mines are placed and reads it again after).

    A list subscript can raise [IndexError]; methods therefore return a
    [result].  An exception undoes nothing: the object stays as the
    statements before the exception have made it, and the board that a
    raising call leaves is given by a definition of its own
    ([place_mines_raised]).  The [while] loop of [reveal] is run with a
    fuel bound, and running out of fuel is a separate outcome that is
    proved not to occur. *)

From stdpp Require Import base numbers list.

Open Scope Z_scope.

(** ** Outcomes of a call *)

Inductive result (A : Type) : Type :=
  | Ok (a : A)
  | IndexError
  | OutOfFuel.
Arguments Ok {A} a.
Arguments IndexError {A}.
Arguments OutOfFuel {A}.

Definition rbind {A B} (m : result A) (k : A → result B) : result B :=
  match m with
  | Ok a => k a
  | IndexError => IndexError
  | OutOfFuel => OutOfFuel
  end.

Notation "'do' x <- m ; k" := (rbind m (λ x, k))
  (at level 10, x pattern, m at level 100, k at level 200,
   format "'[v' 'do'  x  <-  m ; '/' k ']'").

(** [for x in l: acc = f acc x], stopping at the first exception. *)
Fixpoint foldM {A B} (f : B → A → result B) (l : list A) (acc : B) : result B :=
  match l with
  | [] => Ok acc
  | x :: l' => do acc' <- f acc x; foldM f l' acc'
  end.

(** ** Python lists *)

(** [range(n)]: empty when [n <= 0]. *)
Definition range (n : Z) : list Z := seqZ 0 n.

(** The position that the subscript [l[i]] denotes in a list of length
    [len]: a negative [i] counts from the end. *)
Definition py_resolve (len : nat) (i : Z) : result nat :=
  if 0 <=? i then
    if i <? Z.of_nat len then Ok (Z.to_nat i) else IndexError
  else
    if 0 <=? Z.of_nat len + i then Ok (Z.to_nat (Z.of_nat len + i)) else IndexError.

Definition py_index {A} (l : list A) (i : Z) : result A :=
  do k <- py_resolve (length l) i;
  match l !! k with
  | Some x => Ok x
  | None => IndexError
  end.

(** ** Data model *)

Record CellState : Type := mkCellState {
  is_mine : bool;
  is_revealed : bool;
  is_flagged : bool;
  adjacent : Z
}.

Record Cell : Type := mkCell {
  col : Z;
  row : Z;
  state : CellState
}.

Record Board : Type := mkBoard {
  cols : Z;
  rows : Z;
  num_mines : Z;
  cells : list Cell;
  _mines_placed : bool;
  revealed_count : Z;
  game_over : bool;
  win : bool
}.

(** A position [(col, row)]. *)
Abbreviation pos := (Z * Z)%type.

(** Attribute assignments on a [CellState] reached through its [Cell]. *)
Definition set_is_mine (v : bool) (x : Cell) : Cell :=
  mkCell (col x) (row x)
    (mkCellState v (is_revealed (state x)) (is_flagged (state x)) (adjacent (state x))).

Definition set_is_revealed (v : bool) (x : Cell) : Cell :=
  mkCell (col x) (row x)
    (mkCellState (is_mine (state x)) v (is_flagged (state x)) (adjacent (state x))).

Definition set_is_flagged (v : bool) (x : Cell) : Cell :=
  mkCell (col x) (row x)
    (mkCellState (is_mine (state x)) (is_revealed (state x)) v (adjacent (state x))).

Definition set_adjacent (v : Z) (x : Cell) : Cell :=
  mkCell (col x) (row x)
    (mkCellState (is_mine (state x)) (is_revealed (state x)) (is_flagged (state x)) v).

(** Attribute assignments on the board. *)
Definition with_cells (l : list Cell) (b : Board) : Board :=
  mkBoard (cols b) (rows b) (num_mines b) l (_mines_placed b) (revealed_count b)
    (game_over b) (win b).

Definition with_mines_placed (v : bool) (b : Board) : Board :=
  mkBoard (cols b) (rows b) (num_mines b) (cells b) v (revealed_count b)
    (game_over b) (win b).

Definition with_revealed_count (v : Z) (b : Board) : Board :=
  mkBoard (cols b) (rows b) (num_mines b) (cells b) (_mines_placed b) v
    (game_over b) (win b).

Definition with_game_over (v : bool) (b : Board) : Board :=
  mkBoard (cols b) (rows b) (num_mines b) (cells b) (_mines_placed b) (revealed_count b)
    v (win b).

Definition with_win (v : bool) (b : Board) : Board :=
  mkBoard (cols b) (rows b) (num_mines b) (cells b) (_mines_placed b) (revealed_count b)
    (game_over b) v.

(** A write through a reference to the cell at position [k]. *)
Definition write (f : Cell → Cell) (k : nat) (b : Board) : Board :=
  with_cells (alter f k (cells b)) b.

(** ** [Board.__init__] *)

(** [[(c, r) for r in range(rows) for c in range(cols)]] *)
Definition positions (ncols nrows : Z) : list pos :=
  r ← range nrows; c ← range ncols; [(c, r)].

Definition new_cell (p : pos) : Cell :=
  mkCell p.1 p.2 (mkCellState false false false 0).

(** The constructor has no [raise] and no subscript: it returns for all
    arguments.  It is typed as a [result] so that "construction fails" can
    be stated about it. *)
Definition Board_init (ncols nrows mines : Z) : result Board :=
  Ok (mkBoard ncols nrows mines (new_cell <$> positions ncols nrows)
        false 0 false false).

(** ** Coordinates *)

Definition index (b : Board) (c r : Z) : Z := r * cols b + c.

Definition is_inbounds (b : Board) (c r : Z) : bool :=
  (0 <=? c) && (c <? cols b) && (0 <=? r) && (r <? rows b).

Definition deltas : list pos :=
  [(-1, -1); (0, -1); (1, -1);
   (-1,  0);          (1,  0);
   (-1,  1); (0,  1); (1,  1)].

Definition neighbors (b : Board) (c r : Z) : list pos :=
  filter (λ p : pos, is_inbounds b p.1 p.2)
         ((λ d : pos, (c + d.1, r + d.2)) <$> deltas).

(** [self.cells[self.index(c, r)].state]: the reference (a position in
    [cells]) together with the state read through it. *)
Definition cell_ref (b : Board) (c r : Z) : result nat :=
  py_resolve (length (cells b)) (index b c r).

Definition deref (b : Board) (k : nat) : result CellState :=
  match cells b !! k with
  | Some x => Ok (state x)
  | None => IndexError
  end.

(** ** [Board.place_mines] *)

(** The clicked cell and its neighbours.  The source builds a [set]; only
    membership is asked of it. *)
Definition forbidden (b : Board) (safe_col safe_row : Z) : list pos :=
  (safe_col, safe_row) :: neighbors b safe_col safe_row.

Definition pool (b : Board) (safe_col safe_row : Z) : list pos :=
  filter (λ p : pos, p ∉ forbidden b safe_col safe_row)
         (positions (cols b) (rows b)).

(** Body of [for i in range(self.num_mines)]. *)
Definition place_one (shuffled : list pos) (b : Board) (i : Z) : result Board :=
  do p <- py_index shuffled i;
  do k <- cell_ref b p.1 p.2;
  Ok (write (set_is_mine true) k b).

(** The inner loop [for nc, nr in self.neighbors(c, r)]. *)
Definition count_step (b : Board) (count : Z) (p : pos) : result Z :=
  do k <- cell_ref b p.1 p.2;
  do st <- deref b k;
  Ok (if is_mine st then count + 1 else count).

(** Body of the two nested loops over [r] and [c]. *)
Definition adjacency_step (b : Board) (p : pos) : result Board :=
  do k <- cell_ref b p.1 p.2;
  do st <- deref b k;
  if is_mine st then Ok b
  else
    do count <- foldM (count_step b) (neighbors b p.1 p.2) 0;
    Ok (write (set_adjacent count) k b).

(** [random.shuffle(pool)] is the only use of the random source; the
    permutation it applies is the parameter [shuffle].  The result is the
    board of a call that returns; the board that a call leaves when it
    raises is [place_mines_raised], below. *)
Definition place_mines (shuffle : list pos → list pos) (b : Board)
    (safe_col safe_row : Z) : result Board :=
  let shuffled := shuffle (pool b safe_col safe_row) in
  do b1 <- foldM (place_one shuffled) (range (num_mines b)) b;
  do b2 <- foldM adjacency_step (positions (cols b) (rows b)) b1;
  Ok (with_mines_placed true b2).

Definition is_shuffle (shuffle : list pos → list pos) : Prop :=
  ∀ l, shuffle l ≡ₚ l.

(** ** [Board._reveal_all_mines] and [Board._check_win] *)

Definition _reveal_all_mines (b : Board) : Board :=
  with_cells
    ((λ x, if is_mine (state x) then set_is_revealed true x else x) <$> cells b) b.

Definition _check_win (b : Board) : Board :=
  let total_cells := cols b * rows b in
  if (revealed_count b =? total_cells - num_mines b) && negb (game_over b) then
    with_cells
      ((λ x, if negb (is_revealed (state x)) && negb (is_mine (state x))
             then set_is_revealed true x else x) <$> cells b)
      (with_win true b)
  else b.

(** ** [Board.reveal] *)

(** One round of [while to_visit].  The list [to_visit] is kept with its
    last element first: [pop()] takes the head and [append] conses. *)
Definition push_neighbor (b : Board) (to_visit : list pos) (p : pos)
    : result (list pos) :=
  do k <- cell_ref b p.1 p.2;
  do neigh <- deref b k;
  Ok (if negb (is_revealed neigh) && negb (is_flagged neigh) && negb (is_mine neigh)
      then p :: to_visit else to_visit).

Definition visit (b : Board) (p : pos) (to_visit : list pos)
    : result (Board * list pos) :=
  do k <- cell_ref b p.1 p.2;
  do curr <- deref b k;
  if is_revealed curr || is_flagged curr then Ok (b, to_visit)
  else
    let b1 := write (set_is_revealed true) k b in
    let b2 := with_revealed_count (revealed_count b1 + 1) b1 in
    if adjacent curr =? 0 then
      do to_visit' <- foldM (push_neighbor b2) (neighbors b2 p.1 p.2) to_visit;
      Ok (b2, to_visit')
    else Ok (b2, to_visit).

Fixpoint flood (fuel : nat) (b : Board) (to_visit : list pos) : result Board :=
  match fuel with
  | O => OutOfFuel
  | S fuel' =>
      match to_visit with
      | [] => Ok b
      | p :: rest =>
          do st <- visit b p rest;
          flood fuel' st.1 st.2
      end
  end.

(** Each round either drops one entry of [to_visit] or reveals a cell
    and adds at most eight entries: nine rounds per cell, and one more
    to see the empty list, are enough. *)
Definition flood_fuel (b : Board) : nat := (9 * length (cells b) + 2)%nat.

Definition reveal (shuffle : list pos → list pos) (b : Board) (c r : Z)
    : result Board :=
  if negb (is_inbounds b c r) || game_over b then Ok b
  else
    do k <- cell_ref b c r;
    do cell <- deref b k;
    if is_revealed cell then Ok b
    else
      do b1 <- (if negb (_mines_placed b) then place_mines shuffle b c r else Ok b);
      do cell1 <- deref b1 k;
      if is_flagged cell1 then Ok b1
      else if is_mine cell1 then
        let b2 := write (set_is_revealed true) k b1 in
        let b3 := with_game_over true b2 in
        Ok (_reveal_all_mines b3)
      else
        do b2 <- flood (flood_fuel b1) b1 [(c, r)];
        Ok (_check_win b2).

(** ** [Board.toggle_flag] and [Board.flagged_count] *)

Definition toggle_flag (b : Board) (c r : Z) : result Board :=
  if negb (is_inbounds b c r) then Ok b
  else
    do k <- cell_ref b c r;
    do cell <- deref b k;
    if is_revealed cell then Ok b
    else Ok (write (set_is_flagged (negb (is_flagged cell))) k b).

(** A Python value as far as [flagged_count] is concerned. *)
Inductive py_value : Type :=
  | PyNone
  | PyInt (n : Z).

(** The body of [flagged_count] is a comment and [pass]: the call returns
    [None]. *)
Definition flagged_count (b : Board) : py_value := PyNone.

(** * Specification vocabulary *)

(** A board has the shape that [__init__] gives it. *)
Definition wf (b : Board) : Prop :=
  length (cells b) = (Z.to_nat (rows b) * Z.to_nat (cols b))%nat.

(** The position in [cells] of the cell at [p]. *)
Definition slot (b : Board) (p : pos) : nat := Z.to_nat (index b p.1 p.2).

(** The number of cells of [l] that satisfy [P]. *)
Definition count (P : Cell → bool) (l : list Cell) : nat :=
  length (filter (λ x, P x) l).

(** The flags of a cell, read through its state. *)
Definition mine (x : Cell) : bool := is_mine (state x).

Definition revealed (x : Cell) : bool := is_revealed (state x).

Definition flagged (x : Cell) : bool := is_flagged (state x).

(** A revealed cell that is no mine: what [revealed_count] counts. *)
Definition safe_revealed (x : Cell) : bool := revealed x && negb (mine x).

(** A cell that the cascade can still reveal: the measure of the loop. *)
Definition hidden (x : Cell) : bool := negb (revealed x).

(** What the cascade does to a cell: nothing, or it reveals it; and it
    reveals only cells that are neither mines nor flagged. *)
Definition cascade_cell (x y : Cell) : Prop :=
  y = x ∨
  (y = set_is_revealed true x ∧ revealed x = false ∧ mine x = false ∧ flagged x = false).

(** [b'] is [b] after some rounds of the cascade: the counter moved by
    the number of cells revealed, and nothing else changed. *)
Record cascade (b b' : Board) : Prop := {
  cas_cols : cols b' = cols b;
  cas_rows : rows b' = rows b;
  cas_num_mines : num_mines b' = num_mines b;
  cas_mines_placed : _mines_placed b' = _mines_placed b;
  cas_game_over : game_over b' = game_over b;
  cas_win : win b' = win b;
  cas_cells : Forall2 cascade_cell (cells b) (cells b');
  cas_count :
    revealed_count b' - revealed_count b =
    Z.of_nat (count safe_revealed (cells b')) - Z.of_nat (count safe_revealed (cells b))
}.

(** An entry of [to_visit]: in bounds and not a mine. *)
Definition safe_pos (b : Board) (p : pos) : Prop :=
  is_inbounds b p.1 p.2 = true ∧ ∃ x, cells b !! slot b p = Some x ∧ mine x = false.

(** Whether the cell at [p] is a mine ([false] off the grid). *)
Definition mine_at (b : Board) (p : pos) : bool :=
  match cells b !! slot b p with
  | Some x => mine x
  | None => false
  end.

(** The number of mines among the in-bounds neighbours of [p]. *)
Definition mine_neighbors (b : Board) (p : pos) : Z :=
  Z.of_nat (length (filter (λ q, mine_at b q) (neighbors b p.1 p.2))).

(** The cell at [p], if it is no mine, holds the number of mines around
    it. *)
Definition adjacency_ok (b : Board) (p : pos) : Prop :=
  ∀ x, cells b !! slot b p = Some x → mine x = false →
       adjacent (state x) = mine_neighbors b p.

(** What placement leaves alone in a cell. *)
Definition placement_cell (x y : Cell) : Prop :=
  col y = col x ∧ row y = row x ∧ revealed y = revealed x ∧ flagged y = flagged x.

(** [b'] is [b] with mines at the positions [ps], and nothing else
    changed but the adjacency counts. *)
Record marked (b : Board) (ps : list pos) (b' : Board) : Prop := {
  mk_cols : cols b' = cols b;
  mk_rows : rows b' = rows b;
  mk_num_mines : num_mines b' = num_mines b;
  mk_mines_placed : _mines_placed b' = _mines_placed b;
  mk_revealed_count : revealed_count b' = revealed_count b;
  mk_game_over : game_over b' = game_over b;
  mk_win : win b' = win b;
  mk_cells : Forall2 placement_cell (cells b) (cells b');
  mk_mines : ∀ p, is_inbounds b p.1 p.2 = true → (mine_at b' p = true ↔ p ∈ ps);
  mk_count : count mine (cells b') = length ps
}.

(** [b'] is [b] up to adjacency counts, and every count that was right
    in [b] is right in [b']. *)
Record counted (b b' : Board) : Prop := {
  ct_cols : cols b' = cols b;
  ct_rows : rows b' = rows b;
  ct_num_mines : num_mines b' = num_mines b;
  ct_mines_placed : _mines_placed b' = _mines_placed b;
  ct_revealed_count : revealed_count b' = revealed_count b;
  ct_game_over : game_over b' = game_over b;
  ct_win : win b' = win b;
  ct_cells : Forall2 (λ x y, placement_cell x y ∧ mine y = mine x) (cells b) (cells b');
  ct_keep : ∀ q, is_inbounds b q.1 q.2 = true → adjacency_ok b q → adjacency_ok b' q
}.

(** [b'] is [b] after a placement that put the mines at [ps]. *)
Record placed (b : Board) (ps : list pos) (b' : Board) : Prop := {
  pl_cols : cols b' = cols b;
  pl_rows : rows b' = rows b;
  pl_num_mines : num_mines b' = num_mines b;
  pl_revealed_count : revealed_count b' = revealed_count b;
  pl_game_over : game_over b' = game_over b;
  pl_win : win b' = win b;
  pl_mines_placed : _mines_placed b' = true;
  pl_cells : Forall2 placement_cell (cells b) (cells b');
  pl_mines : ∀ p, is_inbounds b p.1 p.2 = true → (mine_at b' p = true ↔ p ∈ ps);
  pl_count : count mine (cells b') = length ps;
  pl_adjacent : ∀ p, is_inbounds b p.1 p.2 = true → adjacency_ok b' p
}.

(** The mines that [place_mines] lays for the click at [(c, r)]. *)
Definition chosen (shuffle : list pos → list pos) (b : Board) (c r : Z) : list pos :=
  take (Z.to_nat (num_mines b)) (shuffle (pool b c r)).

(** A board is reachable when it is built by the constructor and then
    changed by calls of [reveal] and [toggle_flag] that return: these are
    the boards of the rounds in which no call has raised.  Every call of
    [reveal] draws its own permutation.  The boards that a raising call
    leaves are in [held], below. *)
Inductive reachable : Board → Prop :=
  | reach_init (ncols nrows mines : Z) (b : Board) :
      Board_init ncols nrows mines = Ok b → reachable b
  | reach_reveal (shuffle : list pos → list pos) (b : Board) (c r : Z) (b' : Board) :
      reachable b → is_shuffle shuffle → reveal shuffle b c r = Ok b' → reachable b'
  | reach_toggle_flag (b : Board) (c r : Z) (b' : Board) :
      reachable b → toggle_flag b c r = Ok b' → reachable b'.

(** What holds of every reachable board: its shape; before placement
    nothing is a mine or revealed; after it the mines are [num_mines] many;
    the counter counts the revealed cells that are no mines; no mine is
    revealed before the loss; only mines are both flagged and revealed;
    and [win] means that all cells but the mines are revealed. *)
Record inv (b : Board) : Prop := {
  inv_wf : wf b;
  inv_fresh :
    _mines_placed b = false →
    revealed_count b = 0 ∧ game_over b = false ∧ win b = false ∧
    Forall (λ x, mine x = false ∧ revealed x = false) (cells b);
  inv_placed :
    _mines_placed b = true →
    0 < cols b ∧ 0 < rows b ∧ count mine (cells b) = Z.to_nat (num_mines b);
  inv_count : revealed_count b = Z.of_nat (count safe_revealed (cells b));
  inv_hidden_mines :
    game_over b = false → Forall (λ x, revealed x = true → mine x = false) (cells b);
  inv_flags :
    Forall (λ x, flagged x = true → revealed x = true → mine x = true) (cells b);
  inv_win : win b = true → Forall (λ x, mine x = false → revealed x = true) (cells b)
}.

(** The state of the board when [reveal] reads the clicked cell again:
    either mines were placed before, or this call places them. *)
Definition ready (shuffle : list pos → list pos) (b : Board) (c r : Z) (b1 : Board)
    : Prop :=
  (_mines_placed b = true ∧ b1 = b) ∨
  (_mines_placed b = false ∧ place_mines shuffle b c r = Ok b1).

(** The board that the loss path of [reveal] returns, from the board
    [b1] and the reference [k] to the clicked mine. *)
Definition loss_board (b1 : Board) (k : nat) : Board :=
  _reveal_all_mines (with_game_over true (write (set_is_revealed true) k b1)).

(** What the loss path does to a cell: nothing, or it reveals a mine. *)
Definition loss_cell (x y : Cell) : Prop :=
  y = x ∨ (y = set_is_revealed true x ∧ mine x = true).

(** The permutation that leaves the pool in its order. *)
Definition keep_order (l : list pos) : list pos := l.

(** The board that a call returned (an empty board if it raised). *)
Definition the_board (m : result Board) : Board :=
  match m with
  | Ok b => b
  | _ => mkBoard 0 0 0 [] false 0 false false
  end.

(** One row of ten cells with one mine.  With [keep_order], the click
    at [(0, 0)] puts the mine at [(2, 0)] and reveals [(0, 0)] and
    [(1, 0)]. *)
Definition row10 : Board := Eval vm_compute in the_board (Board_init 10 1 1).

Definition row10_open : Board := Eval vm_compute in the_board (reveal keep_order row10 0 0).

(** then the mine is clicked *)
Definition row10_lost : Board :=
  Eval vm_compute in the_board (reveal keep_order row10_open 2 0).

(** or the far end is clicked, which reveals all that is left *)
Definition row10_won : Board :=
  Eval vm_compute in the_board (reveal keep_order row10_open 9 0).

(** and then the mine is clicked *)
Definition row10_won_lost : Board :=
  Eval vm_compute in the_board (reveal keep_order row10_won 2 0).

(** The first click lands on a flag. *)
Definition row10_flag : Board := Eval vm_compute in the_board (toggle_flag row10 0 0).

(** One row of eleven cells with two mines, at [(2, 0)] and [(3, 0)];
    the first is flagged, the second clicked. *)
Definition row11 : Board := Eval vm_compute in the_board (Board_init 11 1 2).

Definition row11_flag : Board := Eval vm_compute in the_board (toggle_flag row11 2 0).

Definition row11_open : Board :=
  Eval vm_compute in the_board (reveal keep_order row11_flag 0 0).

Definition row11_lost : Board :=
  Eval vm_compute in the_board (reveal keep_order row11_open 3 0).

(** Three by three with one mine, the centre flagged. *)
Definition square3 : Board := Eval vm_compute in the_board (Board_init 3 3 1).

Definition square3_flag : Board := Eval vm_compute in the_board (toggle_flag square3 1 1).

(** Three by three with a mine count of -1, after a click at the
    centre. *)
Definition square3_negative : Board :=
  Eval vm_compute in the_board (do b <- Board_init 3 3 (-1); reveal keep_order b 1 1).

(** What a call of [reveal] does to a cell once mines are placed:
    nothing, or it reveals it. *)
Definition opened (x y : Cell) : Prop := y = x ∨ y = set_is_revealed true x.

(** A neighbour that the cascade has nothing to do with: it is revealed,
    flagged or a mine. *)
Definition settled (b : Board) (q : pos) : Prop :=
  ∃ y, cells b !! slot b q = Some y ∧
       (revealed y = true ∨ flagged y = true ∨ mine y = true).

(** The cell at [p] is hidden in [b0], revealed in [b], and has no mine
    around it. *)
Definition newly_zero (b0 b : Board) (p : pos) : Prop :=
  ∃ x0 x, cells b0 !! slot b p = Some x0 ∧ cells b !! slot b p = Some x ∧
          revealed x0 = false ∧ revealed x = true ∧ adjacent (state x) = 0.

(** Every neighbour of a cell that the cascade revealed with a zero
    count is settled or still in [to_visit]. *)
Definition closed_from (b0 b : Board) (to_visit : list pos) : Prop :=
  ∀ p, is_inbounds b p.1 p.2 = true → newly_zero b0 b p →
       ∀ q, q ∈ neighbors b p.1 p.2 → q ∈ to_visit ∨ settled b q.

(** ** Calls that raise *)

(** The state that a [for] loop has reached when it stops, at the end of
    the list or at the first exception.  The bodies of the two loops of
    [place_mines] make their subscripts before their one assignment, so
    that a round that raises leaves the state as it found it. *)
Fixpoint foldM_state {A B} (f : B → A → result B) (l : list A) (acc : B) : B :=
  match l with
  | [] => acc
  | x :: l' =>
      match f acc x with
      | Ok acc' => foldM_state f l' acc'
      | _ => acc
      end
  end.

(** The board that the object holds when [place_mines] has raised.
    Nothing catches the exception, in [place_mines] or in [reveal], and
    nothing is undone: the cells that the first loop has marked stay mines,
    and [_mines_placed], which only the last line sets, stays false. *)
Definition place_mines_raised (shuffle : list pos → list pos) (b : Board)
    (safe_col safe_row : Z) : Board :=
  let shuffled := shuffle (pool b safe_col safe_row) in
  match foldM (place_one shuffled) (range (num_mines b)) b with
  | Ok b1 => foldM_state adjacency_step (positions (cols b) (rows b)) b1
  | _ => foldM_state (place_one shuffled) (range (num_mines b)) b
  end.

(** The boards that a [Board] object can hold: the one that the
    constructor builds, and the one that any call of [reveal] or
    [toggle_flag] leaves, whether the call returns or raises.  On these
    boards [reveal] writes nothing before it calls [place_mines] and
    raises nowhere else (lemma [reveal_raises_in_placement]), so that the
    board a raising call leaves is the one that [place_mines] leaves.
    [reachable] is the part of [held] in which no call has raised. *)
Inductive held : Board → Prop :=
  | held_init (ncols nrows mines : Z) (b : Board) :
      Board_init ncols nrows mines = Ok b → held b
  | held_reveal (shuffle : list pos → list pos) (b : Board) (c r : Z) (b' : Board) :
      held b → is_shuffle shuffle → reveal shuffle b c r = Ok b' → held b'
  | held_reveal_raised (shuffle : list pos → list pos) (b : Board) (c r : Z) :
      held b → is_shuffle shuffle → reveal shuffle b c r = IndexError →
      held (place_mines_raised shuffle b c r)
  | held_toggle_flag (b : Board) (c r : Z) (b' : Board) :
      held b → toggle_flag b c r = Ok b' → held b'.

(** [b'] is [b] with mines laid at the positions [ps], on top of the
    mines that [b] has; nothing else changed. *)
Record laid (b : Board) (ps : list pos) (b' : Board) : Prop := {
  ld_cols : cols b' = cols b;
  ld_rows : rows b' = rows b;
  ld_num_mines : num_mines b' = num_mines b;
  ld_mines_placed : _mines_placed b' = _mines_placed b;
  ld_revealed_count : revealed_count b' = revealed_count b;
  ld_game_over : game_over b' = game_over b;
  ld_win : win b' = win b;
  ld_cells :
    Forall2 (λ x y, placement_cell x y ∧ adjacent (state y) = adjacent (state x))
      (cells b) (cells b');
  ld_mines :
    ∀ p, is_inbounds b p.1 p.2 = true → (mine_at b' p = true ↔ mine_at b p = true ∨ p ∈ ps)
}.

(** What holds of every board that the object can hold: its shape;
    before placement nothing is revealed (but mines can be there, left by
    a call that raised); after it there are at least [num_mines] mines,
    and fewer than that many cells; the counter counts the revealed cells
    that are no mines; and after placement [win] is true exactly when the
    counter is full. *)
Record held_inv (b : Board) : Prop := {
  hi_wf : wf b;
  hi_fresh :
    _mines_placed b = false →
    revealed_count b = 0 ∧ game_over b = false ∧ win b = false ∧
    Forall (λ x, revealed x = false) (cells b);
  hi_placed :
    _mines_placed b = true →
    0 < cols b ∧ 0 < rows b ∧ num_mines b < cols b * rows b ∧
    (Z.to_nat (num_mines b) ≤ count mine (cells b))%nat;
  hi_count : revealed_count b = Z.of_nat (count safe_revealed (cells b));
  hi_win :
    _mines_placed b = true →
    (win b = true ↔ revealed_count b = cols b * rows b - num_mines b)
}.

(** One row of five cells with three mines.  The click at [(2, 0)] leaves
    a pool of two cells, [(0, 0)] and [(4, 0)]: the call marks both and
    raises.  The click at [(0, 0)] then places three more mines, and is a
    click on a mine. *)
Definition strip5 : Board := Eval vm_compute in the_board (Board_init 5 1 3).

Definition strip5_raised : Board :=
  Eval vm_compute in place_mines_raised keep_order strip5 2 0.

Definition strip5_lost : Board :=
  Eval vm_compute in the_board (reveal keep_order strip5_raised 0 0).

(** Four by three with four mines.  The click at [(1, 1)] leaves the
    pool [(3, 0)], [(3, 1)], [(3, 2)]: the call marks the three and raises.
    The click at [(0, 0)] then places mines at [(2, 0)], [(3, 0)], [(2, 1)]
    and [(3, 1)], five mines in all, and reveals six cells; the click at
    [(2, 2)] reveals the seventh, the last that is no mine. *)
Definition square43 : Board := Eval vm_compute in the_board (Board_init 4 3 4).

Definition square43_raised : Board :=
  Eval vm_compute in place_mines_raised keep_order square43 1 1.

Definition square43_open : Board :=
  Eval vm_compute in the_board (reveal keep_order square43_raised 0 0).


(** * Properties *)

(** ** The [result] monad and loops *)

Lemma rbind_Ok {A B} (m : result A) (k : A → result B) (y : B) :
  rbind m k = Ok y ↔ ∃ a, m = Ok a ∧ k a = Ok y.
Proof.
  destruct m as [a| |]; simpl; split; try (intros [a' [? ?]]); try congruence; eauto.
Qed.

Lemma foldM_app {A B} (f : B → A → result B) (l1 l2 : list A) (acc : B) :
  foldM f (l1 ++ l2) acc = rbind (foldM f l1 acc) (foldM f l2).
Proof.
  revert acc. induction l1 as [|x l1 IH]; intros acc; simpl; [done|].
  destruct (f acc x); simpl; auto.
Qed.

(** ** Subscripts *)

Lemma py_resolve_Ok (len : nat) (i : Z) :
  0 ≤ i < Z.of_nat len → py_resolve len i = Ok (Z.to_nat i).
Proof.
  intros [H0 H1]. unfold py_resolve.
  destruct (Z.leb_spec 0 i); [|lia]. destruct (Z.ltb_spec i (Z.of_nat len)); [done|lia].
Qed.

Lemma py_index_Ok {A} (l : list A) (i : nat) (x : A) :
  l !! i = Some x → py_index l (Z.of_nat i) = Ok x.
Proof.
  intros Hx. unfold py_index. rewrite py_resolve_Ok.
  - simpl. by rewrite Nat2Z.id, Hx.
  - apply lookup_lt_Some in Hx. lia.
Qed.

Lemma py_index_overflow {A} (l : list A) (i : Z) :
  Z.of_nat (length l) ≤ i → py_index l i = IndexError.
Proof.
  intros Hi. unfold py_index, py_resolve.
  destruct (Z.leb_spec 0 i); [|lia]. destruct (Z.ltb_spec i (Z.of_nat (length l))); [lia|done].
Qed.

(** ** The grid *)

Lemma length_bind_const {A B} (f : A → list B) (l : list A) (n : nat) :
  (∀ x, length (f x) = n) → length (l ≫= f) = (length l * n)%nat.
Proof.
  intros Hf. induction l as [|x l IH]; [done|].
  rewrite bind_cons, length_app, IH, Hf. done.
Qed.

Lemma length_positions (nc nr : Z) :
  length (positions nc nr) = (Z.to_nat nr * Z.to_nat nc)%nat.
Proof.
  unfold positions, range.
  rewrite (length_bind_const _ _ (Z.to_nat nc)), length_seqZ; [done|].
  intros r. rewrite (length_bind_const _ _ 1%nat), length_seqZ; [lia|done].
Qed.

Lemma elem_of_positions (nc nr : Z) (p : pos) :
  p ∈ positions nc nr ↔ (0 ≤ p.1 < nc) ∧ (0 ≤ p.2 < nr).
Proof.
  unfold positions, range. rewrite list_elem_of_bind. split.
  - intros (r & Hp & Hr). apply list_elem_of_bind in Hp as (c & Hp & Hc).
    apply list_elem_of_singleton in Hp as ->. simpl.
    apply elem_of_seqZ in Hr, Hc. lia.
  - intros [Hc Hr]. exists p.2. split; [|apply elem_of_seqZ; lia].
    apply list_elem_of_bind. exists p.1. split; [|apply elem_of_seqZ; lia].
    destruct p; simpl. apply list_elem_of_singleton. done.
Qed.

Lemma NoDup_positions (nc nr : Z) : NoDup (positions nc nr).
Proof.
  unfold positions, range. apply NoDup_bind; [| |apply NoDup_seqZ].
  - intros r1 r2 p _ _ H1 H2.
    apply list_elem_of_bind in H1 as (c1 & H1 & _), H2 as (c2 & H2 & _).
    apply list_elem_of_singleton in H1, H2. congruence.
  - intros r _. apply NoDup_bind; [| |apply NoDup_seqZ].
    + intros c1 c2 p _ _ H1 H2. apply list_elem_of_singleton in H1, H2. congruence.
    + intros c _. apply NoDup_singleton.
Qed.

Lemma is_inbounds_spec (b : Board) (c r : Z) :
  is_inbounds b c r = true ↔ (0 ≤ c < cols b) ∧ (0 ≤ r < rows b).
Proof. unfold is_inbounds. rewrite !andb_true_iff. lia. Qed.

Lemma is_inbounds_positions (b : Board) (p : pos) :
  p ∈ positions (cols b) (rows b) ↔ is_inbounds b p.1 p.2 = true.
Proof. by rewrite elem_of_positions, is_inbounds_spec. Qed.

Lemma index_range (b : Board) (c r : Z) :
  wf b → is_inbounds b c r = true →
  0 ≤ index b c r < Z.of_nat (length (cells b)).
Proof.
  intros Hwf [Hc Hr]%is_inbounds_spec. unfold index. rewrite Hwf. nia.
Qed.

Lemma slot_lt (b : Board) (p : pos) :
  wf b → is_inbounds b p.1 p.2 = true → (slot b p < length (cells b))%nat.
Proof. intros Hwf Hin. pose proof (index_range b _ _ Hwf Hin). unfold slot. lia. Qed.

Lemma slot_inj (b : Board) (p q : pos) :
  is_inbounds b p.1 p.2 = true → is_inbounds b q.1 q.2 = true →
  slot b p = slot b q → p = q.
Proof.
  intros [Hc Hr]%is_inbounds_spec [Hc' Hr']%is_inbounds_spec. unfold slot, index.
  destruct p as [c r], q as [c' r']; simpl in *. intros Heq.
  assert (r * cols b + c = r' * cols b + c') as Heq' by nia.
  assert (r = r') as -> by nia. f_equal. lia.
Qed.

Lemma cell_ref_Ok (b : Board) (c r : Z) :
  wf b → is_inbounds b c r = true → cell_ref b c r = Ok (slot b (c, r)).
Proof. intros Hwf Hin. unfold cell_ref. apply py_resolve_Ok. by apply index_range. Qed.

Lemma deref_Ok (b : Board) (k : nat) (x : Cell) :
  cells b !! k = Some x → deref b k = Ok (state x).
Proof. intros H. unfold deref. by rewrite H. Qed.

Lemma deref_inv (b : Board) (k : nat) (st : CellState) :
  deref b k = Ok st → ∃ x, cells b !! k = Some x ∧ state x = st.
Proof. unfold deref. destruct (cells b !! k); [|done]. intros [= <-]. eauto. Qed.

Lemma lookup_slot (b : Board) (p : pos) :
  wf b → is_inbounds b p.1 p.2 = true → ∃ x, cells b !! slot b p = Some x.
Proof. intros Hwf Hin. apply lookup_lt_is_Some. by apply slot_lt. Qed.

Lemma neighbors_inbounds (b : Board) (c r : Z) (p : pos) :
  p ∈ neighbors b c r → is_inbounds b p.1 p.2 = true.
Proof.
  unfold neighbors. intros [H _]%list_elem_of_filter. by apply Is_true_true.
Qed.

Lemma length_neighbors (b : Board) (c r : Z) : (length (neighbors b c r) ≤ 8)%nat.
Proof. unfold neighbors. etrans; [apply length_filter|]. by rewrite length_fmap. Qed.

(** ** Counting cells *)

Lemma count_cons (P : Cell → bool) (x : Cell) (l : list Cell) :
  count P (x :: l) = (Nat.b2n (P x) + count P l)%nat.
Proof.
  unfold count. rewrite filter_cons. by destruct (P x).
Qed.

Lemma count_le_length (P : Cell → bool) (l : list Cell) :
  (count P l ≤ length l)%nat.
Proof. apply length_filter. Qed.

Lemma count_alter (P : Cell → bool) (f : Cell → Cell) (l : list Cell) (k : nat) (x : Cell) :
  l !! k = Some x →
  (count P (alter f k l) + Nat.b2n (P x) = count P l + Nat.b2n (P (f x)))%nat.
Proof.
  revert k. induction l as [|y l IH]; intros [|k] Hk; simplify_eq/=.
  - rewrite !count_cons. lia.
  - rewrite !count_cons. specialize (IH _ Hk). lia.
Qed.

Lemma count_Forall2 (P Q : Cell → bool) (l l' : list Cell) :
  Forall2 (λ x y, P x = Q y) l l' → count P l = count Q l'.
Proof.
  induction 1 as [|x y l l' Hxy _ IH]; [done|]. rewrite !count_cons. congruence.
Qed.

Lemma count_none (P : Cell → bool) (l : list Cell) :
  Forall (λ x, P x = false) l → count P l = 0%nat.
Proof.
  induction 1 as [|x l Hx _ IH]; [done|]. rewrite count_cons, Hx, IH. done.
Qed.

(** When as many cells satisfy [P] as satisfy the weaker [Q], every cell
    that satisfies [Q] satisfies [P]. *)
Lemma count_full (P Q : Cell → bool) (l : list Cell) :
  (∀ x, P x = true → Q x = true) →
  (count Q l ≤ count P l)%nat → Forall (λ x, Q x = true → P x = true) l.
Proof.
  intros HPQ. induction l as [|x l IH]; intros Hle; [constructor|].
  rewrite !count_cons in Hle.
  assert (count P l ≤ count Q l)%nat as Hmono.
  { clear -HPQ. induction l as [|y l IH]; [done|]. rewrite !count_cons.
    specialize (HPQ y). destruct (P y), (Q y); simpl; try lia.
    all: by specialize (HPQ eq_refl). }
  specialize (HPQ x). constructor.
  - destruct (P x), (Q x); simpl in *; try done. lia.
  - apply IH. destruct (P x), (Q x); simpl in *; try lia.
    all: by specialize (HPQ eq_refl).
Qed.

Lemma count_not (P : Cell → bool) (l : list Cell) :
  (count P l + count (λ x, negb (P x)) l = length l)%nat.
Proof.
  induction l as [|x l IH]; [done|]. rewrite !count_cons. simpl.
  destruct (P x); simpl; lia.
Qed.

Lemma Forall2_trans {A} (R : A → A → Prop) (l1 l2 l3 : list A) :
  (∀ x y z, R x y → R y z → R x z) →
  Forall2 R l1 l2 → Forall2 R l2 l3 → Forall2 R l1 l3.
Proof.
  intros HR H12. revert l3. induction H12; intros l3 H23; inversion H23; subst;
    constructor; eauto.
Qed.

Lemma Forall2_diag {A} (R : A → A → Prop) (l : list A) :
  (∀ x, R x x) → Forall2 R l l.
Proof. intros HR. induction l; constructor; auto. Qed.

Lemma Forall2_alter_diag {A} (R : A → A → Prop) (f : A → A) (l : list A) (k : nat) :
  (∀ x, R x x) → (∀ x, l !! k = Some x → R x (f x)) → Forall2 R l (alter f k l).
Proof.
  intros Hrefl Hf. apply Forall2_alter_r; [by apply Forall2_diag|].
  intros x y Hx Hy _. assert (x = y) as <- by congruence. auto.
Qed.

Lemma Forall2_fmap_diag {A} (R : A → A → Prop) (f : A → A) (l : list A) :
  (∀ x, R x (f x)) → Forall2 R l (f <$> l).
Proof. intros Hf. induction l; constructor; auto. Qed.

(** ** The cascade of [reveal] *)

Lemma cascade_cell_trans (x y z : Cell) :
  cascade_cell x y → cascade_cell y z → cascade_cell x z.
Proof.
  intros [->|(-> & Hx)] [->|(-> & Hy)]; [by left|by right|by right|].
  by destruct Hy.
Qed.

Lemma cascade_refl (b : Board) : cascade b b.
Proof. split; try done; [|lia]. apply Forall2_diag. by left. Qed.

Lemma cascade_trans (b1 b2 b3 : Board) : cascade b1 b2 → cascade b2 b3 → cascade b1 b3.
Proof.
  intros [] []. split; try congruence; [|lia].
  eapply Forall2_trans; eauto using cascade_cell_trans.
Qed.

Lemma cascade_wf (b b' : Board) : cascade b b' → wf b → wf b'.
Proof.
  intros [] Hwf. unfold wf in *. erewrite <- Forall2_length by done. congruence.
Qed.

Lemma cascade_is_inbounds (b b' : Board) (c r : Z) :
  cascade b b' → is_inbounds b' c r = is_inbounds b c r.
Proof. intros []. unfold is_inbounds. congruence. Qed.

Lemma cascade_slot (b b' : Board) (p : pos) : cascade b b' → slot b' p = slot b p.
Proof. intros []. unfold slot, index. congruence. Qed.

Lemma cascade_mine (x y : Cell) : cascade_cell x y → mine y = mine x.
Proof. by intros [->|(-> & _)]. Qed.

Lemma cascade_safe_pos (b b' : Board) (p : pos) :
  cascade b b' → safe_pos b p → safe_pos b' p.
Proof.
  intros Hc (Hin & x & Hx & Hm). split; [by rewrite (cascade_is_inbounds b)|].
  rewrite (cascade_slot b) by done.
  destruct (Forall2_lookup_l _ _ _ _ _ (cas_cells _ _ Hc) Hx) as (y & Hy & Hxy).
  exists y. split; [done|]. by rewrite (cascade_mine x).
Qed.

Lemma push_neighbors_spec (b : Board) (l st : list pos) :
  wf b → Forall (λ q, is_inbounds b q.1 q.2 = true) l → Forall (safe_pos b) st →
  ∃ st', foldM (push_neighbor b) l st = Ok st' ∧ Forall (safe_pos b) st' ∧
         (length st' ≤ length st + length l)%nat.
Proof.
  intros Hwf Hl. revert st. induction Hl as [|q l Hq _ IH]; intros st Hst; simpl.
  { exists st. split_and!; [done|done|lia]. }
  unfold push_neighbor at 1. destruct q as [c r]; simpl in *.
  rewrite cell_ref_Ok by done. simpl.
  destruct (lookup_slot b (c, r) Hwf Hq) as [x Hx].
  rewrite (deref_Ok _ _ _ Hx). simpl.
  destruct (negb (is_revealed (state x)) && negb (is_flagged (state x))
            && negb (is_mine (state x))) eqn:E.
  - destruct (IH ((c, r) :: st)) as (st' & -> & Hsafe & Hlen).
    + constructor; [|done]. split; [done|]. exists x. split; [done|].
      apply andb_true_iff in E as [_ E]. by apply negb_true_iff in E.
    + exists st'. split_and!; [done|done|]. simpl in Hlen. lia.
  - destruct (IH st Hst) as (st' & -> & Hsafe & Hlen).
    exists st'. split_and!; [done|done|lia].
Qed.

Lemma reveal_write_cascade (b : Board) (k : nat) (x : Cell) :
  cells b !! k = Some x → revealed x = false → mine x = false → flagged x = false →
  cascade b (with_revealed_count (revealed_count b + 1) (write (set_is_revealed true) k b)) ∧
  (count hidden (cells (write (set_is_revealed true) k b)) + 1 = count hidden (cells b))%nat.
Proof.
  intros Hx Hr Hm Hf. split; [split; try done; simpl|simpl].
  - apply Forall2_alter_diag; [by left|].
    intros y Hy. assert (y = x) as -> by congruence. by right.
  - pose proof (count_alter safe_revealed (set_is_revealed true) _ _ _ Hx) as Hc.
    assert (safe_revealed x = false) as E1 by (unfold safe_revealed; by rewrite Hr).
    assert (safe_revealed (set_is_revealed true x) = true) as E2
      by (unfold safe_revealed, revealed, mine in *; simpl; by rewrite Hm).
    rewrite E1, E2 in Hc. simpl in Hc. lia.
  - pose proof (count_alter hidden (set_is_revealed true) _ _ _ Hx) as Hc.
    assert (hidden x = true) as E1 by (unfold hidden; by rewrite Hr).
    assert (hidden (set_is_revealed true x) = false) as E2 by done.
    rewrite E1, E2 in Hc. simpl in Hc. lia.
Qed.

Lemma visit_spec (b : Board) (p : pos) (rest : list pos) :
  wf b → safe_pos b p → Forall (safe_pos b) rest →
  ∃ b' st', visit b p rest = Ok (b', st') ∧ cascade b b' ∧ Forall (safe_pos b') st' ∧
    (9 * count hidden (cells b') + length st' < 9 * count hidden (cells b) + S (length rest))%nat.
Proof.
  intros Hwf (Hin & x & Hx & Hm) Hrest. unfold visit. destruct p as [c r]; simpl in *.
  rewrite cell_ref_Ok by done. simpl. rewrite (deref_Ok _ _ _ Hx). simpl.
  destruct (is_revealed (state x) || is_flagged (state x)) eqn:E.
  { exists b, rest. split_and!; [done|apply cascade_refl|done|lia]. }
  apply orb_false_iff in E as [Hr Hf].
  destruct (reveal_write_cascade b _ x Hx Hr Hm Hf) as [Hcas Hcount].
  set (b2 := with_revealed_count _ _) in *.
  assert (Forall (safe_pos b2) rest) as Hrest2.
  { eapply Forall_impl; [done|]. eauto using cascade_safe_pos. }
  assert (count hidden (cells b2) + 1 = count hidden (cells b))%nat as Hcount2 by done.
  destruct (adjacent (state x) =? 0).
  - destruct (push_neighbors_spec b2 (neighbors b2 c r) rest) as (st' & -> & Hsafe & Hlen);
      [by eapply cascade_wf| |done|].
    { apply Forall_forall. intros q Hq. by eapply neighbors_inbounds. }
    exists b2, st'. split_and!; [done|done|done|].
    pose proof (length_neighbors b2 c r). lia.
  - exists b2, rest. split_and!; [done|done|done|lia].
Qed.

(** The loop returns, whatever the board, as soon as the fuel exceeds
    nine times the number of unrevealed cells plus the length of
    [to_visit]. *)
Lemma flood_spec (fuel : nat) :
  ∀ (b : Board) (to_visit : list pos),
    wf b → Forall (safe_pos b) to_visit →
    (9 * count hidden (cells b) + length to_visit < fuel)%nat →
    ∃ b', flood fuel b to_visit = Ok b' ∧ cascade b b'.
Proof.
  induction fuel as [|fuel IH]; intros b st Hwf Hst Hfuel; [lia|].
  destruct st as [|p rest]; simpl.
  { exists b. split; [done|apply cascade_refl]. }
  apply Forall_cons in Hst as [Hp Hrest].
  destruct (visit_spec b p rest Hwf Hp Hrest) as (b1 & st1 & -> & Hcas & Hst1 & Hlt).
  simpl in *. destruct (IH b1 st1) as (b' & -> & Hcas'); [by eapply cascade_wf|done|lia|].
  exists b'. split; [done|]. by eapply cascade_trans.
Qed.

Lemma flood_from_click (b : Board) (c r : Z) :
  wf b → safe_pos b (c, r) →
  ∃ b', flood (flood_fuel b) b [(c, r)] = Ok b' ∧ cascade b b'.
Proof.
  intros Hwf Hp. apply flood_spec; [done|by constructor|].
  unfold flood_fuel. pose proof (count_le_length hidden (cells b)). simpl. lia.
Qed.

(** ** Mine placement *)

Lemma marked_wf (b b' : Board) (ps : list pos) : marked b ps b' → wf b → wf b'.
Proof.
  intros [] Hwf. unfold wf in *. erewrite <- Forall2_length by done. congruence.
Qed.

Lemma marked_is_inbounds (b b' : Board) (ps : list pos) (c r : Z) :
  marked b ps b' → is_inbounds b' c r = is_inbounds b c r.
Proof. intros []. unfold is_inbounds. congruence. Qed.

Lemma mine_at_false (b : Board) (p : pos) :
  Forall (λ x, mine x = false) (cells b) → mine_at b p = false.
Proof.
  intros Hall. unfold mine_at. destruct (cells b !! slot b p) as [x|] eqn:E; [|done].
  by eapply (Forall_lookup_1 _ _ _ _ Hall).
Qed.

Lemma range_of_nat (n : Z) : range n = range (Z.of_nat (Z.to_nat n)).
Proof. unfold range, seqZ. by rewrite Nat2Z.id. Qed.

Lemma range_S (m : nat) : range (Z.of_nat (S m)) = range (Z.of_nat m) ++ [Z.of_nat m].
Proof. unfold range. by rewrite seqZ_S. Qed.

(** The first [m] rounds of [for i in range(self.num_mines)], when the
    shuffled pool has at least [m] entries. *)
Lemma place_loop (shuffled : list pos) (b : Board) (m : nat) :
  wf b → Forall (λ q, is_inbounds b q.1 q.2 = true) shuffled → NoDup shuffled →
  Forall (λ x, mine x = false) (cells b) →
  (m ≤ length shuffled)%nat →
  ∃ b', foldM (place_one shuffled) (range (Z.of_nat m)) b = Ok b' ∧
        marked b (take m shuffled) b'.
Proof.
  intros Hwf Hin Hnd Hfree. induction m as [|m IH]; intros Hm.
  { exists b. split; [done|]. split; try done.
    - apply Forall2_diag. by intros x.
    - intros p _. rewrite mine_at_false by done. rewrite elem_of_nil. naive_solver.
    - by apply count_none. }
  destruct IH as (b1 & Hb1 & Hmk); [lia|].
  destruct (lookup_lt_is_Some_2 shuffled m) as [p Hp]; [lia|].
  assert (is_inbounds b p.1 p.2 = true) as Hpin
    by (eapply (Forall_lookup_1 _ _ _ _ Hin); done).
  assert (p ∉ take m shuffled) as Hfresh.
  { intros (i & Hi & Hlt)%elem_of_take.
    pose proof (NoDup_lookup _ _ _ _ Hnd Hi Hp). lia. }
  pose proof (marked_wf _ _ _ Hmk Hwf) as Hwf1.
  assert (is_inbounds b1 p.1 p.2 = true) as Hpin1
    by (by rewrite (marked_is_inbounds b b1 (take m shuffled))).
  destruct (lookup_slot b1 p Hwf1 Hpin1) as [x Hx].
  assert (mine x = false) as Hxm.
  { destruct (mine x) eqn:E; [|done]. exfalso. apply Hfresh.
    apply (mk_mines _ _ _ Hmk p Hpin). unfold mine_at. by rewrite Hx. }
  rewrite range_S, foldM_app, Hb1. simpl.
  unfold place_one. rewrite (py_index_Ok _ _ _ Hp). simpl.
  rewrite cell_ref_Ok by done. simpl. eexists. split; [done|].
  rewrite (take_S_r _ _ _ Hp).
  destruct Hmk as [Hcols Hrows ? ? ? ? ? Hcells Hmines Hcount].
  replace (slot b1 (p.1, p.2)) with (slot b1 p) by (by destruct p).
  split; simpl; try done.
  - eapply Forall2_trans; [|done|].
    { intros ??? (?&?&?&?) (?&?&?&?). unfold placement_cell. split_and!; congruence. }
    apply Forall2_alter_diag; [done|]. intros y _. done.
  - intros q Hq. rewrite elem_of_app, list_elem_of_singleton.
    rewrite <- (Hmines q Hq). unfold mine_at. simpl.
    assert (slot (write (set_is_mine true) (slot b1 p) b1) q = slot b1 q) as -> by done.
    rewrite list_lookup_alter. case_decide as Hs.
    + assert (p = q) as ->.
      { apply (slot_inj b1); [done| |done].
        unfold is_inbounds in *. by rewrite Hcols, Hrows. }
      rewrite Hx. simpl. split; [by right|done].
    + assert (q ≠ p) as Hne by (by intros ->).
      destruct (cells b1 !! slot b1 q) as [y|]; (split; [by left|by intros [Hy|Hy]]).
  - pose proof (count_alter mine (set_is_mine true) _ _ _ Hx) as Hc.
    rewrite Hxm in Hc. unfold mine at 3 in Hc. simpl in Hc.
    rewrite length_app. simpl. lia.
Qed.

Lemma counted_refl (b : Board) : counted b b.
Proof. split; try done. by apply Forall2_diag. Qed.

Lemma counted_is_inbounds (b b' : Board) (c r : Z) :
  counted b b' → is_inbounds b' c r = is_inbounds b c r.
Proof. intros []. unfold is_inbounds. congruence. Qed.

Lemma counted_trans (b1 b2 b3 : Board) : counted b1 b2 → counted b2 b3 → counted b1 b3.
Proof.
  intros H12 H23. pose proof (λ c r, counted_is_inbounds b1 b2 c r H12) as Hin.
  destruct H12 as [? ? ? ? ? ? ? Hc12 Hk12], H23 as [? ? ? ? ? ? ? Hc23 Hk23].
  split; try congruence.
  - eapply Forall2_trans; [|done|done].
    intros ??? [(?&?&?&?) ?] [(?&?&?&?) ?]. unfold placement_cell. split_and!; congruence.
  - intros q Hq Hok. apply Hk23; [by rewrite Hin|]. by apply Hk12.
Qed.

Lemma counted_wf (b b' : Board) : counted b b' → wf b → wf b'.
Proof.
  intros [] Hwf. unfold wf in *. erewrite <- Forall2_length by done. congruence.
Qed.

Lemma counted_mine_at (b b' : Board) (q : pos) : counted b b' → mine_at b' q = mine_at b q.
Proof.
  intros [Hcols _ _ _ _ _ _ Hcells _]. unfold mine_at, slot, index. rewrite Hcols.
  destruct (cells b !! Z.to_nat (q.2 * cols b + q.1)) as [x|] eqn:E.
  - destruct (Forall2_lookup_l _ _ _ _ _ Hcells E) as (y & -> & _ & Hm). done.
  - apply lookup_ge_None in E. erewrite Forall2_length in E by done.
    apply lookup_ge_None in E. by rewrite E.
Qed.

Lemma write_adjacent_mine_at (b : Board) (k : nat) (n : Z) (q : pos) :
  mine_at (write (set_adjacent n) k b) q = mine_at b q.
Proof.
  unfold mine_at. simpl.
  assert (slot (write (set_adjacent n) k b) q = slot b q) as -> by done.
  rewrite list_lookup_alter. case_decide as Hk; [|done].
  subst k. by destruct (cells b !! slot b q).
Qed.

Lemma write_adjacent_mine_neighbors (b : Board) (k : nat) (n : Z) (q : pos) :
  mine_neighbors (write (set_adjacent n) k b) q = mine_neighbors b q.
Proof.
  unfold mine_neighbors. f_equal. f_equal.
  assert (neighbors (write (set_adjacent n) k b) q.1 q.2 = neighbors b q.1 q.2) as -> by done.
  apply list_filter_iff. intros p. by rewrite write_adjacent_mine_at.
Qed.

(** The inner loop counts the mines among the neighbours. *)
Lemma count_loop (b : Board) (l : list pos) (acc : Z) :
  wf b → Forall (λ q, is_inbounds b q.1 q.2 = true) l →
  foldM (count_step b) l acc =
  Ok (acc + Z.of_nat (length (filter (λ q, mine_at b q) l))).
Proof.
  intros Hwf Hl. revert acc. induction Hl as [|q l Hq _ IH]; intros acc; simpl.
  { f_equal. cbn. lia. }
  unfold count_step at 1. destruct (lookup_slot b q Hwf Hq) as [x Hx].
  rewrite cell_ref_Ok by done. simpl.
  replace (slot b (q.1, q.2)) with (slot b q) by (by destruct q).
  rewrite (deref_Ok _ _ _ Hx). simpl. rewrite IH. f_equal.
  assert (mine_at b q = is_mine (state x)) as Hq' by (unfold mine_at; by rewrite Hx).
  rewrite filter_cons. case_decide as Hd; rewrite Hq' in Hd;
    destruct (is_mine (state x)); simpl in *; try done; lia.
Qed.

Lemma adjacency_step_spec (b : Board) (p : pos) :
  wf b → is_inbounds b p.1 p.2 = true →
  ∃ b', adjacency_step b p = Ok b' ∧ counted b b' ∧ adjacency_ok b' p.
Proof.
  intros Hwf Hp. unfold adjacency_step. destruct (lookup_slot b p Hwf Hp) as [x Hx].
  rewrite cell_ref_Ok by done. simpl.
  replace (slot b (p.1, p.2)) with (slot b p) by (by destruct p).
  rewrite (deref_Ok _ _ _ Hx). simpl.
  destruct (is_mine (state x)) eqn:Hm.
  { exists b. split_and!; [done|apply counted_refl|].
    intros y Hy. assert (y = x) as -> by congruence. unfold mine. congruence. }
  rewrite count_loop; [|done|].
  2:{ apply Forall_forall. intros q Hq. by eapply neighbors_inbounds. }
  simpl. eexists. split; [done|].
  change (0 + Z.of_nat (length (filter (λ q, mine_at b q) (neighbors b p.1 p.2))))
    with (0 + mine_neighbors b p). rewrite Z.add_0_l.
  assert (adjacency_ok (write (set_adjacent (mine_neighbors b p)) (slot b p) b) p) as Hok.
  { intros y Hy _. rewrite write_adjacent_mine_neighbors. simpl in Hy.
    assert (slot (write (set_adjacent (mine_neighbors b p)) (slot b p) b) p = slot b p)
      as Hs by done.
    rewrite Hs, list_lookup_alter_eq, Hx in Hy. simpl in Hy. by simplify_eq. }
  split; [|done]. split; try done.
  - simpl. apply Forall2_alter_diag; [done|]. by intros y _.
  - intros q Hq Hq_ok. destruct (decide (q = p)) as [->|Hne]; [done|].
    intros y Hy Hym. rewrite write_adjacent_mine_neighbors. apply Hq_ok; [|done].
    simpl in Hy.
    assert (slot (write (set_adjacent (mine_neighbors b p)) (slot b p) b) q = slot b q)
      as Hs by done.
    rewrite Hs, list_lookup_alter_ne in Hy; [done|].
    intros Heq. apply Hne. symmetry. by apply (slot_inj b).
Qed.

Lemma adjacency_loop (l : list pos) :
  ∀ b, wf b → Forall (λ q, is_inbounds b q.1 q.2 = true) l →
       ∃ b', foldM adjacency_step l b = Ok b' ∧ counted b b' ∧
             Forall (adjacency_ok b') l.
Proof.
  induction l as [|p l IH]; intros b Hwf Hl; simpl.
  { exists b. split_and!; [done|apply counted_refl|constructor]. }
  apply Forall_cons in Hl as [Hp Hl].
  destruct (adjacency_step_spec b p Hwf Hp) as (b1 & -> & Hct & Hok). simpl.
  destruct (IH b1) as (b' & -> & Hct' & Hall); [by eapply counted_wf| |].
  { eapply Forall_impl; [done|]. intros q Hq. by rewrite (counted_is_inbounds b). }
  exists b'. split_and!; [done|by eapply counted_trans|].
  constructor; [|done]. apply (ct_keep _ _ Hct'); [|done].
  by rewrite (counted_is_inbounds b).
Qed.

(** *** The safe zone and the pool *)

Lemma NoDup_neighbors (b : Board) (c r : Z) : NoDup (neighbors b c r).
Proof.
  unfold neighbors. apply NoDup_filter, NoDup_fmap_2_strong.
  - intros [dx dy] [dx' dy'] _ _ [= ? ?]. f_equal; lia.
  - unfold deltas. by refine (bool_decide_unpack _ _).
Qed.

Lemma not_self_neighbor (b : Board) (c r : Z) : (c, r) ∉ neighbors b c r.
Proof.
  unfold neighbors. intros [_ Hd]%list_elem_of_filter.
  apply list_elem_of_fmap in Hd as ([dx dy] & [= Hx Hy] & Hd). simpl in *.
  assert (dx = 0 ∧ dy = 0) as [-> ->] by lia. revert Hd.
  unfold deltas. rewrite !elem_of_cons, elem_of_nil. intros H. by decompose [or] H.
Qed.

Lemma NoDup_forbidden (b : Board) (c r : Z) : NoDup (forbidden b c r).
Proof.
  unfold forbidden. apply NoDup_cons. split; [apply not_self_neighbor|apply NoDup_neighbors].
Qed.

Lemma forbidden_inbounds (b : Board) (c r : Z) (p : pos) :
  is_inbounds b c r = true → p ∈ forbidden b c r → is_inbounds b p.1 p.2 = true.
Proof.
  intros Hin [->|Hp]%elem_of_cons; [done|]. by eapply neighbors_inbounds.
Qed.

Lemma elem_of_pool (b : Board) (c r : Z) (p : pos) :
  p ∈ pool b c r ↔ (p ∉ forbidden b c r) ∧ is_inbounds b p.1 p.2 = true.
Proof. unfold pool. by rewrite list_elem_of_filter, is_inbounds_positions. Qed.

Lemma NoDup_pool (b : Board) (c r : Z) : NoDup (pool b c r).
Proof. apply NoDup_filter, NoDup_positions. Qed.

(** The pool is the grid without the safe zone. *)
Lemma length_pool (b : Board) (c r : Z) :
  is_inbounds b c r = true →
  Z.of_nat (length (pool b c r)) = cols b * rows b - Z.of_nat (length (forbidden b c r)).
Proof.
  intros Hin.
  pose proof (filter_app_complement (λ p : pos, p ∉ forbidden b c r)
                (positions (cols b) (rows b))) as Hsplit.
  apply Permutation_length in Hsplit. rewrite length_app, length_positions in Hsplit.
  assert (filter (λ p : pos, ¬ (p ∉ forbidden b c r)) (positions (cols b) (rows b))
          ≡ₚ forbidden b c r) as Hperm.
  { apply NoDup_Permutation; [apply NoDup_filter, NoDup_positions|apply NoDup_forbidden|].
    intros p. rewrite list_elem_of_filter, is_inbounds_positions. split.
    - intros [Hp _]. by apply dec_stable.
    - intros Hp. split; [tauto|]. by eapply forbidden_inbounds. }
  apply Permutation_length in Hperm. rewrite Hperm in Hsplit.
  apply is_inbounds_spec in Hin. fold (pool b c r) in Hsplit. nia.
Qed.

(** *** [place_mines] as a whole *)

Section placement.

(** The permutation that this call of [random.shuffle] applies, and the
    click that triggers placement. *)
Context (shuffle : list pos → list pos) (Hshuffle : is_shuffle shuffle).
Context (b : Board) (c r : Z).

Lemma shuffled_inbounds :
  Forall (λ q, is_inbounds b q.1 q.2 = true) (shuffle (pool b c r)).
Proof.
  apply Forall_forall. intros q Hq. rewrite (Hshuffle _) in Hq.
  by apply elem_of_pool in Hq as [_ ?].
Qed.

Lemma shuffled_NoDup : NoDup (shuffle (pool b c r)).
Proof. rewrite (Hshuffle _). apply NoDup_pool. Qed.

Lemma shuffled_length : length (shuffle (pool b c r)) = length (pool b c r).
Proof. by rewrite (Hshuffle _). Qed.

Lemma chosen_not_forbidden (p : pos) :
  p ∈ chosen shuffle b c r → p ∉ forbidden b c r.
Proof.
  intros (i & Hi & _)%elem_of_take. apply list_elem_of_lookup_2 in Hi.
  rewrite (Hshuffle _) in Hi. by apply elem_of_pool in Hi as [? _].
Qed.

Lemma place_mines_spec :
  wf b → Forall (λ x, mine x = false) (cells b) →
  num_mines b ≤ Z.of_nat (length (pool b c r)) →
  ∃ b', place_mines shuffle b c r = Ok b' ∧ placed b (chosen shuffle b c r) b'.
Proof.
  intros Hwf Hfree Hn. unfold place_mines, chosen.
  pose proof shuffled_length as Hlen. pose proof shuffled_NoDup as Hnd.
  pose proof shuffled_inbounds as Hin.
  set (shuffled := shuffle (pool b c r)) in *.
  destruct (place_loop shuffled b (Z.to_nat (num_mines b))) as (b1 & Hb1 & Hmk);
    [done|done|done|done|lia|].
  rewrite range_of_nat, Hb1. simpl.
  pose proof (marked_wf _ _ _ Hmk Hwf) as Hwf1.
  destruct (adjacency_loop (positions (cols b) (rows b)) b1) as (b2 & -> & Hct & Hadj);
    [done| |].
  { apply Forall_forall. intros q Hq%is_inbounds_positions.
    by rewrite (marked_is_inbounds b b1 (take (Z.to_nat (num_mines b)) shuffled)). }
  simpl. eexists. split; [done|].
  destruct Hmk as [? ? ? ? ? ? ? Hcells Hmines Hcount].
  pose proof (λ q, counted_mine_at b1 b2 q Hct) as Hmine_at.
  destruct Hct as [? ? ? ? ? ? ? Hcells2 _].
  split; simpl; try congruence.
  - eapply Forall2_trans; [|done|].
    { intros ??? (?&?&?&?) (?&?&?&?). unfold placement_cell. split_and!; congruence. }
    eapply Forall2_impl; [done|]. by intros x y [? _].
  - intros p Hp. rewrite <- (Hmines p Hp), <- Hmine_at. done.
  - rewrite <- Hcount. symmetry. apply count_Forall2.
    eapply Forall2_impl; [done|]. by intros x y [_ ?].
  - intros p Hp%is_inbounds_positions.
    apply (proj1 (Forall_forall _ _) Hadj p Hp).
Qed.

(** With more mines asked for than the pool holds, the subscript
    [pool[i]] raises. *)
Lemma place_mines_overflow :
  wf b → Forall (λ x, mine x = false) (cells b) →
  Z.of_nat (length (pool b c r)) < num_mines b →
  place_mines shuffle b c r = IndexError.
Proof.
  intros Hwf Hfree Hn. unfold place_mines.
  pose proof shuffled_length as Hlen. pose proof shuffled_NoDup as Hnd.
  pose proof shuffled_inbounds as Hin.
  set (shuffled := shuffle (pool b c r)) in *.
  destruct (place_loop shuffled b (length shuffled)) as (b1 & Hb1 & Hmk);
    [done|done|done|done|lia|].
  replace (num_mines b) with
    (Z.of_nat (S (length shuffled)) + (num_mines b - Z.of_nat (S (length shuffled))))
    by lia.
  unfold range. rewrite seqZ_app by lia. fold (range (Z.of_nat (S (length shuffled)))).
  rewrite range_S, !foldM_app, Hb1. simpl.
  unfold place_one. rewrite py_index_overflow by lia. done.
Qed.

End placement.

(** ** Play: the boards that calls can produce *)

Lemma Forall_transfer {A} (R : A → A → Prop) (P Q : A → Prop) (l l' : list A) :
  Forall2 R l l' → (∀ x y, R x y → P x → Q y) → Forall P l → Forall Q l'.
Proof.
  intros HR Himp HP. eapply Forall2_Forall_r; [done|].
  eapply Forall_impl; [done|]. naive_solver.
Qed.

Lemma Board_init_inv (ncols nrows mines : Z) (b : Board) :
  Board_init ncols nrows mines = Ok b → inv b.
Proof.
  intros [= <-]. split; simpl; try done.
  - unfold wf. simpl. by rewrite length_fmap, length_positions.
  - intros _. split_and!; try done. apply Forall_fmap, Forall_forall. by intros p _.
  - rewrite count_none; [done|]. apply Forall_fmap, Forall_forall. by intros p _.
  - intros _. apply Forall_fmap, Forall_forall. by intros p _.
  - apply Forall_fmap, Forall_forall. by intros p _.
Qed.

(** ** [toggle_flag] *)

Lemma toggle_flag_spec (b : Board) (c r : Z) :
  wf b →
  ∃ b', toggle_flag b c r = Ok b' ∧
    (b' = b ∨
     ∃ x, is_inbounds b c r = true ∧ cells b !! slot b (c, r) = Some x ∧
          revealed x = false ∧
          b' = write (set_is_flagged (negb (flagged x))) (slot b (c, r)) b).
Proof.
  intros Hwf. unfold toggle_flag. destruct (is_inbounds b c r) eqn:Hin; simpl; [|eauto].
  destruct (lookup_slot b (c, r) Hwf Hin) as [x Hx].
  rewrite cell_ref_Ok by done. simpl. rewrite (deref_Ok _ _ _ Hx). simpl.
  destruct (is_revealed (state x)) eqn:Hr; [eauto|].
  eexists. split; [done|]. right. exists x. done.
Qed.

(** The same, read from the result of a call. *)
Lemma toggle_flag_cases (b : Board) (c r : Z) (b' : Board) :
  wf b → toggle_flag b c r = Ok b' →
  b' = b ∨
  ∃ x, is_inbounds b c r = true ∧ cells b !! slot b (c, r) = Some x ∧
       revealed x = false ∧
       b' = write (set_is_flagged (negb (flagged x))) (slot b (c, r)) b.
Proof.
  intros Hwf Hcall. destruct (toggle_flag_spec b c r Hwf) as (b1 & Hb1 & Hcase).
  by assert (b1 = b') as -> by congruence.
Qed.

Lemma toggle_flag_inv (b : Board) (c r : Z) (b' : Board) :
  inv b → toggle_flag b c r = Ok b' → inv b'.
Proof.
  intros Hinv Hcall.
  destruct (toggle_flag_cases _ _ _ _ (inv_wf _ Hinv) Hcall) as [->|(x & Hin & Hx & Hr & ->)]; [done|].
  set (k := slot b (c, r)) in *. set (f := set_is_flagged (negb (flagged x))).
  assert (Forall2 (λ x y, mine y = mine x ∧ revealed y = revealed x ∧
                          (revealed x = true → y = x)) (cells b) (alter f k (cells b)))
    as Hcells.
  { apply Forall2_alter_diag; [done|]. intros y Hy.
    assert (y = x) as -> by congruence. split_and!; [done|done|congruence]. }
  destruct Hinv as [Hwf Hfresh Hplaced Hcount Hhidden Hflags Hwin].
  split; simpl.
  - unfold wf in *. simpl. by rewrite length_alter.
  - intros Hmp. destruct (Hfresh Hmp) as (? & ? & ? & Hall). split_and!; try done.
    eapply Forall_transfer; [done| |done]. intros ?? (-> & -> & _). done.
  - intros Hmp. destruct (Hplaced Hmp) as (? & ? & <-). split_and!; try done.
    symmetry. apply count_Forall2. eapply Forall2_impl; [done|]. by intros ?? (-> & _).
  - rewrite Hcount. f_equal. apply count_Forall2. eapply Forall2_impl; [done|].
    intros ?? (Hm & Hre & _). unfold safe_revealed. by rewrite Hm, Hre.
  - intros Hgo. eapply Forall_transfer; [done| |by apply Hhidden].
    intros ?? (-> & -> & _). done.
  - eapply Forall_transfer; [done| |done]. simpl.
    intros y z (Hm & Hre & Hsame) Hy Hfl Hrev. rewrite Hre in Hrev.
    rewrite (Hsame Hrev) in *. by apply Hy.
  - intros Hw. eapply Forall_transfer; [done| |by apply Hwin].
    intros ?? (-> & -> & _). done.
Qed.

(** ** The paths of [reveal] *)

Lemma reveal_cases (shuffle : list pos → list pos) (b : Board) (c r : Z) (b' : Board) :
  wf b → reveal shuffle b c r = Ok b' →
  (b' = b ∧
   (is_inbounds b c r = false ∨ game_over b = true ∨
    ∃ x, cells b !! slot b (c, r) = Some x ∧ revealed x = true)) ∨
  ∃ x b1 x1,
    is_inbounds b c r = true ∧ game_over b = false ∧
    cells b !! slot b (c, r) = Some x ∧ revealed x = false ∧
    ready shuffle b c r b1 ∧ cells b1 !! slot b (c, r) = Some x1 ∧
    ((flagged x1 = true ∧ b' = b1) ∨
     (flagged x1 = false ∧ mine x1 = true ∧ b' = loss_board b1 (slot b (c, r))) ∨
     (flagged x1 = false ∧ mine x1 = false ∧
      ∃ b2, flood (flood_fuel b1) b1 [(c, r)] = Ok b2 ∧ b' = _check_win b2)).
Proof.
  intros Hwf. unfold reveal.
  destruct (is_inbounds b c r) eqn:Hin; simpl; [|intros [= <-]; left; eauto].
  destruct (game_over b) eqn:Hgo; simpl; [intros [= <-]; left; eauto|].
  destruct (lookup_slot b (c, r) Hwf Hin) as [x Hx].
  rewrite cell_ref_Ok by done. simpl. rewrite (deref_Ok _ _ _ Hx). simpl.
  destruct (is_revealed (state x)) eqn:Hr; [intros [= <-]; left; eauto 6|].
  intros (b1 & Hb1 & Hrest)%rbind_Ok.
  apply rbind_Ok in Hrest as (st1 & Hst1 & Hrest).
  apply deref_inv in Hst1 as (x1 & Hx1 & <-).
  right. exists x, b1, x1. split_and!; try done.
  { unfold ready. destruct (_mines_placed b); simpl in Hb1; [left|right]; split; congruence. }
  destruct (is_flagged (state x1)) eqn:Hf; [left; split; [done|congruence]|right].
  destruct (is_mine (state x1)) eqn:Hm; [left; split_and!; [done|done|by injection Hrest as <-]|right].
  apply rbind_Ok in Hrest as (b2 & Hb2 & [= <-]). split_and!; [done|done|]. by exists b2.
Qed.

(** *** After placement *)

Lemma placed_inv (b : Board) (ps : list pos) (b' : Board) (c r : Z) :
  inv b → _mines_placed b = false → is_inbounds b c r = true →
  placed b ps b' → length ps = Z.to_nat (num_mines b) → inv b'.
Proof.
  intros [Hwf Hfresh _ Hcount _ _ _] Hmp [Hc Hr]%is_inbounds_spec Hpl Hlen.
  destruct (Hfresh Hmp) as (Hrc & Hgo & Hw & Hall).
  destruct Hpl as [Hcols Hrows Hnm Hrc' Hgo' Hw' Hmp' Hcells Hmines Hcnt Hadj].
  assert (Forall (λ y, revealed y = false) (cells b')) as Hnone.
  { eapply Forall_transfer; [done| |done]. intros x y (_ & _ & -> & _) [_ ?]. done. }
  split.
  - unfold wf in *. erewrite <- Forall2_length by done. congruence.
  - congruence.
  - intros _. split_and!; [lia|lia|congruence].
  - rewrite Hrc', Hrc, count_none; [done|].
    eapply Forall_impl; [done|]. intros y Hy. unfold safe_revealed. by rewrite Hy.
  - intros _. eapply Forall_impl; [done|]. intros y Hy. by rewrite Hy.
  - eapply Forall_impl; [done|]. intros y Hy. by rewrite Hy.
  - congruence.
Qed.

Lemma place_mines_Ok (shuffle : list pos → list pos) (b : Board) (c r : Z) (b1 : Board) :
  inv b → _mines_placed b = false → is_shuffle shuffle →
  place_mines shuffle b c r = Ok b1 →
  num_mines b ≤ Z.of_nat (length (pool b c r)) ∧ placed b (chosen shuffle b c r) b1 ∧
  length (chosen shuffle b c r) = Z.to_nat (num_mines b).
Proof.
  intros Hinv Hmp Hsh Hcall.
  destruct (inv_fresh _ Hinv Hmp) as (_ & _ & _ & Hall).
  assert (Forall (λ x, mine x = false) (cells b)) as Hfree.
  { eapply Forall_impl; [done|]. by intros x [? _]. }
  destruct (Z.le_gt_cases (num_mines b) (Z.of_nat (length (pool b c r)))) as [Hle|Hgt].
  - destruct (place_mines_spec shuffle Hsh b c r (inv_wf _ Hinv) Hfree Hle)
      as (b1' & Hb1' & Hpl).
    assert (b1' = b1) as -> by congruence. split_and!; [done|done|].
    unfold chosen. rewrite length_take_le; [done|]. rewrite (Hsh _). lia.
  - rewrite (place_mines_overflow shuffle Hsh b c r (inv_wf _ Hinv) Hfree Hgt) in Hcall.
    done.
Qed.

Lemma ready_inv (shuffle : list pos → list pos) (b : Board) (c r : Z) (b1 : Board) :
  inv b → is_shuffle shuffle → is_inbounds b c r = true → ready shuffle b c r b1 →
  inv b1 ∧ _mines_placed b1 = true ∧ cols b1 = cols b ∧ rows b1 = rows b ∧
  game_over b1 = game_over b.
Proof.
  intros Hinv Hsh Hin [[Hmp ->]|[Hmp Hcall]]; [done|].
  destruct (place_mines_Ok _ _ _ _ _ Hinv Hmp Hsh Hcall) as (_ & Hpl & Hlen).
  split; [by eapply placed_inv|]. by destruct Hpl.
Qed.

(** *** The loss path *)

Lemma loss_board_cells (b1 : Board) (k : nat) (x1 : Cell) :
  cells b1 !! k = Some x1 → mine x1 = true →
  Forall2 loss_cell (cells b1) (cells (loss_board b1 k)).
Proof.
  intros Hx1 Hm. unfold loss_board, _reveal_all_mines. simpl.
  eapply Forall2_trans; [|apply (Forall2_alter_diag loss_cell (set_is_revealed true) _ k)|].
  - intros x y z [->|[-> Hx]] [->|[-> Hy]]; [by left|by right|by right|by right].
  - by left.
  - intros y Hy. assert (y = x1) as -> by congruence. by right.
  - apply Forall2_fmap_diag. intros y. destruct (is_mine (state y)) eqn:E; [by right|by left].
Qed.

Lemma loss_board_inv (b1 : Board) (k : nat) (x1 : Cell) :
  inv b1 → _mines_placed b1 = true → cells b1 !! k = Some x1 → mine x1 = true →
  inv (loss_board b1 k).
Proof.
  intros [Hwf _ Hplaced Hcount _ Hflags Hwin] Hmp Hx1 Hm.
  pose proof (loss_board_cells b1 k x1 Hx1 Hm) as Hcells.
  destruct (Hplaced Hmp) as (Hc & Hr & Hcnt).
  split.
  - unfold wf in *. erewrite <- Forall2_length by done. done.
  - simpl. congruence.
  - intros _. split_and!; [done|done|].
    change (num_mines (loss_board b1 k)) with (num_mines b1).
    rewrite <- Hcnt. symmetry. apply count_Forall2.
    eapply Forall2_impl; [done|]. by intros x y [->|[-> _]].
  - change (revealed_count (loss_board b1 k)) with (revealed_count b1).
    rewrite Hcount. f_equal. apply count_Forall2.
    eapply Forall2_impl; [done|]. intros x y [->|[-> Hx]]; [done|].
    unfold safe_revealed, mine in *. simpl. rewrite Hx. by rewrite !andb_false_r.
  - done.
  - eapply Forall_transfer; [done| |done]. intros x y [->|[-> Hx]] Hy; [done|]. done.
  - intros Hw. eapply Forall_transfer; [done| |by apply Hwin].
    intros x y [->|[-> Hx]] Hy; [done|]. done.
Qed.

(** *** The cascade and the win test *)

Lemma cascade_inv (b1 b2 : Board) :
  inv b1 → _mines_placed b1 = true → cascade b1 b2 → inv b2.
Proof.
  intros [Hwf _ Hplaced Hcount Hhidden Hflags Hwin] Hmp Hcas.
  pose proof (cascade_wf _ _ Hcas Hwf) as Hwf2.
  destruct Hcas as [Hcols Hrows Hnm Hmp' Hgo Hw Hcells Hcnt].
  destruct (Hplaced Hmp) as (Hc & Hr & Hmines).
  split.
  - done.
  - congruence.
  - intros _. split_and!; [lia|lia|]. rewrite Hnm, <- Hmines. symmetry.
    apply count_Forall2. eapply Forall2_impl; [done|]. intros x y Hxy.
    symmetry. by apply cascade_mine.
  - lia.
  - rewrite Hgo. intros Hgo1. eapply Forall_transfer; [done| |by apply Hhidden].
    intros x y [->|(-> & _ & Hm & _)] Hx; [done|]. done.
  - eapply Forall_transfer; [done| |done].
    intros x y [->|(-> & _ & _ & Hf)] Hx; [done|]. unfold flagged in *. simpl. congruence.
  - rewrite Hw. intros Hw1. eapply Forall_transfer; [done| |by apply Hwin].
    intros x y [->|(-> & _)] Hx; [done|]. done.
Qed.

(** When the counter reaches [cols*rows - num_mines], every cell that is
    no mine is revealed. *)
Lemma full_count_all_revealed (b : Board) :
  inv b → _mines_placed b = true →
  revealed_count b = cols b * rows b - num_mines b →
  Forall (λ x, mine x = false → revealed x = true) (cells b).
Proof.
  intros [Hwf _ Hplaced Hcount _ _ _] Hmp Hfull.
  destruct (Hplaced Hmp) as (Hc & Hr & Hmines). unfold wf in Hwf.
  pose proof (count_not mine (cells b)) as Hsplit.
  assert (∀ x, safe_revealed x = true → negb (mine x) = true) as Hsub.
  { intros x. unfold safe_revealed. by intros [_ ?]%andb_true_iff. }
  pose proof (count_full safe_revealed (λ x, negb (mine x)) (cells b) Hsub) as Hall.
  assert (count safe_revealed (cells b) ≤ count (λ x, negb (mine x)) (cells b))%nat.
  { clear. induction (cells b) as [|x l IH]; [done|]. rewrite !count_cons.
    unfold safe_revealed at 1. destruct (revealed x), (mine x); simpl; lia. }
  eapply Forall_impl; [apply Hall; nia|]. simpl.
  intros x Hx Hm. rewrite Hm in Hx. specialize (Hx eq_refl).
  unfold safe_revealed in Hx. by apply andb_true_iff in Hx as [? _].
Qed.

Lemma check_win_spec (b : Board) :
  inv b → _mines_placed b = true →
  _check_win b =
  if (revealed_count b =? cols b * rows b - num_mines b) && negb (game_over b)
  then with_win true b else b.
Proof.
  intros Hinv Hmp. unfold _check_win.
  destruct ((revealed_count b =? cols b * rows b - num_mines b) && negb (game_over b))
    eqn:E; [|done].
  apply andb_true_iff in E as [Hfull%Z.eqb_eq _].
  pose proof (full_count_all_revealed b Hinv Hmp Hfull) as Hall.
  unfold with_cells, with_win. simpl. f_equal.
  rewrite <- (list_fmap_id (cells b)) at 2. apply list_fmap_ext.
  intros i x Hx. pose proof (Forall_lookup_1 _ _ _ _ Hall Hx) as Hx'. simpl in *.
  destruct (is_revealed (state x)) eqn:Hr; [done|].
  destruct (is_mine (state x)) eqn:Hm; [done|]. unfold mine, revealed in Hx'.
  rewrite Hm, Hr in Hx'. by specialize (Hx' eq_refl).
Qed.

Lemma check_win_inv (b : Board) : inv b → _mines_placed b = true → inv (_check_win b).
Proof.
  intros Hinv Hmp. rewrite check_win_spec by done.
  destruct ((revealed_count b =? cols b * rows b - num_mines b) && negb (game_over b))
    eqn:E; [|done].
  apply andb_true_iff in E as [Hfull%Z.eqb_eq _].
  pose proof (full_count_all_revealed b Hinv Hmp Hfull) as Hall.
  destruct Hinv. split; simpl; try done. congruence.
Qed.

(** ** The invariant holds on every reachable board *)

Lemma reveal_inv (shuffle : list pos → list pos) (b : Board) (c r : Z) (b' : Board) :
  inv b → is_shuffle shuffle → reveal shuffle b c r = Ok b' → inv b'.
Proof.
  intros Hinv Hsh Hcall.
  destruct (reveal_cases _ _ _ _ _ (inv_wf _ Hinv) Hcall)
    as [[-> _]|(x & b1 & x1 & Hin & Hgo & Hx & Hr & Hready & Hx1 & Hpath)]; [done|].
  destruct (ready_inv _ _ _ _ _ Hinv Hsh Hin Hready) as (Hinv1 & Hmp1 & Hcols & Hrows & Hgo1).
  destruct Hpath as [[_ ->]|[(_ & Hm & ->)|(_ & Hm & b2 & Hflood & ->)]].
  - done.
  - by eapply loss_board_inv.
  - assert (safe_pos b1 (c, r)) as Hsafe.
    { split; [unfold is_inbounds in *; by rewrite Hcols, Hrows|].
      exists x1. split; [|done]. unfold slot, index in *. by rewrite Hcols. }
    destruct (flood_from_click b1 c r (inv_wf _ Hinv1) Hsafe) as (b2' & Hb2' & Hcas).
    assert (b2' = b2) as -> by congruence.
    apply check_win_inv; [by eapply cascade_inv|]. by rewrite (cas_mines_placed _ _ Hcas).
Qed.

Lemma reachable_inv (b : Board) : reachable b → inv b.
Proof.
  induction 1; eauto using Board_init_inv, reveal_inv, toggle_flag_inv.
Qed.

(** ** Calls that return *)

Lemma mine_at_preserved (b b' : Board) (p : pos) :
  cols b' = cols b → Forall2 (λ x y, mine y = mine x) (cells b) (cells b') →
  mine_at b' p = mine_at b p.
Proof.
  intros Hcols Hcells. unfold mine_at, slot, index. rewrite Hcols.
  destruct (cells b !! Z.to_nat (p.2 * cols b + p.1)) as [x|] eqn:E.
  - by destruct (Forall2_lookup_l _ _ _ _ _ Hcells E) as (y & -> & Hm).
  - apply lookup_ge_None in E. erewrite Forall2_length in E by done.
    apply lookup_ge_None in E. by rewrite E.
Qed.

Lemma mine_at_lookup (b : Board) (p : pos) :
  wf b → is_inbounds b p.1 p.2 = true → mine_at b p = false →
  ∃ x, cells b !! slot b p = Some x ∧ is_mine (state x) = false.
Proof.
  intros Hwf Hin Hm. destruct (lookup_slot b p Hwf Hin) as [x Hx].
  exists x. split; [done|]. unfold mine_at in Hm. by rewrite Hx in Hm.
Qed.

Lemma check_win_mine_at (b : Board) (p : pos) : mine_at (_check_win b) p = mine_at b p.
Proof.
  unfold _check_win. case_match; [|done]. apply mine_at_preserved; [done|].
  simpl. apply Forall2_fmap_diag. intros x. by case_match.
Qed.

Lemma cascade_mine_at (b b' : Board) (p : pos) :
  cascade b b' → mine_at b' p = mine_at b p.
Proof.
  intros Hcas. apply mine_at_preserved; [by destruct Hcas|].
  eapply Forall2_impl; [apply (cas_cells _ _ Hcas)|]. intros x y. apply cascade_mine.
Qed.

(** [reveal] once it is past its first two tests. *)
Lemma reveal_unrevealed (shuffle : list pos → list pos) (b : Board) (c r : Z) (x : Cell) :
  wf b → is_inbounds b c r = true → game_over b = false →
  cells b !! slot b (c, r) = Some x → revealed x = false →
  reveal shuffle b c r =
  (do b1 <- (if negb (_mines_placed b) then place_mines shuffle b c r else Ok b);
   do cell1 <- deref b1 (slot b (c, r));
   if is_flagged cell1 then Ok b1
   else if is_mine cell1 then Ok (loss_board b1 (slot b (c, r)))
   else do b2 <- flood (flood_fuel b1) b1 [(c, r)]; Ok (_check_win b2)).
Proof.
  intros Hwf Hin Hgo Hx Hr. unfold reveal. rewrite Hin, Hgo. simpl.
  rewrite cell_ref_Ok by done. simpl. rewrite (deref_Ok _ _ _ Hx). simpl.
  unfold revealed in Hr. by rewrite Hr.
Qed.

(** The first call of [reveal] that reaches placement returns when the
    pool is large enough, and leaves the safe zone free of mines. *)
Lemma first_reveal (shuffle : list pos → list pos) (b : Board) (c r : Z) :
  inv b → _mines_placed b = false → is_shuffle shuffle → is_inbounds b c r = true →
  num_mines b ≤ cols b * rows b - Z.of_nat (length (forbidden b c r)) →
  ∃ b1 x1 b',
    placed b (chosen shuffle b c r) b1 ∧ cells b1 !! slot b (c, r) = Some x1 ∧
    mine x1 = false ∧ reveal shuffle b c r = Ok b' ∧
    ((flagged x1 = true ∧ b' = b1) ∨ (flagged x1 = false ∧ ∃ b2, cascade b1 b2 ∧ b' = _check_win b2)).
Proof.
  intros Hinv Hmp Hsh Hin Hn. pose proof (inv_wf _ Hinv) as Hwf.
  destruct (inv_fresh _ Hinv Hmp) as (_ & Hgo & _ & Hall).
  destruct (lookup_slot b (c, r) Hwf Hin) as [x Hx].
  assert (revealed x = false) as Hr by (by apply (Forall_lookup_1 _ _ _ _ Hall) in Hx as [_ ?]).
  assert (Forall (λ x, mine x = false) (cells b)) as Hfree.
  { eapply Forall_impl; [done|]. by intros y [? _]. }
  destruct (place_mines_spec shuffle Hsh b c r Hwf Hfree) as (b1 & Hb1 & Hpl).
  { rewrite length_pool by done. done. }
  destruct (Forall2_lookup_l _ _ _ _ _ (pl_cells _ _ _ Hpl) Hx) as (x1 & Hx1 & _).
  assert (slot b1 (c, r) = slot b (c, r)) as Hslot
    by (unfold slot, index; by rewrite (pl_cols _ _ _ Hpl)).
  assert (mine x1 = false) as Hm1.
  { destruct (mine x1) eqn:E; [|done]. exfalso.
    apply (chosen_not_forbidden shuffle Hsh b c r (c, r)); [|by left].
    apply (pl_mines _ _ _ Hpl (c, r) Hin). unfold mine_at. by rewrite Hslot, Hx1. }
  rewrite (reveal_unrevealed shuffle b c r x) by done.
  rewrite Hmp. simpl. rewrite Hb1. simpl. rewrite (deref_Ok _ _ _ Hx1). simpl.
  unfold mine in Hm1. rewrite Hm1.
  destruct (is_flagged (state x1)) eqn:Hf.
  { exists b1, x1, b1. split_and!; try done. by left. }
  assert (wf b1) as Hwf1.
  { unfold wf in *. rewrite <- (Forall2_length _ _ _ (pl_cells _ _ _ Hpl)).
    by rewrite (pl_cols _ _ _ Hpl), (pl_rows _ _ _ Hpl). }
  destruct (flood_from_click b1 c r Hwf1) as (b2 & -> & Hcas).
  { split; [unfold is_inbounds in *; by rewrite (pl_cols _ _ _ Hpl), (pl_rows _ _ _ Hpl)|].
    exists x1. by rewrite Hslot. }
  simpl. exists b1, x1, (_check_win b2). split_and!; try done. right. split; [done|eauto].
Qed.

Lemma ready_frame (shuffle : list pos → list pos) (b : Board) (c r : Z) (b1 : Board) :
  inv b → is_shuffle shuffle → ready shuffle b c r b1 →
  win b1 = win b ∧ revealed_count b1 = revealed_count b ∧ num_mines b1 = num_mines b ∧
  Forall2 placement_cell (cells b) (cells b1).
Proof.
  intros Hinv Hsh [[Hmp ->]|[Hmp Hcall]].
  - split_and!; try done. by apply Forall2_diag.
  - destruct (place_mines_Ok _ _ _ _ _ Hinv Hmp Hsh Hcall) as (_ & Hpl & _).
    by destruct Hpl.
Qed.

Lemma ready_safe_pos (shuffle : list pos → list pos) (b : Board) (c r : Z)
    (b1 : Board) (x1 : Cell) :
  inv b → is_shuffle shuffle → is_inbounds b c r = true → ready shuffle b c r b1 →
  cells b1 !! slot b (c, r) = Some x1 → mine x1 = false → safe_pos b1 (c, r).
Proof.
  intros Hinv Hsh Hin Hready Hx1 Hm.
  destruct (ready_inv _ _ _ _ _ Hinv Hsh Hin Hready) as (_ & _ & Hcols & Hrows & _).
  split; [unfold is_inbounds in *; by rewrite Hcols, Hrows|].
  exists x1. split; [|done]. unfold slot, index in *. by rewrite Hcols.
Qed.

Lemma check_win_frame (b : Board) :
  cols (_check_win b) = cols b ∧ rows (_check_win b) = rows b ∧
  num_mines (_check_win b) = num_mines b ∧
  revealed_count (_check_win b) = revealed_count b ∧
  game_over (_check_win b) = game_over b.
Proof. unfold _check_win. by case_match. Qed.

Lemma count_ext (P Q : Cell → bool) (l : list Cell) :
  Forall (λ x, P x = Q x) l → count P l = count Q l.
Proof. intros H. apply count_Forall2. by apply Forall_Forall2_diag. Qed.

(** ** Concrete rounds *)

Lemma keep_order_shuffle : is_shuffle keep_order.
Proof. by intros l. Qed.

Lemma row10_reachable : reachable row10.
Proof. by apply (reach_init 10 1 1). Qed.

Lemma row10_open_reachable : reachable row10_open.
Proof.
  apply (reach_reveal keep_order row10 0 0);
    [apply row10_reachable|apply keep_order_shuffle|by vm_compute].
Qed.

Lemma row10_lost_reachable : reachable row10_lost.
Proof.
  apply (reach_reveal keep_order row10_open 2 0);
    [apply row10_open_reachable|apply keep_order_shuffle|by vm_compute].
Qed.

Lemma row10_won_reachable : reachable row10_won.
Proof.
  apply (reach_reveal keep_order row10_open 9 0);
    [apply row10_open_reachable|apply keep_order_shuffle|by vm_compute].
Qed.

Lemma row10_won_lost_reachable : reachable row10_won_lost.
Proof.
  apply (reach_reveal keep_order row10_won 2 0);
    [apply row10_won_reachable|apply keep_order_shuffle|by vm_compute].
Qed.

Lemma row10_flag_reachable : reachable row10_flag.
Proof. apply (reach_toggle_flag row10 0 0); [apply row10_reachable|by vm_compute]. Qed.

Lemma row11_lost_reachable : reachable row11_lost.
Proof.
  apply (reach_reveal keep_order row11_open 3 0); [|apply keep_order_shuffle|by vm_compute].
  apply (reach_reveal keep_order row11_flag 0 0); [|apply keep_order_shuffle|by vm_compute].
  apply (reach_toggle_flag row11 2 0); [|by vm_compute].
  by apply (reach_init 11 1 2).
Qed.

Lemma square3_flag_reachable : reachable square3_flag.
Proof.
  apply (reach_toggle_flag square3 1 1); [|by vm_compute]. by apply (reach_init 3 3 1).
Qed.

(** ** Termination: what a call of [reveal] ends with *)

(** Once mines are placed, outside the grid, or with a pool that can take
    the mines, [reveal] returns. *)
Lemma reveal_returns (shuffle : list pos → list pos) (b : Board) (c r : Z) :
  reachable b → is_shuffle shuffle →
  _mines_placed b = true ∨ is_inbounds b c r = false ∨
  num_mines b ≤ cols b * rows b - Z.of_nat (length ((c, r) :: neighbors b c r)) →
  ∃ b', reveal shuffle b c r = Ok b'.
Proof.
  intros Hinv%reachable_inv Hsh Hcase. pose proof (inv_wf _ Hinv) as Hwf.
  destruct (is_inbounds b c r) eqn:Hin; [|exists b; unfold reveal; by rewrite Hin].
  destruct (game_over b) eqn:Hgo;
    [exists b; unfold reveal; by rewrite Hgo, orb_true_r|].
  destruct (lookup_slot b (c, r) Hwf Hin) as [x Hx].
  destruct (revealed x) eqn:Hr.
  { exists b. unfold reveal. rewrite Hin, Hgo. simpl. rewrite cell_ref_Ok by done.
    simpl. rewrite (deref_Ok _ _ _ Hx). simpl. unfold revealed in Hr. by rewrite Hr. }
  destruct (_mines_placed b) eqn:Hmp.
  - rewrite (reveal_unrevealed shuffle b c r x) by done. rewrite Hmp. simpl.
    rewrite (deref_Ok _ _ _ Hx). simpl.
    destruct (is_flagged (state x)); [eauto|]. destruct (is_mine (state x)) eqn:Hm; [eauto|].
    destruct (flood_from_click b c r Hwf) as (b2 & -> & _); [|simpl; eauto].
    split; [done|]. by exists x.
  - destruct Hcase as [?|[?|Hn]]; [done|done|].
    destruct (first_reveal shuffle b c r Hinv Hmp Hsh Hin Hn)
      as (_ & _ & b' & _ & _ & _ & Hcall & _). eauto.
Qed.

(** Otherwise, that is on the first click that reaches placement when
    the pool is too small, it raises [IndexError]. *)
Lemma reveal_raises (shuffle : list pos → list pos) (b : Board) (c r : Z) :
  reachable b → is_shuffle shuffle →
  _mines_placed b = false → is_inbounds b c r = true →
  cols b * rows b - Z.of_nat (length ((c, r) :: neighbors b c r)) < num_mines b →
  reveal shuffle b c r = IndexError.
Proof.
  intros Hinv%reachable_inv Hsh Hmp Hin Hn. pose proof (inv_wf _ Hinv) as Hwf.
  destruct (inv_fresh _ Hinv Hmp) as (_ & Hgo & _ & Hall).
  destruct (lookup_slot b (c, r) Hwf Hin) as [x Hx].
  assert (revealed x = false) as Hr by (by apply (Forall_lookup_1 _ _ _ _ Hall) in Hx as [_ ?]).
  rewrite (reveal_unrevealed shuffle b c r x) by done. rewrite Hmp. simpl.
  rewrite place_mines_overflow; [done|done|done| |].
  - eapply Forall_impl; [done|]. by intros y [? _].
  - rewrite length_pool by done. done.
Qed.

(** The fuel given to the loop of [reveal] is never used up. *)
Lemma reveal_fuel_suffices (shuffle : list pos → list pos) (b : Board) (c r : Z) :
  reachable b → is_shuffle shuffle → reveal shuffle b c r ≠ OutOfFuel.
Proof.
  intros Hreach Hsh.
  destruct (_mines_placed b) eqn:Hmp.
  { destruct (reveal_returns shuffle b c r Hreach Hsh) as [b' ->]; [by left|done]. }
  destruct (is_inbounds b c r) eqn:Hin.
  2:{ destruct (reveal_returns shuffle b c r Hreach Hsh) as [b' ->]; [by right; left|done]. }
  destruct (Z.le_gt_cases (num_mines b)
              (cols b * rows b - Z.of_nat (length ((c, r) :: neighbors b c r)))) as [Hle|Hgt].
  - destruct (reveal_returns shuffle b c r Hreach Hsh) as [b' ->]; [by right; right|done].
  - by rewrite reveal_raises.
Qed.

Lemma toggle_flag_returns (b : Board) (c r : Z) :
  reachable b → ∃ b', toggle_flag b c r = Ok b'.
Proof.
  intros Hinv%reachable_inv.
  destruct (toggle_flag_spec b c r (inv_wf _ Hinv)) as (b' & Hb' & _). eauto.
Qed.

(** ** The win test on reachable boards *)

(** Once mines are placed the counter cannot be full without [win]: it
    changes only in the cascade, and [_check_win] follows every cascade. *)
Lemma full_count_wins (b : Board) :
  reachable b → _mines_placed b = true → game_over b = false →
  revealed_count b = cols b * rows b - num_mines b → win b = true.
Proof.
  induction 1 as [ncols nrows mines b Hb|shuffle b c r b' Hreach IH Hsh Hcall
                 |b c r b' Hreach IH Hcall].
  - by injection Hb as <-.
  - pose proof (reachable_inv _ Hreach) as Hinv. intros Hmp' Hgo' Hfull.
    destruct (reveal_cases _ _ _ _ _ (inv_wf _ Hinv) Hcall)
      as [[-> _]|(x & b1 & x1 & Hin & Hgo & Hx & Hr & Hready & Hx1 & Hpath)]; [auto|].
    destruct (ready_inv _ _ _ _ _ Hinv Hsh Hin Hready) as (Hinv1 & Hmp1 & _ & _ & Hgo1).
    destruct Hpath as [[_ ->]|[(_ & _ & ->)|(_ & Hm & b2 & Hflood & ->)]].
    + destruct Hready as [[Hmp ->]|[Hmp Hplace]]; [auto|]. exfalso.
      destruct (place_mines_Ok _ _ _ _ _ Hinv Hmp Hsh Hplace) as (Hn & Hpl & _).
      destruct (inv_fresh _ Hinv Hmp) as (Hrc & _).
      rewrite length_pool in Hn by done. simpl in Hn.
      destruct Hpl as [Hc Hrw Hnm Hrc' _ _ _ _ _ _ _].
      rewrite Hc, Hrw, Hnm, Hrc', Hrc in Hfull. lia.
    + done.
    + pose proof (ready_safe_pos _ _ _ _ _ _ Hinv Hsh Hin Hready Hx1 Hm) as Hsafe.
      destruct (flood_from_click b1 c r (inv_wf _ Hinv1) Hsafe) as (b2' & Hb2' & Hcas).
      assert (b2' = b2) as -> by congruence.
      assert (_mines_placed b2 = true) as Hmp2 by (by rewrite (cas_mines_placed _ _ Hcas)).
      pose proof (cascade_inv _ _ Hinv1 Hmp1 Hcas) as Hinv2.
      destruct (check_win_frame b2) as (Hc & Hrw & Hn & Hrc & Hgo2).
      rewrite Hc, Hrw, Hn, Hrc in Hfull. rewrite Hgo2 in Hgo'.
      rewrite check_win_spec by done.
      by rewrite (proj2 (Z.eqb_eq _ _) Hfull), Hgo'.
  - pose proof (reachable_inv _ Hreach) as Hinv.
    by destruct (toggle_flag_cases _ _ _ _ (inv_wf _ Hinv) Hcall) as [->|(x & _ & _ & _ & ->)].
Qed.

(** ** Calls that raise, and the boards that they leave *)

Lemma foldM_state_Ok {A B} (f : B → A → result B) (l : list A) (acc b' : B) :
  foldM f l acc = Ok b' → foldM_state f l acc = b'.
Proof.
  revert acc. induction l as [|x l IH]; intros acc; simpl; [congruence|].
  destruct (f acc x); simpl; [apply IH|done|done].
Qed.

(** A loop that raises in the round after those of [l1] stops with the
    state that the rounds of [l1] have built. *)
Lemma foldM_state_stop {A B} (f : B → A → result B) (l1 l2 : list A) (x : A) (acc b1 : B) :
  foldM f l1 acc = Ok b1 → f b1 x = IndexError →
  foldM f (l1 ++ x :: l2) acc = IndexError ∧ foldM_state f (l1 ++ x :: l2) acc = b1.
Proof.
  revert acc. induction l1 as [|y l1 IH]; intros acc; simpl.
  - intros [= ->] Hx. by rewrite Hx.
  - destruct (f acc y); simpl; [apply IH|done|done].
Qed.

Lemma laid_wf (b b' : Board) (ps : list pos) : laid b ps b' → wf b → wf b'.
Proof.
  intros [] Hwf. unfold wf in *. erewrite <- Forall2_length by done. congruence.
Qed.

Lemma laid_is_inbounds (b b' : Board) (ps : list pos) (c r : Z) :
  laid b ps b' → is_inbounds b' c r = is_inbounds b c r.
Proof. intros []. unfold is_inbounds. congruence. Qed.

(** The first [m] rounds of [for i in range(self.num_mines)] on any board
    of the right shape, when the shuffled pool has at least [m]
    entries. *)
Lemma place_loop_any (shuffled : list pos) (b : Board) (m : nat) :
  wf b → Forall (λ q, is_inbounds b q.1 q.2 = true) shuffled →
  (m ≤ length shuffled)%nat →
  ∃ b', foldM (place_one shuffled) (range (Z.of_nat m)) b = Ok b' ∧
        laid b (take m shuffled) b'.
Proof.
  intros Hwf Hin. induction m as [|m IH]; intros Hm.
  { exists b. split; [done|]. split; try done.
    - apply Forall2_diag. by intros x.
    - intros p _. rewrite elem_of_nil. tauto. }
  destruct IH as (b1 & Hb1 & Hld); [lia|].
  destruct (lookup_lt_is_Some_2 shuffled m) as [p Hp]; [lia|].
  assert (is_inbounds b p.1 p.2 = true) as Hpin
    by (eapply (Forall_lookup_1 _ _ _ _ Hin); done).
  pose proof (laid_wf _ _ _ Hld Hwf) as Hwf1.
  assert (is_inbounds b1 p.1 p.2 = true) as Hpin1
    by (by rewrite (laid_is_inbounds b b1 (take m shuffled))).
  destruct (lookup_slot b1 p Hwf1 Hpin1) as [x Hx].
  rewrite range_S, foldM_app, Hb1. simpl.
  unfold place_one. rewrite (py_index_Ok _ _ _ Hp). simpl.
  rewrite cell_ref_Ok by done. simpl. eexists. split; [done|].
  rewrite (take_S_r _ _ _ Hp).
  destruct Hld as [Hcols Hrows ? ? ? ? ? Hcells Hmines].
  replace (slot b1 (p.1, p.2)) with (slot b1 p) by (by destruct p).
  split; simpl; try done.
  - eapply Forall2_trans; [|done|].
    { intros ??? [(?&?&?&?) ?] [(?&?&?&?) ?]. unfold placement_cell.
      split_and!; congruence. }
    apply Forall2_alter_diag; [done|]. intros y _. done.
  - intros q Hq. rewrite elem_of_app, list_elem_of_singleton.
    trans ((mine_at b q = true ∨ q ∈ take m shuffled) ∨ q = p); [|tauto].
    rewrite <- (Hmines q Hq). unfold mine_at. simpl.
    assert (slot (write (set_is_mine true) (slot b1 p) b1) q = slot b1 q) as -> by done.
    rewrite list_lookup_alter. case_decide as Hs.
    + assert (p = q) as ->.
      { apply (slot_inj b1); [done| |done].
        unfold is_inbounds in *. by rewrite Hcols, Hrows. }
      rewrite Hx. simpl. split; [by right|done].
    + assert (q ≠ p) as Hne by (by intros ->).
      destruct (cells b1 !! slot b1 q) as [y|]; (split; [by left|by intros [Hy|Hy]]).
Qed.

(** As many cells are mines as there are distinct positions with a
    mine. *)
Lemma count_mine_ge (ps : list pos) :
  ∀ b, wf b → NoDup ps →
       Forall (λ p, is_inbounds b p.1 p.2 = true ∧ mine_at b p = true) ps →
       (length ps ≤ count mine (cells b))%nat.
Proof.
  induction ps as [|p ps IH]; intros b Hwf Hnd Hall; simpl; [lia|].
  apply NoDup_cons in Hnd as [Hp Hnd]. apply Forall_cons in Hall as [[Hpin Hpm] Hall].
  destruct (lookup_slot b p Hwf Hpin) as [x Hx].
  assert (mine x = true) as Hxm by (unfold mine_at in Hpm; by rewrite Hx in Hpm).
  set (b' := write (set_is_mine false) (slot b p) b).
  assert (length ps ≤ count mine (cells b'))%nat as Hle.
  { apply IH; [unfold wf in *; simpl; by rewrite length_alter|done|].
    apply Forall_forall. intros q Hq.
    destruct (proj1 (Forall_forall _ _) Hall q Hq) as [Hqin Hqm].
    split; [done|]. unfold mine_at in *. simpl.
    assert (slot b' q = slot b q) as -> by done.
    rewrite list_lookup_alter_ne; [done|].
    intros Heq. apply Hp. by rewrite (slot_inj b p q Hpin Hqin Heq). }
  pose proof (count_alter mine (set_is_mine false) _ _ _ Hx) as Hc.
  rewrite Hxm in Hc. unfold mine at 3 in Hc. simpl in Hc. simpl in Hle. lia.
Qed.

(** [place_mines] on any board of the right shape: with a pool that can
    take the mines it returns, and the board has the mines it had and
    those of [chosen]; with a smaller pool it raises, and leaves a board on
    which the whole pool is mined. *)
Lemma place_mines_any (shuffle : list pos → list pos) (b : Board) (c r : Z) :
  is_shuffle shuffle → wf b → is_inbounds b c r = true →
  (num_mines b ≤ cols b * rows b - Z.of_nat (length (forbidden b c r)) →
   ∃ b1, place_mines shuffle b c r = Ok b1 ∧
         cols b1 = cols b ∧ rows b1 = rows b ∧ num_mines b1 = num_mines b ∧
         revealed_count b1 = revealed_count b ∧ game_over b1 = game_over b ∧
         win b1 = win b ∧ _mines_placed b1 = true ∧
         Forall2 placement_cell (cells b) (cells b1) ∧
         (∀ p, is_inbounds b p.1 p.2 = true →
               (mine_at b1 p = true ↔ mine_at b p = true ∨ p ∈ chosen shuffle b c r)) ∧
         (Z.to_nat (num_mines b) ≤ count mine (cells b1))%nat) ∧
  (cols b * rows b - Z.of_nat (length (forbidden b c r)) < num_mines b →
   place_mines shuffle b c r = IndexError ∧
   laid b (pool b c r) (place_mines_raised shuffle b c r)).
Proof.
  intros Hsh Hwf Hcr.
  pose proof (shuffled_length shuffle Hsh b c r) as Hlen.
  pose proof (shuffled_NoDup shuffle Hsh b c r) as Hnd.
  pose proof (shuffled_inbounds shuffle Hsh b c r) as Hin.
  pose proof (length_pool b c r Hcr) as Hpool.
  split; intros Hn.
  - unfold place_mines, chosen. set (shuffled := shuffle (pool b c r)) in *.
    destruct (place_loop_any shuffled b (Z.to_nat (num_mines b))) as (b1 & Hb1 & Hld);
      [done|done|lia|].
    rewrite range_of_nat, Hb1. simpl.
    pose proof (laid_wf _ _ _ Hld Hwf) as Hwf1.
    destruct (adjacency_loop (positions (cols b) (rows b)) b1) as (b2 & -> & Hct & _);
      [done| |].
    { apply Forall_forall. intros q Hq%is_inbounds_positions.
      by rewrite (laid_is_inbounds b b1 (take (Z.to_nat (num_mines b)) shuffled)). }
    simpl. eexists. split; [done|].
    pose proof (λ q, counted_mine_at b1 b2 q Hct) as Hmine_at.
    pose proof (counted_wf _ _ Hct Hwf1) as Hwf2.
    assert (∀ p, is_inbounds b p.1 p.2 = true →
                 (mine_at b2 p = true ↔
                  mine_at b p = true ∨ p ∈ take (Z.to_nat (num_mines b)) shuffled))
      as Hmines.
    { intros p Hp. rewrite Hmine_at. by apply (ld_mines _ _ _ Hld). }
    assert (Z.to_nat (num_mines b) ≤ count mine (cells b2))%nat as Hcount.
    { rewrite <- (length_take_le shuffled (Z.to_nat (num_mines b))) by lia.
      apply (count_mine_ge _ (with_mines_placed true b2)); [done| |].
      { rewrite <- (take_drop (Z.to_nat (num_mines b)) shuffled) in Hnd.
        by apply NoDup_app in Hnd as [? _]. }
      apply Forall_forall. intros p Hp.
      assert (is_inbounds b p.1 p.2 = true) as Hpin.
      { apply (proj1 (Forall_forall _ _) Hin).
        apply elem_of_take in Hp as (i & Hi & _). by eapply list_elem_of_lookup_2. }
      split.
      - change (is_inbounds b2 p.1 p.2 = true).
        rewrite (counted_is_inbounds b1 b2) by done.
        by rewrite (laid_is_inbounds b b1 (take (Z.to_nat (num_mines b)) shuffled)).
      - change (mine_at b2 p = true). apply Hmines; [done|by right]. }
    destruct Hld as [? ? ? ? ? ? ? Hcells _].
    destruct Hct as [? ? ? ? ? ? ? Hcells2 _].
    simpl. split_and!; try congruence; try done.
    eapply Forall2_trans; [| |].
    { intros x y z (?&?&?&?) (?&?&?&?). unfold placement_cell. split_and!; congruence. }
    + eapply Forall2_impl; [apply Hcells|]. by intros x y [? _].
    + eapply Forall2_impl; [apply Hcells2|]. by intros x y [? _].
  - unfold place_mines, place_mines_raised. set (shuffled := shuffle (pool b c r)) in *.
    destruct (place_loop_any shuffled b (length shuffled)) as (b1 & Hb1 & Hld);
      [done|done|lia|].
    assert (range (num_mines b) =
            range (Z.of_nat (length shuffled)) ++
            Z.of_nat (length shuffled) ::
            seqZ (Z.of_nat (length shuffled) + 1)
                 (num_mines b - Z.of_nat (length shuffled) - 1)) as ->.
    { unfold range.
      replace (num_mines b) with
        (Z.of_nat (length shuffled) + (1 + (num_mines b - Z.of_nat (length shuffled) - 1)))
        at 1 by lia.
      rewrite seqZ_app by lia. f_equal. rewrite seqZ_app by lia. done. }
    destruct (foldM_state_stop (place_one shuffled) (range (Z.of_nat (length shuffled)))
                (seqZ (Z.of_nat (length shuffled) + 1)
                   (num_mines b - Z.of_nat (length shuffled) - 1))
                (Z.of_nat (length shuffled)) b b1 Hb1) as [Hraise Hstate].
    { unfold place_one. by rewrite py_index_overflow by lia. }
    rewrite Hraise, Hstate. simpl. split; [done|].
    rewrite firstn_all in Hld.
    destruct Hld as [? ? ? ? ? ? ? Hcells Hmines]. split; try done.
    intros p Hp. rewrite (Hmines p Hp). unfold shuffled. by rewrite (Hsh _).
Qed.

Lemma count_safe_le (l : list Cell) :
  (count safe_revealed l + count mine l ≤ length l)%nat.
Proof.
  induction l as [|x l IH]; [done|]. rewrite !count_cons. simpl.
  unfold safe_revealed at 1. destruct (revealed x), (mine x); simpl; lia.
Qed.

(** With at least [num_mines] mines, a full counter means that all
    cells but the mines are revealed and that the mines are [num_mines]
    many. *)
Lemma full_count_spec (b : Board) :
  wf b → 0 < cols b → 0 < rows b →
  revealed_count b = Z.of_nat (count safe_revealed (cells b)) →
  (Z.to_nat (num_mines b) ≤ count mine (cells b))%nat →
  (revealed_count b = cols b * rows b - num_mines b ↔
   0 ≤ num_mines b ∧ Z.of_nat (count mine (cells b)) = num_mines b ∧
   Forall (λ x, mine x = false → revealed x = true) (cells b)).
Proof.
  intros Hwf Hc Hr Hcount Hmines. unfold wf in Hwf.
  pose proof (count_not mine (cells b)) as Hsplit.
  pose proof (count_safe_le (cells b)) as Hle.
  split.
  - intros Hfull.
    assert (0 ≤ num_mines b ∧ Z.of_nat (count mine (cells b)) = num_mines b) as [Hn Hm]
      by nia.
    split_and!; [done|done|].
    assert (∀ x, safe_revealed x = true → negb (mine x) = true) as Hsub.
    { intros x. unfold safe_revealed. by intros [_ ?]%andb_true_iff. }
    pose proof (count_full safe_revealed (λ x, negb (mine x)) (cells b) Hsub) as Hall.
    eapply Forall_impl; [apply Hall; nia|]. simpl.
    intros x Hx Hxm. rewrite Hxm in Hx. specialize (Hx eq_refl).
    unfold safe_revealed in Hx. by apply andb_true_iff in Hx as [? _].
  - intros (Hn & Hm & Hall). rewrite Hcount.
    rewrite (count_ext safe_revealed (λ x, negb (mine x))); [nia|].
    eapply Forall_impl; [done|]. intros x Hx. simpl in Hx. unfold safe_revealed.
    destruct (mine x); [by rewrite andb_false_r|]. by rewrite (Hx eq_refl).
Qed.

Lemma Board_init_held_inv (ncols nrows mines : Z) (b : Board) :
  Board_init ncols nrows mines = Ok b → held_inv b.
Proof.
  intros [= <-]. split; simpl; try done.
  - unfold wf. simpl. by rewrite length_fmap, length_positions.
  - intros _. split_and!; try done. apply Forall_fmap, Forall_forall. by intros p _.
  - rewrite count_none; [done|]. apply Forall_fmap, Forall_forall. by intros p _.
Qed.

Lemma toggle_flag_held_inv (b : Board) (c r : Z) (b' : Board) :
  held_inv b → toggle_flag b c r = Ok b' → held_inv b'.
Proof.
  intros Hinv Hcall.
  destruct (toggle_flag_cases _ _ _ _ (hi_wf _ Hinv) Hcall)
    as [->|(x & Hin & Hx & Hr & ->)]; [done|].
  set (k := slot b (c, r)) in *. set (f := set_is_flagged (negb (flagged x))).
  assert (Forall2 (λ x y, mine y = mine x ∧ revealed y = revealed x)
            (cells b) (alter f k (cells b))) as Hcells.
  { apply Forall2_alter_diag; [done|]. by intros y _. }
  destruct Hinv as [Hwf Hfresh Hplaced Hcount Hwin].
  split; simpl.
  - unfold wf in *. simpl. by rewrite length_alter.
  - intros Hmp. destruct (Hfresh Hmp) as (? & ? & ? & Hall). split_and!; try done.
    eapply Forall_transfer; [done| |done]. intros ?? (_ & ->). done.
  - intros Hmp. destruct (Hplaced Hmp) as (? & ? & ? & Hle). split_and!; try done.
    rewrite <- (count_Forall2 mine mine (cells b)); [done|].
    eapply Forall2_impl; [done|]. by intros ?? (-> & _).
  - rewrite Hcount. f_equal. apply count_Forall2. eapply Forall2_impl; [done|].
    intros ?? (Hm & Hre). unfold safe_revealed. by rewrite Hm, Hre.
  - done.
Qed.

(** The board that [reveal] works on once it is past placement. *)
Lemma ready_held_inv (shuffle : list pos → list pos) (b : Board) (c r : Z) (b1 : Board) :
  held_inv b → is_shuffle shuffle → is_inbounds b c r = true → ready shuffle b c r b1 →
  held_inv b1 ∧ _mines_placed b1 = true ∧ cols b1 = cols b ∧ rows b1 = rows b ∧
  game_over b1 = game_over b ∧ num_mines b1 = num_mines b.
Proof.
  intros Hinv Hsh Hin [[Hmp ->]|[Hmp Hcall]]; [done|].
  pose proof (hi_wf _ Hinv) as Hwf.
  destruct (place_mines_any shuffle b c r Hsh Hwf Hin) as [Hfit Hover].
  destruct (Z.le_gt_cases (num_mines b)
              (cols b * rows b - Z.of_nat (length (forbidden b c r)))) as [Hle|Hgt].
  2:{ destruct (Hover ltac:(lia)) as [Hraise _]. congruence. }
  destruct (Hfit Hle) as (b1' & Hb1' & Hc & Hr & Hnm & Hrc & Hgo & Hw & Hmp1 & Hcells & _ & Hcnt).
  assert (b1' = b1) as -> by congruence.
  split; [|done].
  destruct (hi_fresh _ Hinv Hmp) as (Hrc0 & Hgo0 & Hw0 & Hall).
  assert (Forall (λ y, revealed y = false) (cells b1)) as Hnone.
  { eapply Forall_transfer; [done| |done]. intros x y (_ & _ & -> & _) ?. done. }
  apply is_inbounds_spec in Hin as [Hcr Hrr]. simpl in Hle.
  split.
  - unfold wf in *. erewrite <- Forall2_length by done. congruence.
  - congruence.
  - intros _. rewrite Hc, Hr, Hnm. split_and!; [lia|lia|lia|done].
  - rewrite Hrc, Hrc0, count_none; [done|].
    eapply Forall_impl; [done|]. intros y Hy. unfold safe_revealed. by rewrite Hy.
  - intros _. rewrite Hw, Hw0, Hrc, Hrc0, Hc, Hr, Hnm. split; [done|lia].
Qed.

Lemma loss_board_held_inv (b1 : Board) (k : nat) (x1 : Cell) :
  held_inv b1 → _mines_placed b1 = true → cells b1 !! k = Some x1 → mine x1 = true →
  held_inv (loss_board b1 k).
Proof.
  intros [Hwf _ Hplaced Hcount Hwin] Hmp Hx1 Hm.
  pose proof (loss_board_cells b1 k x1 Hx1 Hm) as Hcells.
  destruct (Hplaced Hmp) as (Hc & Hr & Hn & Hcnt).
  split.
  - unfold wf in *. erewrite <- Forall2_length by done. done.
  - simpl. congruence.
  - intros _. split_and!; [done|done|done|].
    change (num_mines (loss_board b1 k)) with (num_mines b1).
    rewrite <- (count_Forall2 mine mine (cells b1)); [done|].
    eapply Forall2_impl; [done|]. by intros x y [->|[-> _]].
  - change (revealed_count (loss_board b1 k)) with (revealed_count b1).
    rewrite Hcount. f_equal. apply count_Forall2.
    eapply Forall2_impl; [done|]. intros x y [->|[-> Hx]]; [done|].
    unfold safe_revealed, mine in *. simpl. rewrite Hx. by rewrite !andb_false_r.
  - intros _. by apply Hwin.
Qed.

Lemma cascade_check_win_held_inv (b1 b2 : Board) :
  held_inv b1 → _mines_placed b1 = true → game_over b1 = false → cascade b1 b2 →
  held_inv (_check_win b2).
Proof.
  intros [Hwf _ Hplaced Hcount Hwin] Hmp Hgo1 Hcas.
  pose proof (cascade_wf _ _ Hcas Hwf) as Hwf2.
  destruct Hcas as [Hcols Hrows Hnm Hmp' Hgo Hw Hcells Hcnt].
  destruct (Hplaced Hmp) as (Hc & Hr & Hn & Hmines).
  assert (count mine (cells b2) = count mine (cells b1)) as Hsame.
  { symmetry. apply count_Forall2. eapply Forall2_impl; [done|]. intros x y Hxy.
    symmetry. by apply cascade_mine. }
  assert (revealed_count b2 = Z.of_nat (count safe_revealed (cells b2))) as Hcount2 by lia.
  assert (Z.to_nat (num_mines b2) ≤ count mine (cells b2))%nat as Hmines2
    by (by rewrite Hnm, Hsame).
  pose proof (full_count_spec b2 Hwf2 ltac:(lia) ltac:(lia) Hcount2 Hmines2) as Hfull2.
  assert (win b2 = true → revealed_count b2 = cols b2 * rows b2 - num_mines b2) as Hkeep.
  { rewrite Hw. intros Hfull1%(Hwin Hmp).
    pose proof (count_safe_le (cells b2)) as Hle2.
    pose proof (count_safe_le (cells b1)) as Hle1.
    assert (count safe_revealed (cells b1) ≤ count safe_revealed (cells b2))%nat.
    { clear -Hcells. induction Hcells as [|x y l l' Hxy _ IH]; [done|].
      rewrite !count_cons. destruct Hxy as [->|(-> & Hr & Hm & _)]; [lia|].
      unfold safe_revealed at 1 3. rewrite Hr. simpl. lia. }
    unfold wf in Hwf, Hwf2. nia. }
  unfold _check_win.
  destruct (Z.eqb_spec (revealed_count b2) (cols b2 * rows b2 - num_mines b2))
    as [Hfull|Hnot]; rewrite Hgo, Hgo1; simpl.
  - destruct (proj1 Hfull2 Hfull) as (_ & _ & Hall).
    assert ((λ x, if negb (is_revealed (state x)) && negb (is_mine (state x))
                  then set_is_revealed true x else x) <$> cells b2 = cells b2) as Hid.
    { rewrite <- (list_fmap_id (cells b2)) at 2. apply list_fmap_ext.
      intros i x Hx. pose proof (Forall_lookup_1 _ _ _ _ Hall Hx) as Hx'. simpl in *.
      destruct (is_revealed (state x)) eqn:Hrv; [done|].
      destruct (is_mine (state x)) eqn:Hm; [done|]. unfold mine, revealed in Hx'.
      rewrite Hm, Hrv in Hx'. by specialize (Hx' eq_refl). }
    split; simpl; rewrite ?Hid; try done.
    + congruence.
    + intros _. rewrite Hcols, Hrows. split_and!; [done|done|lia|done].
  - split; try done.
    + congruence.
    + intros _. rewrite Hcols, Hrows. split_and!; [done|done|lia|done].
Qed.

Lemma reveal_held_inv (shuffle : list pos → list pos) (b : Board) (c r : Z) (b' : Board) :
  held_inv b → is_shuffle shuffle → reveal shuffle b c r = Ok b' → held_inv b'.
Proof.
  intros Hinv Hsh Hcall.
  destruct (reveal_cases _ _ _ _ _ (hi_wf _ Hinv) Hcall)
    as [[-> _]|(x & b1 & x1 & Hin & Hgo & Hx & Hr & Hready & Hx1 & Hpath)]; [done|].
  destruct (ready_held_inv _ _ _ _ _ Hinv Hsh Hin Hready)
    as (Hinv1 & Hmp1 & Hcols & Hrows & Hgo1 & _).
  destruct Hpath as [[_ ->]|[(_ & Hm & ->)|(_ & Hm & b2 & Hflood & ->)]].
  - done.
  - by eapply loss_board_held_inv.
  - assert (safe_pos b1 (c, r)) as Hsafe.
    { split; [unfold is_inbounds in *; by rewrite Hcols, Hrows|].
      exists x1. split; [|done]. unfold slot, index in *. by rewrite Hcols. }
    destruct (flood_from_click b1 c r (hi_wf _ Hinv1) Hsafe) as (b2' & Hb2' & Hcas).
    assert (b2' = b2) as -> by congruence.
    apply (cascade_check_win_held_inv b1); [done|done|congruence|done].
Qed.

(** On a board of the right shape on which nothing is revealed before
    placement, [reveal] ends, and it raises only in [place_mines], at the
    subscript [pool[i]] of a pool that is too small. *)
Lemma reveal_ends (shuffle : list pos → list pos) (b : Board) (c r : Z) :
  held_inv b → is_shuffle shuffle →
  (∃ b', reveal shuffle b c r = Ok b') ∨
  (reveal shuffle b c r = IndexError ∧ _mines_placed b = false ∧
   is_inbounds b c r = true ∧
   cols b * rows b - Z.of_nat (length (forbidden b c r)) < num_mines b).
Proof.
  intros Hinv Hsh. pose proof (hi_wf _ Hinv) as Hwf.
  destruct (is_inbounds b c r) eqn:Hin; [|left; exists b; unfold reveal; by rewrite Hin].
  destruct (game_over b) eqn:Hgo;
    [left; exists b; unfold reveal; by rewrite Hgo, orb_true_r|].
  destruct (lookup_slot b (c, r) Hwf Hin) as [x Hx].
  destruct (revealed x) eqn:Hr.
  { left. exists b. unfold reveal. rewrite Hin, Hgo. simpl. rewrite cell_ref_Ok by done.
    simpl. rewrite (deref_Ok _ _ _ Hx). simpl. unfold revealed in Hr. by rewrite Hr. }
  rewrite (reveal_unrevealed shuffle b c r x) by done.
  destruct (_mines_placed b) eqn:Hmp; simpl.
  - left. rewrite (deref_Ok _ _ _ Hx). simpl.
    destruct (is_flagged (state x)); [eauto|]. destruct (is_mine (state x)) eqn:Hm; [eauto|].
    destruct (flood_from_click b c r Hwf) as (b2 & -> & _); [|simpl; eauto].
    split; [done|]. by exists x.
  - destruct (place_mines_any shuffle b c r Hsh Hwf Hin) as [Hfit Hover].
    destruct (Z.le_gt_cases (num_mines b)
                (cols b * rows b - Z.of_nat (length (forbidden b c r)))) as [Hle|Hgt].
    2:{ right. destruct (Hover ltac:(lia)) as [-> _].
        split_and!; [done|done|done|unfold forbidden in *; simpl in *; lia]. }
    left. destruct (Hfit Hle) as (b1 & -> & Hc & Hrw & _ & _ & _ & _ & _ & Hcells & _).
    simpl.
    destruct (Forall2_lookup_l _ _ _ _ _ Hcells Hx) as (x1 & Hx1 & _).
    rewrite (deref_Ok _ _ _ Hx1). simpl.
    destruct (is_flagged (state x1)); [eauto|]. destruct (is_mine (state x1)) eqn:Hm; [eauto|].
    assert (wf b1) as Hwf1.
    { unfold wf in *. rewrite <- (Forall2_length _ _ _ Hcells). by rewrite Hc, Hrw. }
    destruct (flood_from_click b1 c r Hwf1) as (b2 & -> & _); [|simpl; eauto].
    split; [unfold is_inbounds in *; by rewrite Hc, Hrw|].
    exists x1. split; [|done]. unfold slot, index in *. by rewrite Hc.
Qed.

Lemma place_mines_raised_held_inv (shuffle : list pos → list pos) (b : Board) (c r : Z) :
  held_inv b → is_shuffle shuffle → reveal shuffle b c r = IndexError →
  held_inv (place_mines_raised shuffle b c r) ∧
  laid b (pool b c r) (place_mines_raised shuffle b c r) ∧ _mines_placed b = false.
Proof.
  intros Hinv Hsh Hcall. pose proof (hi_wf _ Hinv) as Hwf.
  destruct (reveal_ends shuffle b c r Hinv Hsh) as [[b' Hb']|(_ & Hmp & Hin & Hn)];
    [congruence|].
  destruct (place_mines_any shuffle b c r Hsh Hwf Hin) as [_ Hover].
  destruct (Hover Hn) as [_ Hld]. split; [|done].
  destruct (hi_fresh _ Hinv Hmp) as (Hrc0 & Hgo0 & Hw0 & Hall).
  pose proof (laid_wf _ _ _ Hld Hwf) as Hwf'.
  destruct Hld as [? ? ? Hmp' Hrc ? ? Hcells _].
  assert (Forall (λ y, revealed y = false) (cells (place_mines_raised shuffle b c r)))
    as Hnone.
  { eapply Forall_transfer; [done| |done]. intros x y [(_ & _ & -> & _) _] ?. done. }
  split.
  - done.
  - intros _. split_and!; [congruence|congruence|congruence|done].
  - congruence.
  - rewrite Hrc, Hrc0, count_none; [done|].
    eapply Forall_impl; [done|]. intros y Hy. unfold safe_revealed. by rewrite Hy.
  - congruence.
Qed.

Lemma held_held_inv (b : Board) : held b → held_inv b.
Proof.
  induction 1 as [ncols nrows mines b Hb|shuffle b c r b' _ IH Hsh Hcall
                 |shuffle b c r _ IH Hsh Hcall|b c r b' _ IH Hcall].
  - by eapply Board_init_held_inv.
  - by eapply reveal_held_inv.
  - by apply place_mines_raised_held_inv.
  - by eapply toggle_flag_held_inv.
Qed.

Lemma reachable_held (b : Board) : reachable b → held b.
Proof.
  induction 1; eauto using held_init, held_reveal, held_toggle_flag.
Qed.

(** The only exception of [reveal] is the one of [place_mines]. *)
Lemma reveal_raises_in_placement (shuffle : list pos → list pos) (b : Board) (c r : Z) :
  held b → is_shuffle shuffle → reveal shuffle b c r ≠ OutOfFuel ∧
  (reveal shuffle b c r = IndexError →
   _mines_placed b = false ∧ is_inbounds b c r = true ∧
   place_mines shuffle b c r = IndexError).
Proof.
  intros Hinv%held_held_inv Hsh.
  destruct (reveal_ends shuffle b c r Hinv Hsh) as [[b' Hb']|(Hraise & Hmp & Hin & Hn)].
  - rewrite Hb'. done.
  - rewrite Hraise. split; [done|]. intros _. split_and!; [done|done|].
    destruct (place_mines_any shuffle b c r Hsh (hi_wf _ Hinv) Hin) as [_ Hover].
    by destruct (Hover Hn).
Qed.

(** A call that returns keeps the dimensions and the mine count. *)
Lemma reveal_dims (shuffle : list pos → list pos) (b : Board) (c r : Z) (b' : Board) :
  held_inv b → is_shuffle shuffle → reveal shuffle b c r = Ok b' →
  cols b' = cols b ∧ rows b' = rows b ∧ num_mines b' = num_mines b.
Proof.
  intros Hinv Hsh Hcall.
  destruct (reveal_cases _ _ _ _ _ (hi_wf _ Hinv) Hcall)
    as [[-> _]|(x & b1 & x1 & Hin & Hgo & Hx & Hr & Hready & Hx1 & Hpath)]; [done|].
  destruct (ready_held_inv _ _ _ _ _ Hinv Hsh Hin Hready)
    as (Hinv1 & Hmp1 & Hcols & Hrows & Hgo1 & Hnm).
  destruct Hpath as [[_ ->]|[(_ & Hm & ->)|(_ & Hm & b2 & Hflood & ->)]]; [done|done|].
  assert (safe_pos b1 (c, r)) as Hsafe.
  { split; [unfold is_inbounds in *; by rewrite Hcols, Hrows|].
    exists x1. split; [|done]. unfold slot, index in *. by rewrite Hcols. }
  destruct (flood_from_click b1 c r (hi_wf _ Hinv1) Hsafe) as (b2' & Hb2' & Hcas).
  assert (b2' = b2) as -> by congruence.
  destruct (check_win_frame b2) as (Hc & Hrw & Hn & _). destruct Hcas.
  split_and!; congruence.
Qed.

(** When the pool of every click can take the mines (nine cells at most
    are kept out of it) no call raises: the board is reachable. *)
Lemma held_reachable (b : Board) :
  held b → num_mines b ≤ cols b * rows b - 9 → reachable b.
Proof.
  induction 1 as [ncols nrows mines b Hb|shuffle b c r b' Hheld IH Hsh Hcall
                 |shuffle b c r Hheld IH Hsh Hcall|b c r b' Hheld IH Hcall]; intros Hn.
  - by eapply reach_init.
  - destruct (reveal_dims _ _ _ _ _ (held_held_inv _ Hheld) Hsh Hcall) as (Hc & Hr & Hnm).
    apply (reach_reveal shuffle b c r); [|done|done]. apply IH. by rewrite <- Hc, <- Hr, <- Hnm.
  - exfalso. pose proof (held_held_inv _ Hheld) as Hinv.
    destruct (place_mines_raised_held_inv _ _ _ _ Hinv Hsh Hcall) as (_ & Hld & _).
    destruct (reveal_ends shuffle b c r Hinv Hsh) as [[b' Hb']|(_ & _ & _ & Hlt)];
      [congruence|].
    pose proof (length_neighbors b c r). destruct Hld as [Hc Hr Hnm _ _ _ _ _ _].
    rewrite Hc, Hr, Hnm in Hn. simpl in Hlt. lia.
  - pose proof (held_held_inv _ Hheld) as Hinv.
    apply (reach_toggle_flag b c r); [|done]. apply IH.
    by destruct (toggle_flag_cases _ _ _ _ (hi_wf _ Hinv) Hcall)
      as [->|(x & _ & _ & _ & ->)].
Qed.

Lemma strip5_lost_held : held strip5_lost.
Proof.
  apply (held_reveal keep_order strip5_raised 0 0); [|apply keep_order_shuffle|by vm_compute].
  apply (held_reveal_raised keep_order strip5 2 0);
    [|apply keep_order_shuffle|by vm_compute].
  by apply (held_init 5 1 3).
Qed.

Lemma square43_open_held : held square43_open.
Proof.
  apply (held_reveal keep_order square43_raised 0 0);
    [|apply keep_order_shuffle|by vm_compute].
  apply (held_reveal_raised keep_order square43 1 1);
    [|apply keep_order_shuffle|by vm_compute].
  by apply (held_init 4 3 4).
Qed.


(** * The properties C1 to C10 of the specification *)

(** ** C1: the flagged-cell count *)

(** C1.  The specification wants [flagged_count] to return the number of
    cells whose [is_flagged] is true, and the comment in its body says the
    same.  The body is [pass]: on every board the call returns [None],
    which is not that number. *)
Theorem flagged_count_returns_None (b : Board) :
  flagged_count b = PyNone ∧
  flagged_count b ≠ PyInt (Z.of_nat (count flagged (cells b))).
Proof. by split. Qed.

(** ** C2: first-click safety *)

(** C2.  On a board on which no mines are placed yet (no earlier call of
    [reveal] came as far as placement), with a mine count that leaves the
    pool large enough ([num_mines <= cols*rows - |safe zone|]), a call of
    [reveal] at an in-bounds position returns, and afterwards the clicked
    cell and all its in-bounds neighbours are no mines. *)
Theorem first_click_safety (shuffle : list pos → list pos) (b : Board) (c r : Z) :
  reachable b → _mines_placed b = false → is_shuffle shuffle →
  is_inbounds b c r = true →
  num_mines b ≤ cols b * rows b - Z.of_nat (length ((c, r) :: neighbors b c r)) →
  ∃ b', reveal shuffle b c r = Ok b' ∧
        ∀ p, p ∈ (c, r) :: neighbors b c r →
             ∃ x, cells b' !! slot b' p = Some x ∧ is_mine (state x) = false.
Proof.
  intros Hreach Hmp Hsh Hin Hn. pose proof (reachable_inv _ Hreach) as Hinv.
  destruct (first_reveal shuffle b c r Hinv Hmp Hsh Hin Hn)
    as (b1 & x1 & b' & Hpl & Hx1 & Hm1 & Hcall & Hpath).
  exists b'. split; [done|]. intros p Hp.
  pose proof (inv_wf _ (reveal_inv _ _ _ _ _ Hinv Hsh Hcall)) as Hwf'.
  assert (is_inbounds b p.1 p.2 = true) as Hpin by (by eapply forbidden_inbounds).
  assert (mine_at b1 p = false) as Hfree.
  { destruct (mine_at b1 p) eqn:E; [|done]. exfalso.
    apply (pl_mines _ _ _ Hpl p Hpin) in E.
    by apply (chosen_not_forbidden shuffle Hsh b c r p). }
  assert (cols b' = cols b ∧ rows b' = rows b ∧ mine_at b' p = false) as (Hc & Hr & Hm).
  { destruct Hpath as [[_ ->]|[_ (b2 & Hcas & ->)]].
    - by destruct Hpl.
    - destruct (check_win_frame b2) as (-> & -> & _).
      rewrite check_win_mine_at, (cascade_mine_at b1 b2) by done.
      destruct Hcas, Hpl. split_and!; congruence. }
  apply mine_at_lookup; [done| |done].
  unfold is_inbounds in *. by rewrite Hc, Hr.
Qed.

Lemma first_click_safety_witness :
  reachable row10 ∧
  ∃ b', reveal keep_order row10 0 0 = Ok b' ∧
        ∀ p, p ∈ (0, 0) :: neighbors row10 0 0 →
             ∃ x, cells b' !! slot b' p = Some x ∧ is_mine (state x) = false.
Proof.
  split; [apply row10_reachable|].
  apply (first_click_safety keep_order row10 0 0);
    [apply row10_reachable|reflexivity|apply keep_order_shuffle|reflexivity|].
  vm_compute. discriminate.
Defined.

(** ** C3: the counter of revealed cells *)

(** C3, as it is stated, fails: after a loss the mines are revealed but
    not counted.  On the row of ten, once the mine is clicked, three cells
    are revealed and [revealed_count] is 2. *)
Lemma revealed_count_misses_mines :
  (do b <- Board_init 10 1 1;
   do b <- reveal keep_order b 0 0;
   reveal keep_order b 2 0) = Ok row10_lost ∧
  reachable row10_lost ∧
  revealed_count row10_lost = 2 ∧
  Z.of_nat (count revealed (cells row10_lost)) = 3 ∧
  revealed_count row10_lost ≠ Z.of_nat (count revealed (cells row10_lost)).
Proof. split; [done|]. split; [apply row10_lost_reachable|]. by vm_compute. Qed.

(** C3, amended.  On every reachable board [revealed_count] is the number
    of revealed cells that are no mines; as long as [game_over] is false
    no mine is revealed, and [revealed_count] is the number of revealed
    cells. *)
Theorem revealed_count_exact (b : Board) :
  reachable b →
  revealed_count b = Z.of_nat (count safe_revealed (cells b)) ∧
  (game_over b = false → revealed_count b = Z.of_nat (count revealed (cells b))).
Proof.
  intros Hinv%reachable_inv. split; [apply (inv_count _ Hinv)|].
  intros Hgo. rewrite (inv_count _ Hinv). f_equal. apply count_ext.
  eapply Forall_impl; [apply (inv_hidden_mines _ Hinv Hgo)|].
  intros x Hx. unfold safe_revealed. simpl in Hx.
  destruct (revealed x); [|done]. by rewrite Hx.
Qed.

Lemma revealed_count_exact_witness :
  reachable row10_open ∧
  revealed_count row10_open = Z.of_nat (count safe_revealed (cells row10_open)) ∧
  (game_over row10_open = false →
   revealed_count row10_open = Z.of_nat (count revealed (cells row10_open))).
Proof.
  split; [apply row10_open_reachable|].
  apply (revealed_count_exact row10_open). apply row10_open_reachable.
Defined.

(** ** C4: flagged and revealed *)

(** C4, as it is stated, fails: [_reveal_all_mines] reveals a flagged mine
    and leaves its flag.  On the row of eleven the mine at [(2, 0)] is
    flagged; after the click on the mine at [(3, 0)] it is flagged and
    revealed. *)
Lemma flagged_mine_revealed_on_loss :
  (do b <- Board_init 11 1 2;
   do b <- toggle_flag b 2 0;
   do b <- reveal keep_order b 0 0;
   reveal keep_order b 3 0) = Ok row11_lost ∧
  reachable row11_lost ∧
  ∃ x, cells row11_lost !! slot row11_lost (2, 0) = Some x ∧
       is_flagged (state x) = true ∧ is_revealed (state x) = true.
Proof.
  split; [done|]. split; [apply row11_lost_reachable|]. eexists. by vm_compute.
Qed.

(** C4, amended.  On every reachable board a cell that is flagged and
    revealed is a mine, and the game is over (it was revealed by the loss
    path); so while [game_over] is false no cell is both.  And
    [toggle_flag] leaves every revealed cell as it is. *)
Theorem flagged_revealed_only_after_loss (b : Board) :
  reachable b →
  Forall (λ x, is_flagged (state x) = true → is_revealed (state x) = true →
               is_mine (state x) = true ∧ game_over b = true) (cells b) ∧
  ∀ c r b', toggle_flag b c r = Ok b' →
            Forall2 (λ x y, is_revealed (state x) = true → y = x) (cells b) (cells b').
Proof.
  intros Hinv%reachable_inv. split.
  - apply Forall_forall. intros x Hx Hf Hr.
    pose proof (proj1 (Forall_forall _ _) (inv_flags _ Hinv) x Hx Hf Hr) as Hm.
    split; [done|]. destruct (game_over b) eqn:Hgo; [done|].
    pose proof (proj1 (Forall_forall _ _) (inv_hidden_mines _ Hinv Hgo) x Hx Hr) as Hm'.
    unfold mine in *. congruence.
  - intros c r b' Hcall.
    destruct (toggle_flag_cases _ _ _ _ (inv_wf _ Hinv) Hcall) as [->|(x & _ & Hx & Hr & ->)]; [by apply Forall2_diag|].
    simpl. apply Forall2_alter_diag; [done|]. intros y Hy Hry.
    assert (y = x) as -> by congruence. unfold revealed in Hr. congruence.
Qed.

Lemma flagged_revealed_only_after_loss_witness :
  reachable row11_lost ∧
  Forall (λ x, is_flagged (state x) = true → is_revealed (state x) = true →
               is_mine (state x) = true ∧ game_over row11_lost = true)
         (cells row11_lost) ∧
  ∀ c r b', toggle_flag row11_lost c r = Ok b' →
            Forall2 (λ x y, is_revealed (state x) = true → y = x)
                    (cells row11_lost) (cells b').
Proof.
  split; [apply row11_lost_reachable|].
  apply (flagged_revealed_only_after_loss row11_lost). apply row11_lost_reachable.
Defined.

(** ** C5: win and game over *)

(** C5, as it is stated, fails: [reveal] tests [game_over] but not [win].
    On the row of ten, won by the click at [(9, 0)], a click on the mine
    sets [game_over] while [win] stays true. *)
Lemma win_and_game_over :
  (do b <- Board_init 10 1 1;
   do b <- reveal keep_order b 0 0;
   do b <- reveal keep_order b 9 0;
   reveal keep_order b 2 0) = Ok row10_won_lost ∧
  reachable row10_won_lost ∧
  win row10_won_lost = true ∧ game_over row10_won_lost = true.
Proof. split; [done|]. split; [apply row10_won_lost_reachable|]. by vm_compute. Qed.

(** C5, amended.  On every reachable board [win] implies that every cell
    that is no mine is revealed.  A call of [reveal] made while [win] is
    false never leaves [game_over] and [win] both true (the loss path does
    not set [win]; [_check_win] sets [win] only while [game_over] is
    false), and [toggle_flag] changes neither. *)
Theorem win_invariant (b : Board) :
  reachable b →
  (win b = true →
   Forall (λ x, is_mine (state x) = false → is_revealed (state x) = true) (cells b)) ∧
  (∀ shuffle c r b',
     is_shuffle shuffle → reveal shuffle b c r = Ok b' → win b = false →
     ¬ (game_over b' = true ∧ win b' = true)) ∧
  (∀ c r b', toggle_flag b c r = Ok b' → game_over b' = game_over b ∧ win b' = win b).
Proof.
  intros Hinv%reachable_inv. split_and!.
  - apply (inv_win _ Hinv).
  - intros shuffle c r b' Hsh Hcall Hw [Hgo' Hw'].
    destruct (reveal_cases _ _ _ _ _ (inv_wf _ Hinv) Hcall)
      as [[-> _]|(x & b1 & x1 & Hin & Hgo & Hx & Hr & Hready & Hx1 & Hpath)];
      [congruence|].
    destruct (ready_inv _ _ _ _ _ Hinv Hsh Hin Hready) as (Hinv1 & Hmp1 & _ & _ & Hgo1).
    destruct (ready_frame _ _ _ _ _ Hinv Hsh Hready) as (Hw1 & _).
    destruct Hpath as [[_ ->]|[(_ & _ & ->)|(_ & Hm & b2 & Hflood & ->)]].
    + congruence.
    + change (win (loss_board b1 (slot b (c, r)))) with (win b1) in Hw'. congruence.
    + pose proof (ready_safe_pos _ _ _ _ _ _ Hinv Hsh Hin Hready Hx1 Hm) as Hsafe.
      destruct (flood_from_click b1 c r (inv_wf _ Hinv1) Hsafe) as (b2' & Hb2' & Hcas).
      assert (b2' = b2) as -> by congruence.
      destruct (check_win_frame b2) as (_ & _ & _ & _ & Hgo2).
      rewrite Hgo2, (cas_game_over _ _ Hcas) in Hgo'. congruence.
  - intros c r b' Hcall.
    by destruct (toggle_flag_cases _ _ _ _ (inv_wf _ Hinv) Hcall) as [->|(x & _ & _ & _ & ->)].
Qed.

Lemma win_invariant_witness :
  reachable row10_won ∧
  (win row10_won = true →
   Forall (λ x, is_mine (state x) = false → is_revealed (state x) = true)
          (cells row10_won)) ∧
  (∀ shuffle c r b',
     is_shuffle shuffle → reveal shuffle row10_won c r = Ok b' → win row10_won = false →
     ¬ (game_over b' = true ∧ win b' = true)) ∧
  (∀ c r b', toggle_flag row10_won c r = Ok b' →
             game_over b' = game_over row10_won ∧ win b' = win row10_won).
Proof.
  split; [apply row10_won_reachable|].
  apply (win_invariant row10_won). apply row10_won_reachable.
Defined.

(** ** C6: the loss path *)

Lemma loss_board_cells_eq (b : Board) (k : nat) (x : Cell) :
  cells b !! k = Some x → mine x = true →
  cells (loss_board b k) =
  (λ y, if is_mine (state y) then set_is_revealed true y else y) <$> cells b.
Proof.
  intros Hx Hm. unfold loss_board, _reveal_all_mines. simpl. apply list_eq. intros i.
  rewrite !list_lookup_fmap, list_lookup_alter. case_decide as Hk; [|done].
  subst i. rewrite Hx. simpl. unfold mine in Hm. by rewrite Hm.
Qed.

(** C6, as it is stated, fails on a board that is already won: the call
    leaves [win] as it is, and [win] can be true before it.  On the won row
    of ten the mine at
    [(2, 0)] is in bounds, not revealed and not flagged, and [game_over] is
    false; after the click [win] is true. *)
Lemma loss_on_won_board_keeps_win :
  (do b <- Board_init 10 1 1;
   do b <- reveal keep_order b 0 0;
   reveal keep_order b 9 0) = Ok row10_won ∧
  reachable row10_won ∧
  is_inbounds row10_won 2 0 = true ∧ game_over row10_won = false ∧
  (∃ x, cells row10_won !! slot row10_won (2, 0) = Some x ∧
        is_mine (state x) = true ∧ is_revealed (state x) = false ∧
        is_flagged (state x) = false) ∧
  ∃ b', reveal keep_order row10_won 2 0 = Ok b' ∧ game_over b' = true ∧ win b' = true.
Proof.
  split; [done|]. split; [apply row10_won_reachable|].
  split_and!; [done|done|eexists; by vm_compute|]. eexists. by vm_compute.
Qed.

(** The claim needs mines to be placed.  Before placement a mine can be
    on the board, left by a call of [reveal] that raised, and the click on
    it first runs [place_mines].  On the row of five with four mines the
    click at [(0, 0)] raises and leaves mines at [(2, 0)], [(3, 0)] and
    [(4, 0)]; the click on the mine at [(2, 0)] is then no loss: it
    raises in its turn. *)
Lemma click_on_left_mine_raises :
  ∃ b b1, Board_init 5 1 4 = Ok b ∧ reveal keep_order b 0 0 = IndexError ∧
          b1 = place_mines_raised keep_order b 0 0 ∧ held b1 ∧
          is_inbounds b1 2 0 = true ∧ game_over b1 = false ∧
          (∃ x, cells b1 !! slot b1 (2, 0) = Some x ∧
                is_mine (state x) = true ∧ is_revealed (state x) = false ∧
                is_flagged (state x) = false) ∧
          reveal keep_order b1 2 0 = IndexError.
Proof.
  eexists _, _. split; [done|]. split; [by vm_compute|]. split; [done|].
  split_and!; [|done|done|eexists; by vm_compute|by vm_compute].
  apply (held_reveal_raised keep_order _ 0 0);
    [by apply (held_init 5 1 4)|apply keep_order_shuffle|by vm_compute].
Qed.

(** C6, amended.  Once mines are placed, a call of [reveal] on an
    in-bounds cell that is a mine, not revealed and not flagged, while
    [game_over] is false, returns with [game_over] true and [win] and
    [revealed_count] unchanged (so [win] stays false when it was false);
    every mine, the clicked one among them, is revealed, and the cells that
    are no mines are unchanged.  This holds on every board that the object
    can hold, also after calls that raised. *)
Theorem loss_condition (shuffle : list pos → list pos) (b : Board) (c r : Z) (x : Cell) :
  held b → _mines_placed b = true →
  is_inbounds b c r = true → game_over b = false →
  cells b !! slot b (c, r) = Some x →
  is_mine (state x) = true → is_revealed (state x) = false →
  is_flagged (state x) = false →
  ∃ b', reveal shuffle b c r = Ok b' ∧
        game_over b' = true ∧ win b' = win b ∧ revealed_count b' = revealed_count b ∧
        cells b' =
        (λ y, if is_mine (state y) then set_is_revealed true y else y) <$> cells b.
Proof.
  intros Hinv%held_held_inv Hmp Hin Hgo Hx Hm Hr Hf.
  exists (loss_board b (slot b (c, r))). split_and!; try done.
  - rewrite (reveal_unrevealed shuffle b c r x (hi_wf _ Hinv)) by done.
    rewrite Hmp. simpl. rewrite (deref_Ok _ _ _ Hx). simpl. by rewrite Hf, Hm.
  - by apply (loss_board_cells_eq b _ x).
Qed.

(** On the board of four by three, which holds a mine more than
    [num_mines] after a call that raised, the mine at [(2, 0)] is
    clicked. *)
Lemma loss_condition_witness :
  held square43_open ∧
  ∃ b', reveal keep_order square43_open 2 0 = Ok b' ∧
        game_over b' = true ∧ win b' = win square43_open ∧
        revealed_count b' = revealed_count square43_open ∧
        cells b' =
        (λ y, if is_mine (state y) then set_is_revealed true y else y)
          <$> cells square43_open.
Proof.
  split; [apply square43_open_held|].
  apply (loss_condition keep_order square43_open 2 0
           (mkCell 2 0 (mkCellState true false false 0)));
    [apply square43_open_held|reflexivity..].
Defined.

(** ** C7: the win test *)

(** C7.  A call of [reveal] that is no early exit (the cell is in bounds,
    not revealed and not flagged) and no loss ([game_over] is false after
    it) ends with [_check_win]: when [revealed_count] then equals
    [cols*rows - num_mines], [win] is true and every cell that is no mine
    is revealed. *)
Theorem win_condition (shuffle : list pos → list pos) (b : Board) (c r : Z)
    (x : Cell) (b' : Board) :
  reachable b → is_shuffle shuffle →
  is_inbounds b c r = true → cells b !! slot b (c, r) = Some x →
  is_revealed (state x) = false → is_flagged (state x) = false →
  reveal shuffle b c r = Ok b' →
  game_over b' = false →
  revealed_count b' = cols b' * rows b' - num_mines b' →
  win b' = true ∧
  Forall (λ y, is_mine (state y) = false → is_revealed (state y) = true) (cells b').
Proof.
  intros Hinv%reachable_inv Hsh Hin Hx Hr Hf Hcall Hgo' Hfull.
  pose proof (reveal_inv _ _ _ _ _ Hinv Hsh Hcall) as Hinv'.
  destruct (reveal_cases _ _ _ _ _ (inv_wf _ Hinv) Hcall)
    as [[-> [?|[?|(y & Hy & Hry)]]]
       |(y & b1 & x1 & _ & Hgo & Hy & _ & Hready & Hx1 & Hpath)].
  - congruence.
  - congruence.
  - unfold revealed in Hry. congruence.
  - destruct (ready_inv _ _ _ _ _ Hinv Hsh Hin Hready) as (Hinv1 & Hmp1 & _ & _ & Hgo1).
    destruct (ready_frame _ _ _ _ _ Hinv Hsh Hready) as (_ & _ & _ & Hcells).
    assert (flagged x1 = false) as Hf1.
    { destruct (Forall2_lookup_lr _ _ _ _ _ _ Hcells Hx Hx1) as (_ & _ & _ & ->). done. }
    destruct Hpath as [[Hf1' _]|[(_ & _ & ->)|(_ & Hm & b2 & Hflood & ->)]].
    + congruence.
    + done.
    + pose proof (ready_safe_pos _ _ _ _ _ _ Hinv Hsh Hin Hready Hx1 Hm) as Hsafe.
      destruct (flood_from_click b1 c r (inv_wf _ Hinv1) Hsafe) as (b2' & Hb2' & Hcas).
      assert (b2' = b2) as -> by congruence.
      assert (_mines_placed b2 = true) as Hmp2 by (by rewrite (cas_mines_placed _ _ Hcas)).
      pose proof (cascade_inv _ _ Hinv1 Hmp1 Hcas) as Hinv2.
      destruct (check_win_frame b2) as (Hc & Hrw & Hn & Hrc & Hgo2).
      rewrite Hc, Hrw, Hn, Hrc in Hfull. rewrite Hgo2 in Hgo'.
      rewrite check_win_spec by done.
      rewrite (proj2 (Z.eqb_eq _ _) Hfull), Hgo'. simpl. split; [done|].
      apply (full_count_all_revealed b2 Hinv2 Hmp2 Hfull).
Qed.

Lemma win_condition_witness :
  reachable row10_open ∧
  win row10_won = true ∧
  Forall (λ y, is_mine (state y) = false → is_revealed (state y) = true)
         (cells row10_won).
Proof.
  split; [apply row10_open_reachable|].
  apply (win_condition keep_order row10_open 9 0
           (mkCell 9 0 (mkCellState false false false 0)) row10_won);
    [apply row10_open_reachable|apply keep_order_shuffle|reflexivity..].
Defined.

(** ** C8: calls that do nothing *)

(** C8, as it is stated, fails: [toggle_flag] tests neither [game_over]
    nor [win].  On the lost row of ten, [toggle_flag] at the unrevealed
    cell [(3, 0)] sets its flag. *)
Lemma toggle_flag_after_game_over :
  (do b <- Board_init 10 1 1;
   do b <- reveal keep_order b 0 0;
   reveal keep_order b 2 0) = Ok row10_lost ∧
  reachable row10_lost ∧ game_over row10_lost = true ∧
  ∃ b' x x',
    toggle_flag row10_lost 3 0 = Ok b' ∧
    cells row10_lost !! slot row10_lost (3, 0) = Some x ∧
    cells b' !! slot b' (3, 0) = Some x' ∧
    is_flagged (state x) = false ∧ is_flagged (state x') = true ∧ b' ≠ row10_lost.
Proof.
  split; [done|]. split; [apply row10_lost_reachable|]. split; [done|].
  do 3 eexists. split_and!; [by vm_compute|by vm_compute|by vm_compute|done|done|].
  by vm_compute.
Qed.

(** C8, amended.  The calls that do nothing are: [reveal] and
    [toggle_flag] outside the grid, [reveal] once [game_over] is true, and
    [reveal] and [toggle_flag] on a revealed cell.  Each returns, without
    an exception, the board it was given. *)
Theorem silent_no_ops (shuffle : list pos → list pos) (b : Board) (c r : Z) :
  reachable b →
  (is_inbounds b c r = false →
   reveal shuffle b c r = Ok b ∧ toggle_flag b c r = Ok b) ∧
  (game_over b = true → reveal shuffle b c r = Ok b) ∧
  (∀ x, is_inbounds b c r = true → cells b !! slot b (c, r) = Some x →
        is_revealed (state x) = true →
        reveal shuffle b c r = Ok b ∧ toggle_flag b c r = Ok b).
Proof.
  intros Hinv%reachable_inv. pose proof (inv_wf _ Hinv) as Hwf. split_and!.
  - intros Hin. unfold reveal, toggle_flag. by rewrite Hin.
  - intros Hgo. unfold reveal. rewrite Hgo. by rewrite orb_true_r.
  - intros x Hin Hx Hr. unfold reveal, toggle_flag. rewrite Hin. simpl.
    rewrite cell_ref_Ok by done. simpl. rewrite (deref_Ok _ _ _ Hx). simpl.
    rewrite Hr. by destruct (game_over b).
Qed.

Lemma silent_no_ops_witness :
  reachable row10_lost ∧
  (is_inbounds row10_lost 1 0 = false →
   reveal keep_order row10_lost 1 0 = Ok row10_lost ∧
   toggle_flag row10_lost 1 0 = Ok row10_lost) ∧
  (game_over row10_lost = true → reveal keep_order row10_lost 1 0 = Ok row10_lost) ∧
  (∀ x, is_inbounds row10_lost 1 0 = true →
        cells row10_lost !! slot row10_lost (1, 0) = Some x →
        is_revealed (state x) = true →
        reveal keep_order row10_lost 1 0 = Ok row10_lost ∧
        toggle_flag row10_lost 1 0 = Ok row10_lost).
Proof.
  split; [apply row10_lost_reachable|].
  apply (silent_no_ops keep_order row10_lost 1 0). apply row10_lost_reachable.
Defined.

(** ** C9: construction *)



(** ** C10: the first click on a flagged cell *)

(** C10, as it is stated, fails when the pool is too small: the call
    raises [IndexError] and [_mines_placed] stays false.  Three by three
    with one mine and the centre flagged: the safe zone of the centre is
    the whole grid and the pool is empty. *)
Lemma first_reveal_on_flag_raises :
  (do b <- Board_init 3 3 1; toggle_flag b 1 1) = Ok square3_flag ∧
  reachable square3_flag ∧
  _mines_placed square3_flag = false ∧ game_over square3_flag = false ∧
  is_inbounds square3_flag 1 1 = true ∧
  (∃ x, cells square3_flag !! slot square3_flag (1, 1) = Some x ∧
        is_revealed (state x) = false ∧ is_flagged (state x) = true) ∧
  reveal keep_order square3_flag 1 1 = IndexError.
Proof.
  split; [done|]. split; [apply square3_flag_reachable|].
  split_and!; try done. eexists. by vm_compute.
Qed.

(** C10, amended.  When the first call of [reveal] that reaches placement
    targets an in-bounds flagged cell (unrevealed, as every cell then is),
    and the pool is large enough, the call returns with mines placed: the
    mines are the first [num_mines] positions of the shuffled pool, none
    of them in the safe zone of the clicked cell, every cell that is no
    mine holds the number of mines around it, and [_mines_placed] is true;
    no cell is revealed or has its flag changed, and [revealed_count],
    [game_over] and [win] are unchanged. *)
Theorem first_reveal_on_flag (shuffle : list pos → list pos) (b : Board) (c r : Z)
    (x : Cell) :
  reachable b → _mines_placed b = false → is_shuffle shuffle →
  is_inbounds b c r = true → cells b !! slot b (c, r) = Some x →
  is_flagged (state x) = true →
  num_mines b ≤ cols b * rows b - Z.of_nat (length ((c, r) :: neighbors b c r)) →
  ∃ b', reveal shuffle b c r = Ok b' ∧ _mines_placed b' = true ∧
        (∀ p, is_inbounds b p.1 p.2 = true →
              (mine_at b' p = true ↔ p ∈ chosen shuffle b c r)) ∧
        (∀ p, p ∈ (c, r) :: neighbors b c r → mine_at b' p = false) ∧
        Z.of_nat (count mine (cells b')) = Z.max 0 (num_mines b) ∧
        (∀ p, is_inbounds b p.1 p.2 = true → adjacency_ok b' p) ∧
        revealed_count b' = revealed_count b ∧
        game_over b' = game_over b ∧ win b' = win b ∧
        Forall2 (λ y y', is_revealed (state y') = is_revealed (state y) ∧
                         is_flagged (state y') = is_flagged (state y))
                (cells b) (cells b').
Proof.
  intros Hreach Hmp Hsh Hin Hx Hf Hn. pose proof (reachable_inv _ Hreach) as Hinv.
  destruct (first_reveal shuffle b c r Hinv Hmp Hsh Hin Hn)
    as (b1 & x1 & b' & Hpl & Hx1 & Hm1 & Hcall & Hpath).
  assert (flagged x1 = true) as Hf1.
  { destruct (Forall2_lookup_lr _ _ _ _ _ _ (pl_cells _ _ _ Hpl) Hx Hx1)
      as (_ & _ & _ & ->). done. }
  destruct Hpath as [[_ ->]|[Hf1' _]]; [|congruence].
  exists b1. destruct Hpl as [? ? ? ? ? ? ? Hcells Hmines Hcount Hadj].
  split_and!; try done.
  - intros p Hp. destruct (mine_at b1 p) eqn:E; [|done]. exfalso.
    apply (chosen_not_forbidden shuffle Hsh b c r p); [|done].
    apply Hmines; [|done]. by eapply forbidden_inbounds.
  - rewrite Hcount. unfold chosen. rewrite length_take_le; [lia|].
    rewrite (Hsh _). pose proof (length_pool b c r Hin). unfold forbidden in *. lia.
  - eapply Forall2_impl; [done|]. by intros y y' (_ & _ & ? & ?).
Qed.

Lemma first_reveal_on_flag_witness :
  reachable row10_flag ∧
  ∃ b', reveal keep_order row10_flag 0 0 = Ok b' ∧ _mines_placed b' = true ∧
        (∀ p, is_inbounds row10_flag p.1 p.2 = true →
              (mine_at b' p = true ↔ p ∈ chosen keep_order row10_flag 0 0)) ∧
        (∀ p, p ∈ (0, 0) :: neighbors row10_flag 0 0 → mine_at b' p = false) ∧
        Z.of_nat (count mine (cells b')) = Z.max 0 (num_mines row10_flag) ∧
        (∀ p, is_inbounds row10_flag p.1 p.2 = true → adjacency_ok b' p) ∧
        revealed_count b' = revealed_count row10_flag ∧
        game_over b' = game_over row10_flag ∧ win b' = win row10_flag ∧
        Forall2 (λ y y', is_revealed (state y') = is_revealed (state y) ∧
                         is_flagged (state y') = is_flagged (state y))
                (cells row10_flag) (cells b').
Proof.
  split; [apply row10_flag_reachable|].
  apply (first_reveal_on_flag keep_order row10_flag 0 0
           (mkCell 0 0 (mkCellState false false true 0)));
    [apply row10_flag_reachable|reflexivity|apply keep_order_shuffle
    |reflexivity|reflexivity|reflexivity|].
  vm_compute. discriminate.
Defined.

(** * Further properties of the board *)

(** ** The grid: [index], [is_inbounds] and [neighbors] *)

Lemma elem_of_deltas (d : pos) :
  d ∈ deltas ↔ (-1 ≤ d.1 ≤ 1) ∧ (-1 ≤ d.2 ≤ 1) ∧ d ≠ (0, 0).
Proof.
  destruct d as [dx dy]. unfold deltas. rewrite !elem_of_cons, elem_of_nil. simpl. split.
  - intros H. decompose [or] H; simplify_eq; (split_and!; [lia..|done]).
  - intros (Hx & Hy & Hne).
    assert (dx = -1 ∨ dx = 0 ∨ dx = 1) as Hdx by lia.
    assert (dy = -1 ∨ dy = 0 ∨ dy = 1) as Hdy by lia.
    destruct Hdx as [->|[->| ->]], Hdy as [->|[->| ->]]; tauto.
Qed.

Lemma elem_of_neighbors (b : Board) (c r : Z) (p : pos) :
  p ∈ neighbors b c r ↔
  is_inbounds b p.1 p.2 = true ∧ p ≠ (c, r) ∧ (-1 ≤ p.1 - c ≤ 1) ∧ (-1 ≤ p.2 - r ≤ 1).
Proof.
  unfold neighbors. rewrite list_elem_of_filter, list_elem_of_fmap. split.
  - intros [Hin ([dx dy] & -> & (Hx & Hy & Hne)%elem_of_deltas)]. simpl in *.
    split_and!; [by apply Is_true_true|intros [= ? ?]; apply Hne; f_equal; lia|lia..].
  - intros (Hin & Hne & Hx & Hy). split; [by apply Is_true_true|].
    exists (p.1 - c, p.2 - r). split.
    + destruct p as [pc pr]. simpl. f_equal; lia.
    + apply elem_of_deltas. simpl. split_and!; [lia..|].
      intros [= ? ?]. apply Hne. destruct p as [pc pr]. simpl in *. f_equal; lia.
Qed.

(** X1.  [neighbors(col, row)] is the Moore neighbourhood cut to the grid: the
    positions in bounds, other than [(col, row)], at most one column and
    one row away; it has no duplicates and at most eight entries. *)
Theorem neighbors_spec (b : Board) (c r : Z) :
  (∀ p, p ∈ neighbors b c r ↔
        is_inbounds b p.1 p.2 = true ∧ p ≠ (c, r) ∧
        (-1 ≤ p.1 - c ≤ 1) ∧ (-1 ≤ p.2 - r ≤ 1)) ∧
  NoDup (neighbors b c r) ∧ (length (neighbors b c r) ≤ 8)%nat.
Proof.
  split_and!; [apply elem_of_neighbors|apply NoDup_neighbors|apply length_neighbors].
Qed.

(** X2.  Being a neighbour is symmetric between positions of the grid. *)
Theorem neighbors_symmetric (b : Board) (p q : pos) :
  is_inbounds b p.1 p.2 = true → is_inbounds b q.1 q.2 = true →
  (q ∈ neighbors b p.1 p.2 ↔ p ∈ neighbors b q.1 q.2).
Proof.
  intros Hp Hq. rewrite !elem_of_neighbors.
  destruct p as [pc pr], q as [qc qr]. simpl in *.
  split; intros (_ & Hne & ? & ?); (split_and!; [done|congruence|lia..]).
Qed.

Lemma neighbors_symmetric_witness :
  is_inbounds row10 3 0 = true ∧ is_inbounds row10 4 0 = true ∧
  ((4, 0) ∈ neighbors row10 3 0 ↔ (3, 0) ∈ neighbors row10 4 0).
Proof.
  split_and!; [reflexivity|reflexivity|].
  apply (neighbors_symmetric row10 (3, 0) (4, 0)); reflexivity.
Defined.

Lemma filter_all {A} (P : A → Prop) `{!∀ x, Decision (P x)} (l : list A) :
  Forall P l → filter P l = l.
Proof.
  induction 1 as [|x l Hx _ IH]; [done|]. by rewrite filter_cons_True, IH.
Qed.

(** X3.  A cell that is not on the border has all eight neighbours, in the
    order of the offsets. *)
Theorem neighbors_interior (b : Board) (c r : Z) :
  1 ≤ c → c + 1 < cols b → 1 ≤ r → r + 1 < rows b →
  neighbors b c r =
  [(c - 1, r - 1); (c, r - 1); (c + 1, r - 1);
   (c - 1, r);                 (c + 1, r);
   (c - 1, r + 1); (c, r + 1); (c + 1, r + 1)].
Proof.
  intros Hc1 Hc2 Hr1 Hr2. unfold neighbors. rewrite filter_all.
  - unfold deltas. simpl. repeat f_equal; lia.
  - apply Forall_fmap, Forall_forall. intros d (? & ? & _)%elem_of_deltas. simpl.
    apply Is_true_true, is_inbounds_spec. lia.
Qed.

Lemma neighbors_interior_witness :
  neighbors square3 1 1 =
  [(1 - 1, 1 - 1); (1, 1 - 1); (1 + 1, 1 - 1);
   (1 - 1, 1);                 (1 + 1, 1);
   (1 - 1, 1 + 1); (1, 1 + 1); (1 + 1, 1 + 1)].
Proof. apply (neighbors_interior square3 1 1); by vm_compute. Defined.

(** X4.  [index] numbers the positions of the grid row by row: it maps them
    into [0, cols*rows), and the column and the row are recovered from the
    number by remainder and quotient, so that two positions of the grid
    never share a number. *)
Theorem index_round_trip (b : Board) (c r : Z) :
  is_inbounds b c r = true →
  0 ≤ index b c r < cols b * rows b ∧
  index b c r `mod` cols b = c ∧ index b c r `div` cols b = r.
Proof.
  intros [Hc Hr]%is_inbounds_spec. unfold index. split_and!.
  - nia.
  - nia.
  - rewrite Z.add_comm, Z.mod_add by lia. apply Z.mod_small. lia.
  - rewrite Z.add_comm, Z.div_add by lia. rewrite Z.div_small by lia. lia.
Qed.

Lemma index_round_trip_witness :
  is_inbounds square3 2 1 = true ∧
  0 ≤ index square3 2 1 < cols square3 * rows square3 ∧
  index square3 2 1 `mod` cols square3 = 2 ∧ index square3 2 1 `div` cols square3 = 1.
Proof. split; [reflexivity|]. apply (index_round_trip square3 2 1). reflexivity. Defined.

(** ** What a call of [reveal] changes *)

Lemma Forall2_compose {A} (R S T : A → A → Prop) (l1 l2 l3 : list A) :
  (∀ x y z, R x y → S y z → T x z) →
  Forall2 R l1 l2 → Forall2 S l2 l3 → Forall2 T l1 l3.
Proof.
  intros HT H12. revert l3. induction H12; intros l3 H23; inversion H23; subst;
    constructor; eauto.
Qed.

Lemma opened_trans (x y z : Cell) : opened x y → opened y z → opened x z.
Proof. intros [->| ->] [->| ->]; [by left|by right|by right|by right]. Qed.

(** A call of [reveal] is an optional placement followed by the
    revelation of some cells. *)
Lemma reveal_steps (shuffle : list pos → list pos) (b : Board) (c r : Z) (b' : Board) :
  inv b → is_shuffle shuffle → reveal shuffle b c r = Ok b' →
  ∃ b1,
    (b1 = b ∨
     (_mines_placed b = false ∧ is_inbounds b c r = true ∧
      placed b (chosen shuffle b c r) b1)) ∧
    cols b' = cols b1 ∧ rows b' = rows b1 ∧ num_mines b' = num_mines b1 ∧
    _mines_placed b' = _mines_placed b1 ∧
    (game_over b1 = true → game_over b' = true) ∧ (win b1 = true → win b' = true) ∧
    Forall2 opened (cells b1) (cells b').
Proof.
  intros Hinv Hsh Hcall.
  destruct (reveal_cases _ _ _ _ _ (inv_wf _ Hinv) Hcall)
    as [[-> _]|(x & b1 & x1 & Hin & Hgo & Hx & Hr & Hready & Hx1 & Hpath)].
  { exists b. split_and!; try done; [by left|]. apply Forall2_diag. by left. }
  destruct (ready_inv _ _ _ _ _ Hinv Hsh Hin Hready) as (Hinv1 & Hmp1 & _ & _ & Hgo1).
  exists b1. split.
  { destruct Hready as [[_ ->]|[Hmp Hplace]]; [by left|right].
    by destruct (place_mines_Ok _ _ _ _ _ Hinv Hmp Hsh Hplace) as (_ & Hpl & _). }
  destruct Hpath as [[_ ->]|[(_ & Hm & ->)|(_ & Hm & b2 & Hflood & ->)]].
  - split_and!; try done. apply Forall2_diag. by left.
  - split_and!; try done.
    eapply Forall2_impl; [by apply (loss_board_cells b1 _ x1)|].
    intros y z [->|[-> _]]; [by left|by right].
  - pose proof (ready_safe_pos _ _ _ _ _ _ Hinv Hsh Hin Hready Hx1 Hm) as Hsafe.
    destruct (flood_from_click b1 c r (inv_wf _ Hinv1) Hsafe) as (b2' & Hb2' & Hcas).
    assert (b2' = b2) as -> by congruence.
    assert (_mines_placed b2 = true) as Hmp2 by (by rewrite (cas_mines_placed _ _ Hcas)).
    rewrite (check_win_spec b2 (cascade_inv _ _ Hinv1 Hmp1 Hcas) Hmp2).
    assert (Forall2 opened (cells b1) (cells b2)) as Hcells.
    { eapply Forall2_impl; [apply (cas_cells _ _ Hcas)|].
      intros y z [->|(-> & _)]; [by left|by right]. }
    destruct Hcas as [Hc Hrw Hn Hmp' Hgo2 Hw _ _].
    case_match; simpl; split_and!; try done; congruence.
Qed.

Lemma reveal_frame (shuffle : list pos → list pos) (b : Board) (c r : Z)
    (b' : Board) :
  reachable b → is_shuffle shuffle → reveal shuffle b c r = Ok b' →
  cols b' = cols b ∧ rows b' = rows b ∧ num_mines b' = num_mines b ∧
  (game_over b = true → game_over b' = true) ∧ (win b = true → win b' = true) ∧
  (_mines_placed b = true → _mines_placed b' = true) ∧
  Forall2 (λ x y,
      col y = col x ∧ row y = row x ∧
      is_flagged (state y) = is_flagged (state x) ∧
      (is_revealed (state x) = true → is_revealed (state y) = true) ∧
      (_mines_placed b = true →
       is_mine (state y) = is_mine (state x) ∧ adjacent (state y) = adjacent (state x)))
    (cells b) (cells b').
Proof.
  intros Hinv%reachable_inv Hsh Hcall.
  destruct (reveal_steps _ _ _ _ _ Hinv Hsh Hcall)
    as (b1 & Hb1 & Hc & Hr & Hn & Hmp & Hgo & Hw & Hcells).
  destruct Hb1 as [->|(Hmp0 & _ & Hpl)].
  - split_and!; try done; [congruence|].
    eapply Forall2_impl; [done|]. by intros x y [->| ->].
  - destruct Hpl as [Hc1 Hr1 Hn1 _ Hgo1 Hw1 Hmp1 Hcells1 _ _ _].
    split_and!; try congruence.
    + intros Hgo0. apply Hgo. congruence.
    + intros Hw0. apply Hw. congruence.
    + eapply Forall2_compose; [|apply Hcells1|apply Hcells]. simpl.
      intros x y z (Hcol & Hrow & Hrev & Hfl) Hyz. unfold revealed, flagged in *.
      destruct Hyz as [->| ->]; simpl; (split_and!; [done|done|done| |congruence]).
      * congruence.
      * done.
Qed.

(** X6.  Whatever a call of [reveal] that returns does, it keeps the
    dimensions, the mine count and the coordinates and the flag of every
    cell; a revealed cell stays revealed; [game_over], [win] and
    [_mines_placed] are never reset; and once mines are placed, no cell
    changes its [is_mine] or its [adjacent]. *)
Theorem reveal_preserves (shuffle : list pos → list pos) (b : Board) (c r : Z)
    (b' : Board) :
  reachable b → is_shuffle shuffle → reveal shuffle b c r = Ok b' →
  cols b' = cols b ∧ rows b' = rows b ∧ num_mines b' = num_mines b ∧
  (game_over b = true → game_over b' = true) ∧ (win b = true → win b' = true) ∧
  (_mines_placed b = true → _mines_placed b' = true) ∧
  Forall2 (λ x y,
      col y = col x ∧ row y = row x ∧
      is_flagged (state y) = is_flagged (state x) ∧
      (is_revealed (state x) = true → is_revealed (state y) = true) ∧
      (_mines_placed b = true →
       is_mine (state y) = is_mine (state x) ∧ adjacent (state y) = adjacent (state x)))
    (cells b) (cells b').
Proof. apply reveal_frame. Qed.

Lemma reveal_preserves_witness :
  reachable row10_open ∧
  cols row10_lost = cols row10_open ∧ rows row10_lost = rows row10_open ∧
  num_mines row10_lost = num_mines row10_open ∧
  (game_over row10_open = true → game_over row10_lost = true) ∧
  (win row10_open = true → win row10_lost = true) ∧
  (_mines_placed row10_open = true → _mines_placed row10_lost = true) ∧
  Forall2 (λ x y,
      col y = col x ∧ row y = row x ∧
      is_flagged (state y) = is_flagged (state x) ∧
      (is_revealed (state x) = true → is_revealed (state y) = true) ∧
      (_mines_placed row10_open = true →
       is_mine (state y) = is_mine (state x) ∧ adjacent (state y) = adjacent (state x)))
    (cells row10_open) (cells row10_lost).
Proof.
  split; [apply row10_open_reachable|].
  apply (reveal_preserves keep_order row10_open 2 0 row10_lost);
    [apply row10_open_reachable|apply keep_order_shuffle|reflexivity].
Defined.

(** ** [toggle_flag] undoes itself *)

Lemma alter_fix {A} (f : A → A) (l : list A) (k : nat) (x : A) :
  l !! k = Some x → f x = x → alter f k l = l.
Proof.
  revert k. induction l as [|y l IH]; intros [|k] Hk Hf; simplify_eq/=; f_equal; eauto.
Qed.

(** X7.  Two calls of [toggle_flag] at the same position give the board back:
    the second call returns the board the first was given. *)
Theorem toggle_flag_involutive (b : Board) (c r : Z) (b' : Board) :
  reachable b → toggle_flag b c r = Ok b' → toggle_flag b' c r = Ok b.
Proof.
  intros Hinv%reachable_inv Hcall. pose proof (inv_wf _ Hinv) as Hwf.
  destruct (toggle_flag_cases _ _ _ _ Hwf Hcall) as [->|(x & Hin & Hx & Hr & ->)]; [done|].
  unfold toggle_flag.
  change (is_inbounds (write _ _ b) c r) with (is_inbounds b c r). rewrite Hin. simpl.
  change (cell_ref (write (set_is_flagged (negb (flagged x))) (slot b (c, r)) b) c r)
    with (py_resolve (length (alter (set_is_flagged (negb (flagged x)))
                                    (slot b (c, r)) (cells b))) (index b c r)).
  rewrite length_alter. fold (cell_ref b c r). rewrite cell_ref_Ok by done. simpl.
  unfold deref. simpl. rewrite list_lookup_alter_eq, Hx. simpl.
  unfold revealed in Hr. rewrite Hr. f_equal. unfold write. simpl.
  rewrite list_alter_alter_eq, (alter_fix _ _ _ x Hx).
  - by destruct b.
  - simpl. unfold flagged. rewrite negb_involutive. by destruct x as [? ? []].
Qed.

Lemma toggle_flag_involutive_witness :
  reachable row10 ∧ toggle_flag row10_flag 0 0 = Ok row10.
Proof.
  split; [apply row10_reachable|].
  apply (toggle_flag_involutive row10 0 0 row10_flag); [apply row10_reachable|reflexivity].
Defined.

(** ** The layout of [cells] *)

Lemma lookup_bind_const {A B} (f : A → list B) (l : list A) (n i j : nat) (x : A) (y : B) :
  (∀ a, length (f a) = n) → l !! i = Some x → f x !! j = Some y →
  (l ≫= f) !! (i * n + j)%nat = Some y.
Proof.
  intros Hf. revert i. induction l as [|a l IH]; intros [|i] Hi Hj; simplify_eq/=.
  - rewrite lookup_app_l; [done|]. by eapply lookup_lt_Some.
  - rewrite lookup_app_r by (rewrite Hf; lia).
    rewrite Hf. replace (n + i * n + j - n)%nat with (i * n + j)%nat by lia. by apply IH.
Qed.

Lemma positions_lookup (nc nr c r : Z) :
  0 ≤ c < nc → 0 ≤ r < nr → positions nc nr !! Z.to_nat (r * nc + c) = Some (c, r).
Proof.
  intros Hc Hr. unfold positions, range.
  replace (Z.to_nat (r * nc + c)) with (Z.to_nat r * Z.to_nat nc + Z.to_nat c)%nat by nia.
  apply (lookup_bind_const _ _ _ _ _ r).
  - intros a. rewrite (length_bind_const _ _ 1%nat), length_seqZ; [lia|done].
  - rewrite lookup_seqZ_lt by lia. f_equal. lia.
  - replace (Z.to_nat c) with (Z.to_nat c * 1 + 0)%nat by lia.
    apply (lookup_bind_const _ _ _ _ _ c); [done| |done].
    rewrite lookup_seqZ_lt by lia. f_equal. lia.
Qed.

Lemma toggle_flag_frame (b : Board) (c r : Z) (b' : Board) :
  inv b → toggle_flag b c r = Ok b' →
  cols b' = cols b ∧ rows b' = rows b ∧ num_mines b' = num_mines b ∧
  _mines_placed b' = _mines_placed b ∧ game_over b' = game_over b ∧ win b' = win b ∧
  Forall2 (λ x y, col y = col x ∧ row y = row x ∧ mine y = mine x ∧
                  revealed y = revealed x ∧ adjacent (state y) = adjacent (state x))
          (cells b) (cells b').
Proof.
  intros Hinv Hcall.
  destruct (toggle_flag_cases _ _ _ _ (inv_wf _ Hinv) Hcall) as [->|(x & _ & _ & _ & ->)].
  - split_and!; try done. by apply Forall2_diag.
  - split_and!; try done. simpl. by apply Forall2_alter_diag.
Qed.

(** X5.  On every reachable board the cell of the grid position [(c, r)] is
    the entry [cells[index(c, r)]]: the subscript does not raise, and the
    cell found carries the coordinates [c] and [r]. *)
Theorem cells_layout (b : Board) (c r : Z) :
  reachable b → is_inbounds b c r = true →
  ∃ x, py_index (cells b) (index b c r) = Ok x ∧ col x = c ∧ row x = r.
Proof.
  intros Hreach Hin.
  assert (∃ x, cells b !! slot b (c, r) = Some x ∧ col x = c ∧ row x = r)
    as (x & Hx & Hcol & Hrow).
  { revert c r Hin.
    induction Hreach as [ncols nrows mines b Hb|shuffle b c0 r0 b' Hreach IH Hsh Hcall
                        |b c0 r0 b' Hreach IH Hcall]; intros c r Hin.
    - injection Hb as <-. apply is_inbounds_spec in Hin. simpl in *.
      exists (new_cell (c, r)). split; [|done]. unfold slot, index. simpl.
      rewrite list_lookup_fmap, positions_lookup by lia. done.
    - destruct (reveal_frame _ _ _ _ _ Hreach Hsh Hcall)
        as (Hc & Hr & _ & _ & _ & _ & Hcells).
      destruct (IH c r) as (x & Hx & Hcol & Hrow);
        [unfold is_inbounds in *; by rewrite <- Hc, <- Hr|].
      destruct (Forall2_lookup_l _ _ _ _ _ Hcells Hx) as (y & Hy & Hcol' & Hrow' & _).
      exists y. unfold slot, index in *. rewrite Hc. split_and!; congruence.
    - destruct (toggle_flag_frame _ _ _ _ (reachable_inv _ Hreach) Hcall)
        as (Hc & Hr & _ & _ & _ & _ & Hcells).
      destruct (IH c r) as (x & Hx & Hcol & Hrow);
        [unfold is_inbounds in *; by rewrite <- Hc, <- Hr|].
      destruct (Forall2_lookup_l _ _ _ _ _ Hcells Hx) as (y & Hy & Hcol' & Hrow' & _).
      exists y. unfold slot, index in *. rewrite Hc. split_and!; congruence. }
  exists x. split; [|done].
  pose proof (index_range b c r (inv_wf _ (reachable_inv _ Hreach)) Hin) as Hrange.
  rewrite <- (Z2Nat.id (index b c r)) by lia. by apply py_index_Ok.
Qed.

Lemma cells_layout_witness :
  reachable row10_open ∧
  ∃ x, py_index (cells row10_open) (index row10_open 7 0) = Ok x ∧ col x = 7 ∧ row x = 0.
Proof.
  split; [apply row10_open_reachable|].
  apply (cells_layout row10_open 7 0); [apply row10_open_reachable|reflexivity].
Defined.

(** ** Mines and adjacency counts on reachable boards *)

Lemma neighbors_frame (b b' : Board) (c r : Z) :
  cols b' = cols b → rows b' = rows b → neighbors b' c r = neighbors b c r.
Proof.
  intros Hc Hr. unfold neighbors. apply list_filter_iff. intros p.
  unfold is_inbounds. by rewrite Hc, Hr.
Qed.

Lemma adjacency_ok_frame (b b' : Board) (p : pos) :
  cols b' = cols b → rows b' = rows b →
  Forall2 (λ x y, mine y = mine x ∧ adjacent (state y) = adjacent (state x))
          (cells b) (cells b') →
  adjacency_ok b p → adjacency_ok b' p.
Proof.
  intros Hc Hr Hcells Hok y Hy Hm.
  assert (slot b' p = slot b p) as Hs by (unfold slot, index; by rewrite Hc).
  rewrite Hs in Hy.
  destruct (Forall2_lookup_r _ _ _ _ _ Hcells Hy) as (x & Hx & Hmx & Hax).
  rewrite Hax, (Hok x Hx) by congruence.
  unfold mine_neighbors. rewrite (neighbors_frame b b') by done. do 2 f_equal.
  apply list_filter_iff. intros q. rewrite (mine_at_preserved b b'); [done|done|].
  eapply Forall2_impl; [done|]. by intros ?? [? _].
Qed.

Lemma reachable_adjacency (b : Board) :
  reachable b → _mines_placed b = true →
  ∀ p, is_inbounds b p.1 p.2 = true → adjacency_ok b p.
Proof.
  induction 1 as [ncols nrows mines b Hb|shuffle b c0 r0 b' Hreach IH Hsh Hcall
                 |b c0 r0 b' Hreach IH Hcall]; intros Hmp p Hin.
  - by injection Hb as <-.
  - destruct (reveal_steps _ _ _ _ _ (reachable_inv _ Hreach) Hsh Hcall)
      as (b1 & Hb1 & Hc & Hr & _ & Hmp1 & _ & _ & Hcells).
    apply (adjacency_ok_frame b1); [done|done| |].
    { eapply Forall2_impl; [done|]. by intros x y [->| ->]. }
    assert (is_inbounds b1 p.1 p.2 = true) as Hin1
      by (unfold is_inbounds in *; by rewrite <- Hc, <- Hr).
    destruct Hb1 as [->|(_ & _ & Hpl)]; [apply IH; congruence|].
    apply (pl_adjacent _ _ _ Hpl). unfold is_inbounds in *.
    by rewrite <- (pl_cols _ _ _ Hpl), <- (pl_rows _ _ _ Hpl).
  - destruct (toggle_flag_frame _ _ _ _ (reachable_inv _ Hreach) Hcall)
      as (Hc & Hr & _ & Hmp' & _ & _ & Hcells).
    apply (adjacency_ok_frame b); [done|done| |].
    { eapply Forall2_impl; [done|]. by intros x y (_ & _ & ? & _ & ?). }
    apply IH; [congruence|]. unfold is_inbounds in *. by rewrite <- Hc, <- Hr.
Qed.

(** X8.  Once mines are placed, on every reachable board, a cell that is no
    mine holds in [adjacent] the number of mines among its in-bounds
    neighbours, a number between 0 and 8. *)
Theorem adjacency_correct (b : Board) (c r : Z) (x : Cell) :
  reachable b → _mines_placed b = true → is_inbounds b c r = true →
  cells b !! slot b (c, r) = Some x → is_mine (state x) = false →
  adjacent (state x) =
    Z.of_nat (length (filter (λ q, mine_at b q) (neighbors b c r))) ∧
  0 ≤ adjacent (state x) ≤ 8.
Proof.
  intros Hreach Hmp Hin Hx Hm.
  pose proof (reachable_adjacency b Hreach Hmp (c, r) Hin x Hx Hm) as Hadj.
  unfold mine_neighbors in Hadj. simpl in Hadj. split; [done|]. rewrite Hadj.
  pose proof (length_filter (λ q, mine_at b q) (neighbors b c r)).
  pose proof (length_neighbors b c r). lia.
Qed.

Lemma adjacency_correct_witness :
  reachable row11_lost ∧
  adjacent (state (mkCell 4 0 (mkCellState false false false 1))) =
    Z.of_nat (length (filter (λ q, mine_at row11_lost q) (neighbors row11_lost 4 0))) ∧
  0 ≤ adjacent (state (mkCell 4 0 (mkCellState false false false 1))) ≤ 8.
Proof.
  split; [apply row11_lost_reachable|].
  apply (adjacency_correct row11_lost 4 0); [apply row11_lost_reachable|reflexivity..].
Defined.

(** Without a call that raised, the mines are [num_mines] many. *)
Lemma mine_count_exact (b : Board) :
  reachable b → _mines_placed b = true →
  Z.of_nat (count mine (cells b)) = Z.max 0 (num_mines b) ∧
  Z.of_nat (count mine (cells b)) < cols b * rows b.
Proof.
  intros Hreach Hmp. pose proof (reachable_inv _ Hreach) as Hinv.
  destruct (inv_placed _ Hinv Hmp) as (Hc & Hr & Hcount). split; [lia|].
  (* some cell is no mine: the first click was in the safe zone *)
  assert (∃ x, x ∈ cells b ∧ mine x = false) as (x & Hx & Hm).
  { clear Hc Hr Hcount Hinv.
    induction Hreach as [ncols nrows mines b Hb|shuffle b c0 r0 b' Hreach IH Hsh Hcall
                        |b c0 r0 b' Hreach IH Hcall].
    - by injection Hb as <-.
    - pose proof (reachable_inv _ Hreach) as Hinv.
      destruct (reveal_steps _ _ _ _ _ Hinv Hsh Hcall)
        as (b1 & Hb1 & Hc & Hr & _ & Hmp1 & _ & _ & Hcells).
      assert (∃ x, x ∈ cells b1 ∧ mine x = false) as (x & [k Hk]%list_elem_of_lookup & Hm).
      { destruct Hb1 as [->|(_ & Hin & Hpl)]; [apply IH; congruence|].
        assert (mine_at b1 (c0, r0) = false) as Hfree.
        { destruct (mine_at b1 (c0, r0)) eqn:E; [|done]. exfalso.
          apply (pl_mines _ _ _ Hpl (c0, r0) Hin) in E.
          apply (chosen_not_forbidden shuffle Hsh b c0 r0 (c0, r0) E). by left. }
        assert (wf b1) as Hwf1.
        { pose proof (inv_wf _ Hinv) as Hwf. unfold wf in *.
          rewrite <- (Forall2_length _ _ _ (pl_cells _ _ _ Hpl)).
          by rewrite (pl_cols _ _ _ Hpl), (pl_rows _ _ _ Hpl). }
        destruct (mine_at_lookup b1 (c0, r0) Hwf1) as (x & Hx & Hmx); [|done|].
        { unfold is_inbounds in *. by rewrite (pl_cols _ _ _ Hpl), (pl_rows _ _ _ Hpl). }
        exists x. split; [by eapply list_elem_of_lookup_2|done]. }
      destruct (Forall2_lookup_l _ _ _ _ _ Hcells Hk) as (y & Hy & Hxy).
      exists y. split; [by eapply list_elem_of_lookup_2|]. by destruct Hxy as [->| ->].
    - destruct (toggle_flag_frame _ _ _ _ (reachable_inv _ Hreach) Hcall)
        as (_ & _ & _ & Hmp' & _ & _ & Hcells).
      destruct IH as (x & [k Hk]%list_elem_of_lookup & Hm); [congruence|].
      destruct (Forall2_lookup_l _ _ _ _ _ Hcells Hk) as (y & Hy & _ & _ & Hmy & _).
      exists y. split; [by eapply list_elem_of_lookup_2|congruence]. }
  pose proof (length_filter_lt (λ x, mine x) (cells b) x Hx) as Hlt.
  unfold count. pose proof (inv_wf _ Hinv) as Hwf. unfold wf in Hwf.
  assert (length (filter (λ x, mine x) (cells b)) < length (cells b))%nat.
  { apply Hlt. rewrite Hm. by intros []. }
  nia.
Qed.

(** X9.  Once mines are placed, the board holds at least [num_mines] mines
    (a call of [reveal] that raised has left its mines behind).  When no
    call has raised, as is the case whenever [num_mines <= cols*rows - 9],
    the mines are exactly [num_mines] many (none when [num_mines] is
    negative), and fewer than the cells. *)
Theorem mine_count (b : Board) :
  held b → _mines_placed b = true →
  Z.max 0 (num_mines b) ≤ Z.of_nat (count mine (cells b)) ∧
  (reachable b ∨ num_mines b ≤ cols b * rows b - 9 →
   Z.of_nat (count mine (cells b)) = Z.max 0 (num_mines b) ∧
   Z.of_nat (count mine (cells b)) < cols b * rows b).
Proof.
  intros Hheld Hmp. split.
  - destruct (hi_placed _ (held_held_inv _ Hheld) Hmp) as (_ & _ & _ & Hle). lia.
  - intros [Hreach|Hfit]; apply mine_count_exact; auto using held_reachable.
Qed.

(** The row of five, which holds four mines for a [num_mines] of three
    after a call that raised; and the row of eleven, where no call has
    raised. *)
Lemma mine_count_witness :
  (held strip5_lost ∧
   Z.max 0 (num_mines strip5_lost) ≤ Z.of_nat (count mine (cells strip5_lost))) ∧
  (reachable row11_lost ∧
   Z.of_nat (count mine (cells row11_lost)) = Z.max 0 (num_mines row11_lost) ∧
   Z.of_nat (count mine (cells row11_lost)) < cols row11_lost * rows row11_lost).
Proof.
  split.
  - split; [apply strip5_lost_held|].
    apply (proj1 (mine_count strip5_lost strip5_lost_held eq_refl)).
  - split; [apply row11_lost_reachable|].
    apply (proj2 (mine_count row11_lost (reachable_held _ row11_lost_reachable) eq_refl)).
    left. apply row11_lost_reachable.
Defined.

(** ** Mines and the end of the round *)

Lemma reachable_lost_mines (b : Board) :
  reachable b → game_over b = true → Forall (λ x, mine x = true → revealed x = true) (cells b).
Proof.
  induction 1 as [ncols nrows mines b Hb|shuffle b c r b' Hreach IH Hsh Hcall
                 |b c r b' Hreach IH Hcall]; intros Hgo'.
  - by injection Hb as <-.
  - pose proof (reachable_inv _ Hreach) as Hinv.
    destruct (reveal_cases _ _ _ _ _ (inv_wf _ Hinv) Hcall)
      as [[-> _]|(x & b1 & x1 & Hin & Hgo & Hx & Hr & Hready & Hx1 & Hpath)]; [auto|].
    destruct (ready_inv _ _ _ _ _ Hinv Hsh Hin Hready) as (Hinv1 & Hmp1 & _ & _ & Hgo1).
    destruct Hpath as [[_ ->]|[(_ & Hm & ->)|(_ & Hm & b2 & Hflood & ->)]].
    + congruence.
    + rewrite (loss_board_cells_eq b1 _ x1 Hx1 Hm). apply Forall_fmap, Forall_forall.
      intros y _. simpl. unfold mine, revealed.
      destruct (is_mine (state y)) eqn:E; simpl; [done|congruence].
    + pose proof (ready_safe_pos _ _ _ _ _ _ Hinv Hsh Hin Hready Hx1 Hm) as Hsafe.
      destruct (flood_from_click b1 c r (inv_wf _ Hinv1) Hsafe) as (b2' & Hb2' & Hcas).
      assert (b2' = b2) as -> by congruence.
      destruct (check_win_frame b2) as (_ & _ & _ & _ & Hgo2).
      rewrite Hgo2, (cas_game_over _ _ Hcas) in Hgo'. congruence.
  - destruct (toggle_flag_frame _ _ _ _ (reachable_inv _ Hreach) Hcall)
      as (_ & _ & _ & _ & Hgo & _ & Hcells).
    eapply Forall_transfer; [done| |apply IH; congruence].
    intros x y (_ & _ & -> & -> & _). done.
Qed.

(** X10.  On every reachable board, as long as [game_over] is false no mine is
    revealed (the cascade never uncovers one), and once [game_over] is
    true every mine is revealed. *)
Theorem mines_and_game_over (b : Board) :
  reachable b →
  (game_over b = false →
   Forall (λ x, is_mine (state x) = true → is_revealed (state x) = false) (cells b)) ∧
  (game_over b = true →
   Forall (λ x, is_mine (state x) = true → is_revealed (state x) = true) (cells b)).
Proof.
  intros Hreach. split; intros Hgo.
  - eapply Forall_impl; [apply (inv_hidden_mines _ (reachable_inv _ Hreach) Hgo)|].
    intros x Hx Hm. simpl in Hx. unfold mine, revealed in Hx.
    destruct (is_revealed (state x)); [|done]. rewrite Hx in Hm; done.
  - by apply reachable_lost_mines.
Qed.

Lemma mines_and_game_over_witness :
  reachable row11_lost ∧
  (game_over row11_lost = false →
   Forall (λ x, is_mine (state x) = true → is_revealed (state x) = false)
          (cells row11_lost)) ∧
  (game_over row11_lost = true →
   Forall (λ x, is_mine (state x) = true → is_revealed (state x) = true)
          (cells row11_lost)).
Proof.
  split; [apply row11_lost_reachable|].
  apply (mines_and_game_over row11_lost). apply row11_lost_reachable.
Defined.

(** ** How a call of [reveal] ends *)

(** X11.  On a reachable board a call of [reveal] always ends, and it ends in
    one of two ways: it raises [IndexError] exactly when it is the call
    that places the mines (no mines placed yet, position in bounds) and
    [num_mines] exceeds the size of the pool, [cols*rows] less the safe
    zone; in every other case it returns. *)
Theorem reveal_outcome (shuffle : list pos → list pos) (b : Board) (c r : Z) :
  reachable b → is_shuffle shuffle →
  (reveal shuffle b c r = IndexError ↔
   _mines_placed b = false ∧ is_inbounds b c r = true ∧
   cols b * rows b - Z.of_nat (length ((c, r) :: neighbors b c r)) < num_mines b) ∧
  (reveal shuffle b c r ≠ IndexError → ∃ b', reveal shuffle b c r = Ok b').
Proof.
  intros Hreach Hsh.
  destruct (_mines_placed b) eqn:Hmp.
  { destruct (reveal_returns shuffle b c r Hreach Hsh) as [b' Hb']; [by left|].
    rewrite Hb'. split; [|eauto]. split; [done|]. by intros (? & _). }
  destruct (is_inbounds b c r) eqn:Hin.
  2:{ destruct (reveal_returns shuffle b c r Hreach Hsh) as [b' Hb']; [by right; left|].
      rewrite Hb'. split; [|eauto]. split; [done|]. by intros (_ & ? & _). }
  destruct (Z.le_gt_cases (num_mines b)
              (cols b * rows b - Z.of_nat (length ((c, r) :: neighbors b c r)))) as [Hle|Hgt].
  - destruct (reveal_returns shuffle b c r Hreach Hsh) as [b' Hb']; [by right; right|].
    rewrite Hb'. split; [|eauto]. split; [done|]. intros (_ & _ & ?). lia.
  - rewrite reveal_raises by done. split; [done|]. by intros [].
Qed.

Lemma reveal_outcome_witness :
  reachable square3 ∧
  (reveal keep_order square3 1 1 = IndexError ↔
   _mines_placed square3 = false ∧ is_inbounds square3 1 1 = true ∧
   cols square3 * rows square3 - Z.of_nat (length ((1, 1) :: neighbors square3 1 1))
   < num_mines square3) ∧
  (reveal keep_order square3 1 1 ≠ IndexError →
   ∃ b', reveal keep_order square3 1 1 = Ok b').
Proof.
  assert (reachable square3) as Hreach by (by apply (reach_init 3 3 1)).
  split; [done|].
  apply (reveal_outcome keep_order square3 1 1); [done|apply keep_order_shuffle].
Defined.

(** X12.  Once mines are placed, a call of [reveal] on a flagged cell that is
    not revealed returns the board unchanged. *)
Theorem reveal_flagged_noop (shuffle : list pos → list pos) (b : Board) (c r : Z)
    (x : Cell) :
  reachable b → _mines_placed b = true → is_inbounds b c r = true →
  cells b !! slot b (c, r) = Some x → is_flagged (state x) = true →
  reveal shuffle b c r = Ok b.
Proof.
  intros Hinv%reachable_inv Hmp Hin Hx Hf. pose proof (inv_wf _ Hinv) as Hwf.
  unfold reveal. rewrite Hin. simpl. destruct (game_over b); [done|].
  rewrite cell_ref_Ok by done. simpl. rewrite (deref_Ok _ _ _ Hx). simpl.
  destruct (is_revealed (state x)); [done|]. rewrite Hmp. simpl.
  rewrite (deref_Ok _ _ _ Hx). simpl. by rewrite Hf.
Qed.

Lemma reveal_flagged_noop_witness :
  reachable row11_open ∧ reveal keep_order row11_open 2 0 = Ok row11_open.
Proof.
  assert (reachable row11_open) as Hreach.
  { apply (reach_reveal keep_order row11_flag 0 0); [|apply keep_order_shuffle|reflexivity].
    apply (reach_toggle_flag row11 2 0); [|reflexivity]. by apply (reach_init 11 1 2). }
  split; [done|].
  apply (reveal_flagged_noop keep_order row11_open 2 0
           (mkCell 2 0 (mkCellState true false true 0))); [done|reflexivity..].
Defined.

(** ** The cascade reveals the clicked cell and closes zero regions *)

Lemma visit_reveals (b : Board) (p : pos) (rest : list pos) (x : Cell)
    (b1 : Board) (st1 : list pos) :
  wf b → is_inbounds b p.1 p.2 = true → cells b !! slot b p = Some x →
  revealed x = false → flagged x = false →
  visit b p rest = Ok (b1, st1) →
  cells b1 = alter (set_is_revealed true) (slot b p) (cells b) ∧
  (adjacent (state x) = 0 →
   foldM (push_neighbor b1) (neighbors b p.1 p.2) rest = Ok st1) ∧
  (adjacent (state x) ≠ 0 → st1 = rest).
Proof.
  intros Hwf Hin Hx Hr Hf. unfold visit. destruct p as [c r]; simpl in *.
  rewrite cell_ref_Ok by done. simpl. rewrite (deref_Ok _ _ _ Hx). simpl.
  unfold revealed, flagged in *. rewrite Hr, Hf. simpl.
  destruct (Z.eqb_spec (adjacent (state x)) 0) as [Ha|Ha].
  - intros (st & Hst & [= <- <-])%rbind_Ok. split_and!; [done|done|done].
  - intros [= <- <-]. split_and!; [done|done|done].
Qed.

Lemma flood_reveals_click (b : Board) (c r : Z) (x : Cell) (b2 : Board) :
  wf b → safe_pos b (c, r) → cells b !! slot b (c, r) = Some x →
  revealed x = false → flagged x = false →
  flood (flood_fuel b) b [(c, r)] = Ok b2 →
  ∃ y, cells b2 !! slot b (c, r) = Some y ∧ revealed y = true.
Proof.
  intros Hwf Hsafe Hx Hr Hf. unfold flood_fuel.
  set (fuel := (9 * length (cells b) + 1)%nat).
  replace (9 * length (cells b) + 2)%nat with (S fuel) by (unfold fuel; lia).
  cbn [flood].
  destruct (visit_spec b (c, r) [] Hwf Hsafe) as (b1 & st1 & Hv & Hcas & Hst & Hlt);
    [constructor|].
  rewrite Hv. cbn [rbind fst snd]. intros Hflood.
  destruct (visit_reveals b (c, r) [] x b1 st1 Hwf (proj1 Hsafe) Hx Hr Hf Hv) as (Hc1 & _).
  destruct (flood_spec fuel b1 st1) as (b2' & Hb2' & Hcas');
    [by eapply cascade_wf|done| |].
  { pose proof (count_le_length hidden (cells b)). unfold fuel. simpl in Hlt. lia. }
  assert (b2' = b2) as -> by congruence.
  assert (cells b1 !! slot b (c, r) = Some (set_is_revealed true x)) as Hx1
    by (by rewrite Hc1, list_lookup_alter_eq, Hx).
  destruct (Forall2_lookup_l _ _ _ _ _ (cas_cells _ _ Hcas') Hx1) as (y & Hy & Hxy).
  exists y. split; [done|]. by destruct Hxy as [->|(-> & _)].
Qed.

(** A call of [reveal] on an unflagged cell of the grid that does not
    end the round leaves that cell revealed. *)
Lemma reveal_click_revealed (shuffle : list pos → list pos) (b : Board) (c r : Z)
    (x : Cell) (b' : Board) :
  inv b → is_shuffle shuffle → reveal shuffle b c r = Ok b' →
  is_inbounds b c r = true → cells b !! slot b (c, r) = Some x → flagged x = false →
  game_over b' = false →
  ∃ y, cells b' !! slot b (c, r) = Some y ∧ revealed y = true.
Proof.
  intros Hinv Hsh Hcall Hin Hx Hf Hgo'.
  destruct (reveal_cases _ _ _ _ _ (inv_wf _ Hinv) Hcall)
    as [[-> [?|[?|(y & Hy & Hry)]]]
       |(y & b1 & x1 & _ & Hgo & Hy & Hr & Hready & Hx1 & Hpath)];
    [congruence|congruence|eauto|].
  assert (y = x) as -> by congruence.
  destruct (ready_inv _ _ _ _ _ Hinv Hsh Hin Hready) as (Hinv1 & Hmp1 & Hc1 & _ & Hgo1).
  destruct (ready_frame _ _ _ _ _ Hinv Hsh Hready) as (_ & _ & _ & Hcells).
  destruct (Forall2_lookup_lr _ _ _ _ _ _ Hcells Hx Hx1) as (_ & _ & Hr1 & Hf1).
  destruct Hpath as [[Hf1' _]|[(_ & _ & ->)|(_ & Hm & b2 & Hflood & ->)]];
    [congruence|done|].
  pose proof (ready_safe_pos _ _ _ _ _ _ Hinv Hsh Hin Hready Hx1 Hm) as Hsafe.
  assert (slot b1 (c, r) = slot b (c, r)) as Hs by (unfold slot, index; by rewrite Hc1).
  destruct (flood_reveals_click b1 c r x1 b2 (inv_wf _ Hinv1) Hsafe) as (z & Hz & Hrz);
    [congruence|congruence|congruence|done|].
  rewrite Hs in Hz.
  assert (Forall2 opened (cells b2) (cells (_check_win b2))) as Hwin.
  { unfold _check_win. case_match; simpl; [|apply Forall2_diag; by left].
    apply Forall2_fmap_diag. intros w. case_match; [by right|by left]. }
  destruct (Forall2_lookup_l _ _ _ _ _ Hwin Hz) as (w & Hw & Hzw).
  exists w. split; [done|]. by destruct Hzw as [->| ->].
Qed.

(** X13.  A second call of [reveal] at the same position changes nothing: it
    returns the board that the first call returned. *)
Theorem reveal_idempotent (shuffle shuffle' : list pos → list pos) (b : Board) (c r : Z)
    (b' : Board) :
  reachable b → is_shuffle shuffle → is_shuffle shuffle' →
  reveal shuffle b c r = Ok b' → reveal shuffle' b' c r = Ok b'.
Proof.
  intros Hreach Hsh Hsh' Hcall. pose proof (reachable_inv _ Hreach) as Hinv.
  pose proof (inv_wf _ (reveal_inv _ _ _ _ _ Hinv Hsh Hcall)) as Hwf'.
  destruct (reveal_frame _ _ _ _ _ Hreach Hsh Hcall) as (Hc & Hr & _ & _ & _ & _ & Hcells).
  destruct (game_over b') eqn:Hgo'.
  { unfold reveal at 1. by rewrite Hgo', orb_true_r. }
  destruct (is_inbounds b c r) eqn:Hin.
  2:{ unfold reveal at 1. unfold is_inbounds in *. by rewrite Hc, Hr, Hin. }
  assert (is_inbounds b' c r = true) as Hin'
    by (unfold is_inbounds in *; by rewrite Hc, Hr).
  assert (slot b' (c, r) = slot b (c, r)) as Hs by (unfold slot, index; by rewrite Hc).
  destruct (lookup_slot b' (c, r) Hwf' Hin') as [y Hy].
  destruct (is_revealed (state y)) eqn:Hry.
  { unfold reveal at 1. rewrite Hin', Hgo'. simpl. rewrite cell_ref_Ok by done. simpl.
    rewrite (deref_Ok _ _ _ Hy). simpl. by rewrite Hry. }
  (* the clicked cell is still hidden: the first call stopped at its flag *)
  destruct (reveal_cases _ _ _ _ _ (inv_wf _ Hinv) Hcall)
    as [[-> [?|[?|(z & Hz & Hrz)]]]
       |(x & b1 & x1 & _ & Hgo & Hx & Hrx & Hready & Hx1 & Hpath)].
  - congruence.
  - congruence.
  - unfold revealed in Hrz. congruence.
  - destruct (ready_inv _ _ _ _ _ Hinv Hsh Hin Hready) as (Hinv1 & Hmp1 & _ & _ & _).
    destruct (ready_frame _ _ _ _ _ Hinv Hsh Hready) as (_ & _ & _ & Hcells1).
    destruct (Forall2_lookup_lr _ _ _ _ _ _ Hcells1 Hx Hx1) as (_ & _ & _ & Hf1).
    destruct Hpath as [[Hf1' ->]|[(_ & _ & ->)|(Hf1' & _)]].
    + rewrite (reveal_unrevealed shuffle' b1 c r y Hwf') by done.
      rewrite Hmp1. simpl. rewrite (deref_Ok _ _ _ Hy). simpl.
      rewrite Hs in Hy. assert (y = x1) as -> by congruence.
      unfold flagged in Hf1'. by rewrite Hf1'.
    + done.
    + destruct (reveal_click_revealed _ _ _ _ _ _ Hinv Hsh Hcall Hin Hx) as (z & Hz & Hrz);
        [congruence|done|].
      rewrite Hs in Hy. unfold revealed in Hrz. congruence.
Qed.

Lemma reveal_idempotent_witness :
  reachable row10_open ∧ reveal keep_order row10_won 9 0 = Ok row10_won.
Proof.
  split; [apply row10_open_reachable|].
  apply (reveal_idempotent keep_order keep_order row10_open 9 0 row10_won);
    [apply row10_open_reachable|apply keep_order_shuffle|apply keep_order_shuffle
    |reflexivity].
Defined.

Lemma settled_cascade (b b' : Board) (q : pos) :
  cascade b b' → settled b q → settled b' q.
Proof.
  intros Hcas (y & Hy & Hsettled). rewrite <- (cascade_slot b b') in Hy by done.
  destruct (Forall2_lookup_l _ _ _ _ _ (cas_cells _ _ Hcas) Hy) as (z & Hz & Hyz).
  exists z. split; [done|]. destruct Hyz as [->|(-> & _)]; [done|by left].
Qed.

(** The loop that appends the neighbours keeps the old entries, and
    every neighbour it does not append is settled. *)
Lemma push_closed (b : Board) (l : list pos) :
  wf b → Forall (λ q, is_inbounds b q.1 q.2 = true) l →
  ∀ st st', foldM (push_neighbor b) l st = Ok st' →
            (∀ q, q ∈ st → q ∈ st') ∧ (∀ q, q ∈ l → q ∈ st' ∨ settled b q).
Proof.
  intros Hwf. induction 1 as [|q l Hq _ IH]; intros st st'; simpl.
  { intros [= <-]. split; [done|]. by intros q ?%elem_of_nil. }
  unfold push_neighbor at 1. destruct (lookup_slot b q Hwf Hq) as [x Hx].
  rewrite cell_ref_Ok by done. simpl.
  replace (slot b (q.1, q.2)) with (slot b q) by (by destruct q).
  rewrite (deref_Ok _ _ _ Hx). simpl.
  destruct (negb (is_revealed (state x)) && negb (is_flagged (state x))
            && negb (is_mine (state x))) eqn:E; intros Hrest.
  - destruct (IH _ _ Hrest) as [Hkeep Hnew]. split.
    + intros q' Hq'. apply Hkeep. by right.
    + intros q' [->|Hq']%elem_of_cons; [left; apply Hkeep; by left|by apply Hnew].
  - destruct (IH _ _ Hrest) as [Hkeep Hnew]. split; [done|].
    intros q' [->|Hq']%elem_of_cons; [|by apply Hnew]. right. exists x. split; [done|].
    unfold revealed, flagged, mine.
    destruct (is_revealed (state x)); [by left|].
    destruct (is_flagged (state x)); [by right; left|].
    destruct (is_mine (state x)); [by right; right|done].
Qed.

Lemma visit_closed (b0 b : Board) (p : pos) (rest : list pos) (b1 : Board)
    (st1 : list pos) :
  wf b → safe_pos b p → visit b p rest = Ok (b1, st1) → cascade b b1 →
  closed_from b0 b (p :: rest) → closed_from b0 b1 st1.
Proof.
  intros Hwf (Hin & x & Hx & Hm) Hv Hcas Hclosed.
  destruct (revealed x || flagged x) eqn:E.
  { (* the entry is skipped *)
    assert (b1 = b ∧ st1 = rest) as [-> ->].
    { unfold visit in Hv. destruct p as [c r]; simpl in *.
      rewrite cell_ref_Ok in Hv by done. simpl in Hv.
      rewrite (deref_Ok _ _ _ Hx) in Hv. simpl in Hv.
      unfold revealed, flagged in E. rewrite E in Hv. by injection Hv as <- <-. }
    intros p' Hp' Hzero q Hq.
    destruct (Hclosed p' Hp' Hzero q Hq) as [[->|Hrest]%elem_of_cons|Hs]; [|by left|by right].
    right. exists x. split; [done|]. apply orb_true_iff in E as [?|?]; [by left|by right; left]. }
  apply orb_false_iff in E as [Hr Hf].
  destruct (visit_reveals b p rest x b1 st1 Hwf Hin Hx Hr Hf Hv) as (Hc1 & Hzero1 & Hnz1).
  assert (∀ q, q ∈ rest → q ∈ st1) as Hkeep.
  { destruct (Z.eq_dec (adjacent (state x)) 0) as [Ha|Ha]; [|by rewrite (Hnz1 Ha)].
    refine (proj1 (push_closed b1 _ (cascade_wf _ _ Hcas Hwf) _ _ _ (Hzero1 Ha))).
    apply Forall_forall. intros q Hq. rewrite (cascade_is_inbounds b) by done.
    by eapply neighbors_inbounds. }
  intros p' Hp' (x0 & y & Hx0 & Hy & Hr0 & Hry & Hay) q Hq.
  rewrite (cascade_is_inbounds b) in Hp' by done.
  rewrite (cascade_slot b) in Hx0, Hy by done.
  rewrite (neighbors_frame b b1) in Hq by (by destruct Hcas).
  destruct (decide (p' = p)) as [->|Hne].
  - (* the cell revealed by this round *)
    rewrite Hc1, list_lookup_alter_eq, Hx in Hy. simpl in Hy. injection Hy as <-.
    simpl in Hay.
    refine (proj2 (push_closed b1 _ (cascade_wf _ _ Hcas Hwf) _ _ _ (Hzero1 Hay)) q Hq).
    apply Forall_forall. intros q' Hq'. rewrite (cascade_is_inbounds b) by done.
    by eapply neighbors_inbounds.
  - rewrite Hc1, list_lookup_alter_ne in Hy
      by (intros Heq; apply Hne; symmetry; by apply (slot_inj b)).
    destruct (Hclosed p' Hp') with (q := q) as [[->|Hrest]%elem_of_cons|Hs].
    + by exists x0, y.
    + done.
    + right. exists (set_is_revealed true x). split; [|by left].
      by rewrite (cascade_slot b), Hc1, list_lookup_alter_eq, Hx.
    + left. by apply Hkeep.
    + right. by eapply settled_cascade.
Qed.

Lemma flood_closed (fuel : nat) :
  ∀ (b0 b : Board) (to_visit : list pos) (b' : Board),
    wf b → Forall (safe_pos b) to_visit → cascade b0 b →
    closed_from b0 b to_visit → flood fuel b to_visit = Ok b' →
    closed_from b0 b' [].
Proof.
  induction fuel as [|fuel IH]; intros b0 b st b' Hwf Hst Hcas0 Hclosed; [done|].
  destruct st as [|p rest]; simpl; [by intros [= <-]|].
  apply Forall_cons in Hst as [Hp Hrest].
  destruct (visit_spec b p rest Hwf Hp Hrest) as (b1 & st1 & Hv & Hcas & Hst1 & _).
  rewrite Hv. simpl. apply IH; [by eapply cascade_wf|done|by eapply cascade_trans|].
  by eapply visit_closed.
Qed.

Lemma slot_frame (b b' : Board) (p : pos) : cols b' = cols b → slot b' p = slot b p.
Proof. intros Hc. unfold slot, index. by rewrite Hc. Qed.

Lemma is_inbounds_frame (b b' : Board) (c r : Z) :
  cols b' = cols b → rows b' = rows b → is_inbounds b' c r = is_inbounds b c r.
Proof. intros Hc Hr. unfold is_inbounds. by rewrite Hc, Hr. Qed.

Lemma no_mine_neighbor (b : Board) (p q : pos) :
  mine_neighbors b p = 0 → q ∈ neighbors b p.1 p.2 → mine_at b q = false.
Proof.
  unfold mine_neighbors. intros Hzero Hq. destruct (mine_at b q) eqn:E; [|done].
  assert (q ∈ filter (λ q, mine_at b q) (neighbors b p.1 p.2)) as Hin.
  { apply list_elem_of_filter. split; [by rewrite E|done]. }
  destruct (filter (λ q, mine_at b q) (neighbors b p.1 p.2)); [|simpl in Hzero; lia].
  by apply elem_of_nil in Hin.
Qed.

(** Where a call of [reveal] that does not end the round reveals a cell
    with a zero count, it leaves every neighbour of that cell revealed or
    flagged. *)
Lemma reveal_closed (shuffle : list pos → list pos) (b : Board) (c r : Z) (b' : Board) :
  reachable b → is_shuffle shuffle → reveal shuffle b c r = Ok b' →
  game_over b' = false →
  ∀ p x y q,
    is_inbounds b p.1 p.2 = true →
    cells b !! slot b p = Some x → cells b' !! slot b p = Some y →
    revealed x = false → revealed y = true → adjacent (state y) = 0 →
    q ∈ neighbors b p.1 p.2 →
    ∃ z, cells b' !! slot b q = Some z ∧ (revealed z = true ∨ flagged z = true).
Proof.
  intros Hreach Hsh Hcall Hgo' p x y q Hp Hx Hy Hrx Hry Hay Hq.
  pose proof (reachable_inv _ Hreach) as Hinv.
  assert (reachable b') as Hreach' by (by eapply reach_reveal).
  pose proof (reachable_inv _ Hreach') as Hinv'.
  destruct (reveal_cases _ _ _ _ _ (inv_wf _ Hinv) Hcall)
    as [[-> _]|(xc & b1 & x1 & Hin & Hgo & Hxc & _ & Hready & Hx1 & Hpath)];
    [congruence|].
  destruct (ready_inv _ _ _ _ _ Hinv Hsh Hin Hready) as (Hinv1 & Hmp1 & Hc1 & Hr1 & _).
  destruct (ready_frame _ _ _ _ _ Hinv Hsh Hready) as (_ & _ & _ & Hcells1).
  destruct (Forall2_lookup_l _ _ _ _ _ Hcells1 Hx) as (xp & Hxp & _ & _ & Hrp & _).
  destruct Hpath as [[_ ->]|[(_ & _ & ->)|(_ & Hm & b2 & Hflood & ->)]];
    [congruence|done|].
  pose proof (ready_safe_pos _ _ _ _ _ _ Hinv Hsh Hin Hready Hx1 Hm) as Hsafe.
  destruct (flood_from_click b1 c r (inv_wf _ Hinv1) Hsafe) as (b2' & Hb2' & Hcas).
  assert (b2' = b2) as -> by congruence.
  assert (_mines_placed b2 = true) as Hmp2 by (by rewrite (cas_mines_placed _ _ Hcas)).
  assert (cells (_check_win b2) = cells b2) as Hsame.
  { rewrite (check_win_spec b2 (cascade_inv _ _ Hinv1 Hmp1 Hcas) Hmp2). by case_match. }
  destruct (check_win_frame b2) as (Hcw & Hrw & _).
  assert (cols b2 = cols b ∧ rows b2 = rows b) as [Hc2 Hr2]
    by (destruct Hcas; split; congruence).
  (* the cascade left every zero cell it revealed closed *)
  assert (closed_from b1 b2 []) as Hclosed.
  { apply (flood_closed (flood_fuel b1) b1 b1 [(c, r)] b2);
      [apply (inv_wf _ Hinv1)|by constructor|apply cascade_refl| |done].
    intros p' _ (x0 & x' & H0 & H' & Hr0 & Hr' & _). congruence. }
  rewrite Hsame in Hy |- *.
  destruct (Hclosed p) with (q := q) as [Hnil|(z & Hz & Hsettled)].
  - by rewrite (is_inbounds_frame b).
  - exists xp, y. rewrite (slot_frame b) by done. split_and!; [done|done|congruence|done|done].
  - by rewrite (neighbors_frame b).
  - by apply elem_of_nil in Hnil.
  - rewrite (slot_frame b) in Hz by done. exists z. split; [done|].
    destruct Hsettled as [?|[?|Hmz]]; [by left|by right|exfalso].
    (* a mine next to a revealed zero cell contradicts the count *)
    assert (cells (_check_win b2) !! slot b p = Some y) as Hy' by (by rewrite Hsame).
    assert (mine y = false) as Hmy
      by (by apply (Forall_lookup_1 _ _ _ _ (inv_hidden_mines _ Hinv' Hgo') Hy')).
    assert (cols (_check_win b2) = cols b) as Hc' by congruence.
    assert (rows (_check_win b2) = rows b) as Hr' by congruence.
    assert (mine_neighbors (_check_win b2) p = 0) as Hzero.
    { rewrite <- Hay. symmetry.
      apply (reachable_adjacency _ Hreach'); [| | |done].
      - destruct (_mines_placed (_check_win b2)) eqn:E; [done|].
        destruct (inv_fresh _ Hinv' E) as (_ & _ & _ & Hall).
        destruct (Forall_lookup_1 _ _ _ _ Hall Hy') as [_ ?]. congruence.
      - by rewrite (is_inbounds_frame b).
      - by rewrite (slot_frame b), Hsame. }
    pose proof (no_mine_neighbor (_check_win b2) p q Hzero) as Hfree.
    rewrite (neighbors_frame b) in Hfree by done. specialize (Hfree Hq).
    unfold mine_at in Hfree. rewrite (slot_frame b), Hsame, Hz in Hfree by done. congruence.
Qed.

(** X14.  Flood-fill closure.  Where a call of [reveal] that does not end the
    round reveals a cell whose [adjacent] is 0, every in-bounds neighbour
    of that cell is, after the call, revealed or flagged. *)
Theorem reveal_closure (shuffle : list pos → list pos) (b : Board) (c r : Z)
    (b' : Board) :
  reachable b → is_shuffle shuffle → reveal shuffle b c r = Ok b' →
  game_over b' = false →
  ∀ p x y q,
    is_inbounds b p.1 p.2 = true →
    cells b !! slot b p = Some x → cells b' !! slot b p = Some y →
    is_revealed (state x) = false → is_revealed (state y) = true →
    adjacent (state y) = 0 →
    q ∈ neighbors b p.1 p.2 →
    ∃ z, cells b' !! slot b q = Some z ∧
         (is_revealed (state z) = true ∨ is_flagged (state z) = true).
Proof. apply reveal_closed. Qed.

Lemma reveal_closure_witness :
  reachable row10_open ∧
  ∀ p x y q,
    is_inbounds row10_open p.1 p.2 = true →
    cells row10_open !! slot row10_open p = Some x →
    cells row10_won !! slot row10_open p = Some y →
    is_revealed (state x) = false → is_revealed (state y) = true →
    adjacent (state y) = 0 →
    q ∈ neighbors row10_open p.1 p.2 →
    ∃ z, cells row10_won !! slot row10_open q = Some z ∧
         (is_revealed (state z) = true ∨ is_flagged (state z) = true).
Proof.
  split; [apply row10_open_reachable|].
  apply (reveal_closure keep_order row10_open 9 0 row10_won);
    [apply row10_open_reachable|apply keep_order_shuffle|reflexivity|reflexivity].
Defined.

Lemma filter_none {A} (P : A → Prop) `{!∀ x, Decision (P x)} (l : list A) :
  Forall (λ x, ¬ P x) l → filter P l = [].
Proof.
  induction 1 as [|x l Hx _ IH]; [done|]. by rewrite filter_cons_False, IH.
Qed.

(** X15.  The first click of a round, on an unflagged cell and with a pool
    that can take the mines, never loses: the call returns with
    [game_over] false, the clicked cell revealed with a zero count, and
    each of its in-bounds neighbours free of a mine and revealed (or left
    hidden under its flag). *)
Theorem first_click_opens (shuffle : list pos → list pos) (b : Board) (c r : Z)
    (x : Cell) :
  reachable b → _mines_placed b = false → is_shuffle shuffle →
  is_inbounds b c r = true → cells b !! slot b (c, r) = Some x →
  is_flagged (state x) = false →
  num_mines b ≤ cols b * rows b - Z.of_nat (length ((c, r) :: neighbors b c r)) →
  ∃ b', reveal shuffle b c r = Ok b' ∧ game_over b' = false ∧
        (∃ y, cells b' !! slot b (c, r) = Some y ∧ is_revealed (state y) = true ∧
              is_mine (state y) = false ∧ adjacent (state y) = 0) ∧
        ∀ q, q ∈ neighbors b c r →
             ∃ z, cells b' !! slot b q = Some z ∧ is_mine (state z) = false ∧
                  (is_revealed (state z) = true ∨ is_flagged (state z) = true).
Proof.
  intros Hreach Hmp Hsh Hin Hx Hf Hn. pose proof (reachable_inv _ Hreach) as Hinv.
  destruct (inv_fresh _ Hinv Hmp) as (_ & Hgo & _ & Hall).
  destruct (Forall_lookup_1 _ _ _ _ Hall Hx) as [_ Hrx].
  destruct (first_reveal shuffle b c r Hinv Hmp Hsh Hin Hn)
    as (b1 & x1 & b' & Hpl & Hx1 & Hm1 & Hcall & Hpath).
  destruct (Forall2_lookup_lr _ _ _ _ _ _ (pl_cells _ _ _ Hpl) Hx Hx1) as (_ & _ & _ & Hf1).
  destruct Hpath as [[Hf1' _]|[_ (b2 & Hcas & ->)]]; [unfold flagged in *; congruence|].
  set (b' := _check_win b2) in *. exists b'.
  assert (reachable b') as Hreach' by (by eapply reach_reveal).
  pose proof (reachable_inv _ Hreach') as Hinv'.
  destruct (check_win_frame b2) as (Hcw & Hrw & _ & _ & Hgow).
  assert (cols b' = cols b ∧ rows b' = rows b) as [Hc' Hr'].
  { unfold b'. rewrite Hcw, Hrw, (cas_cols _ _ Hcas), (cas_rows _ _ Hcas),
      (pl_cols _ _ _ Hpl), (pl_rows _ _ _ Hpl). done. }
  assert (game_over b' = false) as Hgo'.
  { unfold b'. rewrite Hgow, (cas_game_over _ _ Hcas), (pl_game_over _ _ _ Hpl). done. }
  assert (_mines_placed b' = true) as Hmp'.
  { unfold b'.
    assert (_mines_placed (_check_win b2) = _mines_placed b2) as ->
      by (unfold _check_win; by case_match).
    by rewrite (cas_mines_placed _ _ Hcas), (pl_mines_placed _ _ _ Hpl). }
  (* the safe zone is free of mines *)
  assert (∀ q, q ∈ forbidden b c r → mine_at b' q = false) as Hzone.
  { intros q Hq. unfold b'. rewrite check_win_mine_at, (cascade_mine_at b1 b2) by done.
    destruct (mine_at b1 q) eqn:E; [|done]. exfalso.
    apply (pl_mines _ _ _ Hpl q) in E; [|by eapply forbidden_inbounds].
    by apply (chosen_not_forbidden shuffle Hsh b c r q). }
  destruct (reveal_click_revealed _ _ _ _ _ _ Hinv Hsh Hcall Hin Hx Hf Hgo')
    as (y & Hy & Hry).
  assert (mine y = false) as Hmy
    by (by apply (Forall_lookup_1 _ _ _ _ (inv_hidden_mines _ Hinv' Hgo') Hy)).
  assert (adjacent (state y) = 0) as Hay.
  { rewrite (reachable_adjacency b' Hreach' Hmp' (c, r)); [| |by rewrite (slot_frame b)|done].
    - unfold mine_neighbors. simpl. rewrite filter_none; [done|].
      apply Forall_forall. intros q Hq. rewrite (neighbors_frame b) in Hq by done.
      rewrite (Hzone q); [by intros []|by right].
    - by rewrite (is_inbounds_frame b). }
  split_and!; [done|done|by exists y|].
  intros q Hq.
  destruct (reveal_closed _ _ _ _ _ Hreach Hsh Hcall Hgo' (c, r) x y q)
    as (z & Hz & Hsettled); try done.
  exists z. split_and!; [done| |done].
  pose proof (Hzone q ltac:(by right)) as Hfree. unfold mine_at in Hfree.
  by rewrite (slot_frame b), Hz in Hfree.
Qed.

Lemma first_click_opens_witness :
  reachable row10 ∧
  ∃ b', reveal keep_order row10 0 0 = Ok b' ∧ game_over b' = false ∧
        (∃ y, cells b' !! slot row10 (0, 0) = Some y ∧ is_revealed (state y) = true ∧
              is_mine (state y) = false ∧ adjacent (state y) = 0) ∧
        ∀ q, q ∈ neighbors row10 0 0 →
             ∃ z, cells b' !! slot row10 q = Some z ∧ is_mine (state z) = false ∧
                  (is_revealed (state z) = true ∨ is_flagged (state z) = true).
Proof.
  split; [apply row10_reachable|].
  apply (first_click_opens keep_order row10 0 0 (mkCell 0 0 (mkCellState false false false 0)));
    [apply row10_reachable|reflexivity|apply keep_order_shuffle|reflexivity
    |reflexivity|reflexivity|by vm_compute].
Defined.

(** ** When a round is won *)



(** X17.  The constructor accepts a negative mine count; such a round has no
    mines and is never won. *)
Theorem negative_mines_never_win (b : Board) :
  reachable b → num_mines b < 0 →
  win b = false ∧ Forall (λ x, is_mine (state x) = false) (cells b).
Proof.
  intros Hreach Hn. pose proof (reachable_inv _ Hreach) as Hinv.
  assert (count mine (cells b) = 0%nat) as Hnone.
  { destruct (_mines_placed b) eqn:Hmp.
    - destruct (inv_placed _ Hinv Hmp) as (_ & _ & ->). lia.
    - destruct (inv_fresh _ Hinv Hmp) as (_ & _ & _ & Hall). apply count_none.
      eapply Forall_impl; [done|]. by intros x [? _]. }
  split.
  - destruct (win b) eqn:Hw; [exfalso|done].
    clear Hnone. revert Hn Hw.
    induction Hreach as [ncols nrows mines b Hb|shuffle b c r b' Hreach IH Hsh Hcall
                        |b c r b' Hreach IH Hcall]; intros Hn Hw.
    + by injection Hb as <-.
    + pose proof (reachable_inv _ Hreach) as Hinv0.
      destruct (reveal_cases _ _ _ _ _ (inv_wf _ Hinv0) Hcall)
        as [[-> _]|(x & b1 & x1 & Hin & Hgo & Hx & Hr & Hready & Hx1 & Hpath)]; [auto|].
      destruct (ready_inv _ _ _ _ _ Hinv0 Hsh Hin Hready) as (Hinv1 & Hmp1 & _ & _ & _).
      destruct (ready_frame _ _ _ _ _ Hinv0 Hsh Hready) as (Hw1 & _ & Hn1 & _).
      destruct Hpath as [[_ ->]|[(_ & _ & ->)|(_ & Hm & b2 & Hflood & ->)]].
      * apply IH; [done|by rewrite <- Hn1|by rewrite <- Hw1].
      * apply IH; [done|by rewrite <- Hn1|by rewrite <- Hw1].
      * pose proof (ready_safe_pos _ _ _ _ _ _ Hinv0 Hsh Hin Hready Hx1 Hm) as Hsafe.
        destruct (flood_from_click b1 c r (inv_wf _ Hinv1) Hsafe) as (b2' & Hb2' & Hcas).
        assert (b2' = b2) as -> by congruence.
        assert (_mines_placed b2 = true) as Hmp2
          by (by rewrite (cas_mines_placed _ _ Hcas)).
        pose proof (cascade_inv _ _ Hinv1 Hmp1 Hcas) as Hinv2.
        destruct (check_win_frame b2) as (_ & _ & Hn2 & _).
        rewrite check_win_spec in Hw by done.
        destruct (Z.eqb_spec (revealed_count b2) (cols b2 * rows b2 - num_mines b2))
          as [Hfull|_]; simpl in Hw.
        -- destruct (inv_placed _ Hinv2 Hmp2) as (Hc & Hrw & _).
           pose proof (inv_wf _ Hinv2) as Hwf2. unfold wf in Hwf2.
           pose proof (count_le_length safe_revealed (cells b2)).
           rewrite (inv_count _ Hinv2) in Hfull. rewrite Hn2 in Hn. nia.
        -- apply IH; [done|by rewrite <- Hn1, <- (cas_num_mines _ _ Hcas), <- Hn2|].
           by rewrite <- Hw1, <- (cas_win _ _ Hcas).
    + pose proof (reachable_inv _ Hreach) as Hinv0.
      destruct (toggle_flag_cases _ _ _ _ (inv_wf _ Hinv0) Hcall)
        as [->|(x & _ & _ & _ & ->)]; by apply IH.
  - pose proof (count_full (λ _, false) mine (cells b) ltac:(done)) as Hall.
    eapply Forall_impl; [apply Hall; lia|]. intros x Hx. simpl in Hx. unfold mine in Hx.
    destruct (is_mine (state x)); [by specialize (Hx eq_refl)|done].
Qed.

Lemma negative_mines_never_win_witness :
  reachable square3_negative ∧
  win square3_negative = false ∧
  Forall (λ x, is_mine (state x) = false) (cells square3_negative).
Proof.
  assert (reachable square3_negative) as Hreach.
  { apply (reach_reveal keep_order (the_board (Board_init 3 3 (-1))) 1 1);
      [|apply keep_order_shuffle|reflexivity]. by apply (reach_init 3 3 (-1)). }
  split; [done|]. apply (negative_mines_never_win square3_negative); [done|reflexivity].
Defined.

(** ** What a call that raises leaves behind *)

(** X18.  A call of [reveal] that raises is no no-op.  It leaves a mine on
    every cell outside the safe zone (the clicked cell and its
    neighbours), on top of the mines that were there, with [_mines_placed]
    still false; it changes nothing else. *)
Theorem reveal_raised_leaves_mines (shuffle : list pos → list pos) (b : Board) (c r : Z) :
  held b → is_shuffle shuffle → reveal shuffle b c r = IndexError →
  let b' := place_mines_raised shuffle b c r in
  _mines_placed b' = false ∧ cols b' = cols b ∧ rows b' = rows b ∧
  num_mines b' = num_mines b ∧ revealed_count b' = revealed_count b ∧
  game_over b' = game_over b ∧ win b' = win b ∧
  Forall2 (λ x y,
      col y = col x ∧ row y = row x ∧
      is_revealed (state y) = is_revealed (state x) ∧
      is_flagged (state y) = is_flagged (state x) ∧
      adjacent (state y) = adjacent (state x))
    (cells b) (cells b') ∧
  ∀ p, is_inbounds b p.1 p.2 = true →
       (mine_at b' p = true ↔ mine_at b p = true ∨ p ∉ (c, r) :: neighbors b c r).
Proof.
  intros Hinv%held_held_inv Hsh Hcall b'. subst b'.
  destruct (place_mines_raised_held_inv _ _ _ _ Hinv Hsh Hcall) as (_ & Hld & Hmp).
  destruct Hld as [? ? ? Hmp' ? ? ? Hcells Hmines].
  split_and!; try done; [congruence| |].
  - eapply Forall2_impl; [done|]. intros x y [(? & ? & ? & ?) ?]. done.
  - intros p Hp. rewrite (Hmines p Hp), elem_of_pool. unfold forbidden. tauto.
Qed.

Lemma reveal_raised_leaves_mines_witness :
  held strip5 ∧
  let b' := place_mines_raised keep_order strip5 2 0 in
  _mines_placed b' = false ∧ cols b' = cols strip5 ∧ rows b' = rows strip5 ∧
  num_mines b' = num_mines strip5 ∧ revealed_count b' = revealed_count strip5 ∧
  game_over b' = game_over strip5 ∧ win b' = win strip5 ∧
  Forall2 (λ x y,
      col y = col x ∧ row y = row x ∧
      is_revealed (state y) = is_revealed (state x) ∧
      is_flagged (state y) = is_flagged (state x) ∧
      adjacent (state y) = adjacent (state x))
    (cells strip5) (cells b') ∧
  ∀ p, is_inbounds strip5 p.1 p.2 = true →
       (mine_at b' p = true ↔ mine_at strip5 p = true ∨ p ∉ (2, 0) :: neighbors strip5 2 0).
Proof.
  assert (held strip5) as Hheld by (by apply (held_init 5 1 3)).
  split; [done|].
  apply (reveal_raised_leaves_mines keep_order strip5 2 0);
    [done|apply keep_order_shuffle|reflexivity].
Defined.
